(** * pybps: a BPS patch applier and disassembler

    A shallow embedding of [pybps.py] and the properties of its patch
    interpreter: the VarInt decoder, the checksum cursor, the four
    instruction kinds, the completion loops and the checksum trailer.

    Python integers are unbounded, so every integer is a [Z]; a byte is a
    [Z] in [0, 256).  Files are lists of bytes and an open file is a
    content with a cursor.  Exceptions and non-termination are explicit
    in the [result] type: every [while] loop of the source is a
    [Fixpoint] on a fuel counter that answers [OutOfFuel] when the
    counter is used up while the loop condition still holds.

    The files are those of [open(path, 'rb')] and [open(path, 'wb')] on
    CPython for a 64-bit platform.  What the interpreter and the file
    system refuse is part of the model (a size that is no size of a
    [bytes] object, an offset that is no [off_t], a position that the
    file system does not have); running out of memory or of disk space
    is not. *)

From Stdlib Require Import String Ascii ZArith List Bool Lia.
From Stdlib Require Import HexadecimalString.
From Equations Require Import Equations.
Import ListNotations.

Local Open Scope Z_scope.

(** ** Exceptions and results *)

(** The two places that raise [InvalidFormatError], with the value their
    message prints. *)
Inductive format_error : Type :=
| BadMagic (magic : list Z)        (* f'File magic {magic} != {MAGIC}' *)
| InvalidCommand (command : Z).    (* f'Invalid command {command} ...' *)

(** [BPSError] has the two subclasses below.  The others come from the
    interpreter and are no [BPSError]: [IndexError] is what indexing an
    empty [bytes] raises, [OSError] what a seek to a position that the
    file system refuses raises, [ValueError] what a seek by an offset that
    is no [off_t] raises, and [OverflowError] what a read of more bytes
    than a [bytes] object can hold raises. *)
Inductive exn : Type :=
| InvalidFormatError (why : format_error)
| ChecksumFailure (msg : string)
| IndexError
| OSError
| ValueError
| OverflowError.

Inductive result (A : Type) : Type :=
| Ok (a : A)
| Raise (e : exn)
| OutOfFuel.

Arguments Ok {A} a.
Arguments Raise {A} e.
Arguments OutOfFuel {A}.

Definition bind {A B : Type} (r : result A) (k : A -> result B) : result B :=
  match r with
  | Ok a => k a
  | Raise e => Raise e
  | OutOfFuel => OutOfFuel
  end.

Notation "x <- r ;; k" := (bind r (fun x => k))
  (at level 61, r at next level, right associativity).
Notation "' p <- r ;; k" := (bind r (fun x => let p := x in k))
  (at level 61, p pattern, r at next level, right associativity).

Definition is_BPSError (e : exn) : bool :=
  match e with
  | InvalidFormatError _ | ChecksumFailure _ => true
  | IndexError | OSError | ValueError | OverflowError => false
  end.

Definition is_format_error (e : exn) : bool :=
  match e with
  | InvalidFormatError _ => true
  | _ => false
  end.

(** ** Constants *)

Definition MAGIC : list Z := [66; 80; 83; 49].   (* b'BPS1' *)
Definition _BUFFER_SIZE : Z := 8192.
Definition _EMPTY_DATA : list Z := repeat 0 (Z.to_nat _BUFFER_SIZE).

Definition len (l : list Z) : Z := Z.of_nat (length l).

(** ** The limits of the platform *)

Definition PY_SSIZE_T_MAX : Z := 2 ^ 63 - 1.

(** The size of the largest [bytes] object: a [bytes] object has a header
    of 33 bytes, and a read that asks for more ends in [OverflowError]
    ("byte string is too large", or, from 2 ^ 63 on, "cannot fit 'int'
    into an index-sized integer"). *)
Definition max_bytes : Z := PY_SSIZE_T_MAX - 33.

(** The offsets that fit a C [off_t]. *)
Definition fits_off_t (offset : Z) : bool :=
  (- 2 ^ 63 <=? offset) && (offset <? 2 ^ 63).

(** The largest position that the file system has.  It depends on the
    file system and is never more than [PY_SSIZE_T_MAX]; this is the one
    of ext4 with blocks of 4 KiB. *)
Definition max_offset : Z := (2 ^ 32 - 1) * 4096.

(** ** zlib.crc32 *)

(** Modelled from the spec: [zlib.crc32] is a library function outside the
    repository.  It is the standard reflected CRC-32 (polynomial
    0xEDB88320), started from the running value and complemented on the
    way in and on the way out; the running value is taken as an unsigned
    32-bit integer. *)
Definition crc32_poly : Z := 0xEDB88320.

Definition crc32_bit (c : Z) : Z :=
  if Z.odd c then Z.lxor (Z.shiftr c 1) crc32_poly else Z.shiftr c 1.

Definition crc32_byte (c b : Z) : Z := Nat.iter 8 crc32_bit (Z.lxor c b).

Definition crc32 (data : list Z) (value : Z) : Z :=
  Z.lxor (fold_left crc32_byte data
            (Z.lxor (Z.land value 0xffffffff) 0xffffffff))
         0xffffffff.

(** ** Binary files *)

(** An open file: what the file holds and where the cursor is. *)
Record BinaryIO : Type := mkIO { content : list Z; pos : Z }.

(** What is left of the file from the cursor on. *)
Definition remaining (f : BinaryIO) : list Z :=
  skipn (Z.to_nat (pos f)) (content f).

(** What [f.read(n)] returns for a size [n] that a [bytes] object can
    have: up to [n] bytes from the cursor, fewer at the end of the file
    ([-1] reads to the end of the file; the program passes no negative
    size).  The program calls it with the constants 1 and 4, with sizes
    between 1 and [_BUFFER_SIZE], and with sizes that the patch file
    decides; for those see [read_checked]. *)
Definition io_read (n : Z) (f : BinaryIO) : list Z * BinaryIO :=
  let rest := remaining f in
  let data := if n <? 0 then rest else firstn (Z.to_nat n) rest in
  (data, mkIO (content f) (pos f + len data)).

(** [f.write(data)] on an unbuffered file: the bytes land at the cursor,
    after a gap of zeros when the cursor is past the end. *)
Definition io_write (data : list Z) (f : BinaryIO) : BinaryIO :=
  let p := Z.to_nat (pos f) in
  mkIO (firstn p (content f) ++ repeat 0 (p - length (content f))
          ++ data ++ skipn (p + length data) (content f))
       (pos f + len data).

(** The positions that [seek] accepts on [f] go from 0 to the largest
    position of the file system, within which the file lies. *)
Definition max_position (f : BinaryIO) : Z :=
  Z.max max_offset (len (content f)).

(** [f.seek(offset, io.SEEK_CUR)]: the operating system refuses a position
    before the start of the file or beyond the largest position
    ([OSError]), and the interpreter an offset that is no [off_t]
    ([ValueError]).  A cursor is a position that was accepted, so an
    offset that is no [off_t] moves it out of the positions. *)
Definition io_seek_cur (offset : Z) (f : BinaryIO) : result BinaryIO :=
  let p := pos f + offset in
  if (0 <=? p) && (p <=? max_position f) then Ok (mkIO (content f) p)
  else if fits_off_t offset then Raise OSError
  else Raise ValueError.

Definition io_tell (f : BinaryIO) : Z := pos f.

(** [int.from_bytes(data, 'little', signed=False)] *)
Definition int_from_bytes_little (data : list Z) : Z :=
  fold_right (fun b acc => b + 256 * acc) 0 data.

(** ** _ReadState *)

Record _ReadState : Type := mkReadState {
  buffer : BinaryIO;
  position : Z;
  checksum : Z
}.

(** [_ReadState.__init__] *)
Definition new_ReadState (buffer : BinaryIO) : _ReadState :=
  mkReadState buffer 0 0.

(** [_ReadState.read] *)
Definition read (self : _ReadState) (n : Z) : list Z * _ReadState :=
  let (data, buffer') := io_read n (buffer self) in
  (data,
   mkReadState buffer'
     (position self + len data) (* May be smaller than n *)
     (Z.land (crc32 data (checksum self)) 0xffffffff)).

(** [self.read(n)] for a size [n] that the patch file decides (the size
    of the metadata, the length of a literal): a size that no [bytes]
    object has ends the call in [OverflowError] before anything is read.
    Every other size that the program reads is at most [_BUFFER_SIZE]. *)
Definition read_checked (self : _ReadState) (n : Z)
  : result (list Z * _ReadState) :=
  if max_bytes <? n then Raise OverflowError else Ok (read self n).

(** [_ReadState.write] *)
Definition write (self : _ReadState) (data : list Z) : _ReadState :=
  mkReadState (io_write data (buffer self))
    (position self + len data)
    (Z.land (crc32 data (checksum self)) 0xffffffff).

(** ** _PatchState and the two back-reference handles *)

Record _PatchState : Type := mkPatchState {
  source : _ReadState;
  patch : _ReadState;
  target : _ReadState
}.

(** Everything [_patch] mutates.  [target_rel] is a second handle on the
    file that [state.target] writes, so only its cursor is its own: what it
    reads is whatever the target file holds at the time of the read. *)
Record Streams : Type := mkStreams {
  state : _PatchState;
  source_rel : BinaryIO;
  target_rel : Z
}.

Definition target_file (m : Streams) : list Z :=
  content (buffer (target (state m))).

Definition target_rel_io (m : Streams) : BinaryIO :=
  mkIO (target_file m) (target_rel m).

Definition with_source (m : Streams) (s : _ReadState) : Streams :=
  mkStreams (mkPatchState s (patch (state m)) (target (state m)))
            (source_rel m) (target_rel m).

Definition with_patch (m : Streams) (p : _ReadState) : Streams :=
  mkStreams (mkPatchState (source (state m)) p (target (state m)))
            (source_rel m) (target_rel m).

Definition with_target (m : Streams) (t : _ReadState) : Streams :=
  mkStreams (mkPatchState (source (state m)) (patch (state m)) t)
            (source_rel m) (target_rel m).

Definition with_source_rel (m : Streams) (f : BinaryIO) : Streams :=
  mkStreams (state m) f (target_rel m).

Definition with_target_rel (m : Streams) (p : Z) : Streams :=
  mkStreams (state m) (source_rel m) p.

(** The [_Readable] arguments that [_buffered_copy] is called with. *)
Inductive Readable : Type :=
| state_source     (* state.source *)
| state_patch      (* state.patch *)
| the_source_rel   (* source_rel *)
| the_target_rel.  (* target_rel *)

(** [source.read(n)] for each of them. *)
Definition read_from (r : Readable) (n : Z) (m : Streams)
  : list Z * Streams :=
  match r with
  | state_source =>
      let (data, s) := read (source (state m)) n in (data, with_source m s)
  | state_patch =>
      let (data, p) := read (patch (state m)) n in (data, with_patch m p)
  | the_source_rel =>
      let (data, f) := io_read n (source_rel m) in
      (data, with_source_rel m f)
  | the_target_rel =>
      let (data, f) := io_read n (target_rel_io m) in
      (data, with_target_rel m (pos f))
  end.

(** [state.target.write(data)] *)
Definition write_target (data : list Z) (m : Streams) : Streams :=
  with_target m (write (target (state m)) data).

(** ** PatchResult *)

Record PatchResult : Type := mkPatchResult {
  source_size : Z;
  target_size : Z;
  metadata : list Z;
  source_checksum : Z;
  target_checksum : Z;
  patch_checksum : Z
}.

(** ** _decode_number *)

Fixpoint _decode_number_loop (fuel : nat) (input : _ReadState)
    (data shift : Z) : result (Z * _ReadState) :=
  match fuel with
  | O => OutOfFuel
  | S fuel' =>
      let (bytes, input) := read input 1 in
      match bytes with
      | [] => Raise IndexError                       (* input.read(1)[0] *)
      | x :: _ =>
          let data := data + Z.land x 0x7f * shift in
          if Z.land x 0x80 =? 0 then
            let shift := Z.shiftl shift 7 in
            _decode_number_loop fuel' input (data + shift) shift
          else Ok (data, input)
      end
  end.

Definition _decode_number (fuel : nat) (input : _ReadState)
  : result (Z * _ReadState) :=
  _decode_number_loop fuel input 0 1.

(** ** _buffered_copy *)

Fixpoint _buffered_copy (fuel : nat) (source : Readable)
    (length buffer_size : Z) (m : Streams) : result Streams :=
  if 0 <? length then
    match fuel with
    | O => OutOfFuel
    | S fuel' =>
        let (buffer, m) := read_from source (Z.min length buffer_size) m in
        let m := write_target buffer m in
        _buffered_copy fuel' source (length - buffer_size) buffer_size m
    end
  else Ok m.

(** The signed offset of a copy instruction:
    [(-1 if (data & 1) else 1) * (data >> 1)]. *)
Definition signed_offset (data : Z) : Z :=
  (if Z.land data 1 =? 0 then 1 else -1) * Z.shiftr data 1.

(** ** _patch *)

(** The byte-by-byte branch of TargetCopy:
    [for _ in range(length): state.target.write(target_rel.read(1))]. *)
Fixpoint target_copy_bytewise (n : nat) (m : Streams) : Streams :=
  match n with
  | O => m
  | S n' =>
      let (b, m) := read_from the_target_rel 1 m in
      target_copy_bytewise n' (write_target b m)
  end.

(** One turn of the instruction loop of [_patch].  The line that prints
    the target position is output only and is left out. *)
Definition _patch_instruction (fuel : nat) (target_rel_base : Z)
    (m : Streams) : result Streams :=
  '(data, p) <- _decode_number fuel (patch (state m)) ;;
  let m := with_patch m p in
  let command := Z.land data 3 in
  let length := Z.shiftr data 2 + 1 in
  if command =? 0 then
    _buffered_copy fuel state_source length _BUFFER_SIZE m
  else if command =? 1 then
    _buffered_copy fuel state_patch length _BUFFER_SIZE m
  else if command =? 2 then
    '(data, p) <- _decode_number fuel (patch (state m)) ;;
    let m := with_patch m p in
    f <- io_seek_cur (signed_offset data) (source_rel m) ;;
    let m := with_source_rel m f in
    _buffered_copy fuel the_source_rel length _BUFFER_SIZE m
  else if command =? 3 then
    '(data, p) <- _decode_number fuel (patch (state m)) ;;
    let m := with_patch m p in
    f <- io_seek_cur (signed_offset data) (target_rel_io m) ;;
    let m := with_target_rel m (pos f) in
    let target_rel_offset := io_tell (target_rel_io m) - target_rel_base in
    (* Data can be buffered, instead of copied byte by byte *)
    if position (target (state m)) - 8 >? target_rel_offset then
      _buffered_copy fuel the_target_rel length
        (Z.min (position (target (state m)) - target_rel_offset)
               _BUFFER_SIZE) m
    else
      Ok (target_copy_bytewise (Z.to_nat length) m)
  else
    Raise (InvalidFormatError (InvalidCommand command)).

(** [while state.patch.position < patch_end: ...] *)
Fixpoint _patch_loop (fuel gas : nat) (patch_end target_rel_base : Z)
    (m : Streams) : result Streams :=
  if position (patch (state m)) <? patch_end then
    match gas with
    | O => OutOfFuel
    | S gas' =>
        m <- _patch_instruction fuel target_rel_base m ;;
        _patch_loop fuel gas' patch_end target_rel_base m
    end
  else Ok m.

(** [while remaining > 0:
      state.source.read(min(remaining, _BUFFER_SIZE)) ...] *)
Fixpoint drain_chunks (gas : nat) (remaining : Z) (s : _ReadState)
  : result _ReadState :=
  if 0 <? remaining then
    match gas with
    | O => OutOfFuel
    | S gas' =>
        (* Don't read past end *)
        let (_, s) := read s (Z.min remaining _BUFFER_SIZE) in
        drain_chunks gas' (remaining - _BUFFER_SIZE) s
    end
  else Ok s.

(** [while state.source.position < source_size: ...] *)
Fixpoint drain_source (fuel gas : nat) (source_size : Z) (s : _ReadState)
  : result _ReadState :=
  if position s <? source_size then
    match gas with
    | O => OutOfFuel
    | S gas' =>
        s <- drain_chunks fuel (source_size - position s) s ;;
        drain_source fuel gas' source_size s
    end
  else Ok s.

(** [while remaining > 0: state.target.write(_EMPTY_DATA[:min(...)]) ...] *)
Fixpoint pad_chunks (gas : nat) (remaining : Z) (t : _ReadState)
  : result _ReadState :=
  if 0 <? remaining then
    match gas with
    | O => OutOfFuel
    | S gas' =>
        let t :=
          write t (firstn (Z.to_nat (Z.min remaining _BUFFER_SIZE))
                          _EMPTY_DATA) in
        pad_chunks gas' (remaining - _BUFFER_SIZE) t
    end
  else Ok t.

(** [while state.target.position < target_size: ...] *)
Fixpoint pad_target (fuel gas : nat) (target_size : Z) (t : _ReadState)
  : result _ReadState :=
  if position t <? target_size then
    match gas with
    | O => OutOfFuel
    | S gas' =>
        t <- pad_chunks fuel (target_size - position t) t ;;
        pad_target fuel gas' target_size t
    end
  else Ok t.

(** [f'{n:x}'] for a non-negative [n]. *)
Definition hex (n : Z) : string :=
  NilZero.string_of_uint (N.to_hex_uint (Z.to_N n)).

(** The message of the three [ChecksumFailure]s, as the source spells it. *)
Definition checksum_message (computed expected : Z) : string :=
  ("Source checksum " ++ hex computed ++ " != " ++ hex expected)%string.

(** The trailer: the three checksums are read and, unless [skip_checksum],
    compared with the running ones.  The last one is read from the patch
    file itself, not through [state.patch]. *)
Definition _patch_trailer (skip_checksum : bool)
    (source_size target_size : Z) (metadata : list Z) (m : Streams)
  : result (PatchResult * Streams) :=
  let (b, p) := read (patch (state m)) 4 in
  let m := with_patch m p in
  let source_checksum := int_from_bytes_little b in
  if negb skip_checksum
     && negb (checksum (source (state m)) =? source_checksum) then
    Raise (ChecksumFailure
             (checksum_message (checksum (source (state m))) source_checksum))
  else
  let (b, p) := read (patch (state m)) 4 in
  let m := with_patch m p in
  let target_checksum := int_from_bytes_little b in
  if negb skip_checksum
     && negb (checksum (target (state m)) =? target_checksum) then
    Raise (ChecksumFailure
             (checksum_message (checksum (target (state m))) target_checksum))
  else
  let (b, f) := io_read 4 (buffer (patch (state m))) in
  let m := with_patch m (mkReadState f (position (patch (state m)))
                                       (checksum (patch (state m)))) in
  let patch_checksum := int_from_bytes_little b in
  if negb skip_checksum
     && negb (checksum (patch (state m)) =? patch_checksum) then
    Raise (ChecksumFailure
             (checksum_message (checksum (patch (state m))) patch_checksum))
  else
  Ok (mkPatchResult source_size target_size metadata
        source_checksum target_checksum patch_checksum, m).

(** The head of [_patch]: the magic, the three numbers of the header and
    the metadata.  [target_abs] and [target_rel] are two handles on one
    file: the second is given by its cursor. *)
Definition _patch_header (fuel : nat)
    (source_abs source_rel patch_io target_abs : BinaryIO) (target_rel : Z)
  : result (Z * Z * list Z * Streams) :=
  let m := mkStreams (mkPatchState (new_ReadState source_abs)
                                   (new_ReadState patch_io)
                                   (new_ReadState target_abs))
                     source_rel target_rel in
  let (magic, p) := read (patch (state m)) 4 in
  let m := with_patch m p in
  if negb (if list_eq_dec Z.eq_dec magic MAGIC then true else false) then
    Raise (InvalidFormatError (BadMagic magic))
  else
  '(source_size, p) <- _decode_number fuel (patch (state m)) ;;
  let m := with_patch m p in
  '(target_size, p) <- _decode_number fuel (patch (state m)) ;;
  let m := with_patch m p in
  '(metadata_size, p) <- _decode_number fuel (patch (state m)) ;;
  let m := with_patch m p in
  '(metadata, p) <- read_checked (patch (state m)) metadata_size ;;
  let m := with_patch m p in
  Ok (source_size, target_size, metadata, m).

(** The two loops after the instructions:
    "Make sure we calculate the full checksums!" *)
Definition _patch_complete (fuel : nat) (source_size target_size : Z)
    (m : Streams) : result Streams :=
  s <- drain_source fuel fuel source_size (source (state m)) ;;
  let m := with_source m s in
  t <- pad_target fuel fuel target_size (target (state m)) ;;
  let m := with_target m t in
  Ok m.

(** [_patch]: header, instruction loop, completion, trailer.  The result
    is paired with the streams as the call leaves them, so that the target
    file can be inspected. *)
Definition _patch (fuel : nat) (source_abs source_rel patch_io : BinaryIO)
    (patch_size : Z) (target_abs : BinaryIO) (target_rel : Z)
    (skip_checksum : bool) : result (PatchResult * Streams) :=
  '(source_size, target_size, metadata, m) <-
    _patch_header fuel source_abs source_rel patch_io target_abs target_rel ;;
  let target_rel_base := io_tell (target_rel_io m) in
  let patch_end := patch_size - 12 in
  m <- _patch_loop fuel fuel patch_end target_rel_base m ;;
  m <- _patch_complete fuel source_size target_size m ;;
  _patch_trailer skip_checksum source_size target_size metadata m.

(** ** dis *)

(** What [dis] prints, line by line. *)
Inductive dis_line : Type :=
| line_string (magic : list Z)
| line_source_size (n : Z)
| line_target_size (n : Z)
| line_metadata_size (n : Z)
| line_metadata (data : list Z)
| line_repeat
| line_SourceRead (length : Z)
| line_TargetRead (length : Z) (data : list Z)
| line_SourceCopy (offset : Z)
| line_TargetCopy (offset : Z)
| line_source_checksum (c : Z)
| line_target_checksum (c : Z)
| line_patch_checksum (c : Z).

(** One turn of the loop of [dis]: the line it prints and the reader
    after it. *)
Definition dis_instruction (fuel : nat) (reader : _ReadState)
  : result (dis_line * _ReadState) :=
  '(data, reader) <- _decode_number fuel reader ;;
  let command := Z.land data 3 in
  let length := Z.shiftr data 2 + 1 in
  if command =? 0 then
    Ok (line_SourceRead length, reader)
  else if command =? 1 then
    '(literal, reader) <- read_checked reader length ;;
    Ok (line_TargetRead length literal, reader)
  else if command =? 2 then
    '(data, reader) <- _decode_number fuel reader ;;
    Ok (line_SourceCopy (signed_offset data), reader)
  else if command =? 3 then
    '(data, reader) <- _decode_number fuel reader ;;
    Ok (line_TargetCopy (signed_offset data), reader)
  else
    Raise (InvalidFormatError (InvalidCommand command)).

Fixpoint dis_loop (fuel gas : nat) (patch_end : Z) (reader : _ReadState)
  : result (list dis_line * _ReadState) :=
  if position reader <? patch_end then
    match gas with
    | O => OutOfFuel
    | S gas' =>
        '(line, reader) <- dis_instruction fuel reader ;;
        '(lines, reader) <- dis_loop fuel gas' patch_end reader ;;
        Ok (line :: lines, reader)
    end
  else Ok ([], reader).

Definition dis (fuel : nat) (patch : BinaryIO) (patch_size : Z)
  : result (list dis_line) :=
  let reader := new_ReadState patch in
  let (magic, reader) := read reader 4 in
  '(source_size, reader) <- _decode_number fuel reader ;;
  '(target_size, reader) <- _decode_number fuel reader ;;
  '(metadata_size, reader) <- _decode_number fuel reader ;;
  '(metadata, reader) <- read_checked reader metadata_size ;;
  let patch_end := patch_size - 12 in
  '(lines, reader) <- dis_loop fuel fuel patch_end reader ;;
  let (b, reader) := read reader 4 in
  let source_checksum := int_from_bytes_little b in
  let (b, reader) := read reader 4 in
  let target_checksum := int_from_bytes_little b in
  let (b, _) := io_read 4 (buffer reader) in
  let patch_checksum := int_from_bytes_little b in
  Ok ([line_string magic; line_source_size source_size;
       line_target_size target_size; line_metadata_size metadata_size;
       line_metadata metadata; line_repeat]
      ++ lines
      ++ [line_source_checksum source_checksum;
          line_target_checksum target_checksum;
          line_patch_checksum patch_checksum]).

(** ** patch *)

(** [patch] with its three files given by their contents: [source] and
    [target] are opened twice each, the target file is created empty, and
    [patch_size] defaults to the size of the patch file. *)
Module Api.

Definition patch (fuel : nat) (source patch : list Z)
    (patch_size : option Z) (skip_checksum : bool)
  : result (PatchResult * Streams) :=
  let source_abs := mkIO source 0 in
  let source_rel := mkIO source 0 in
  let patch := mkIO patch 0 in
  let patch_size :=
    match patch_size with
    | None => len (content patch)
    | Some n => n
    end in
  let target_abs := mkIO [] 0 in
  let target_rel := 0 in
  _patch fuel source_abs source_rel patch patch_size target_abs target_rel
         skip_checksum.

End Api.

(** ** The VarInt scheme in the words of the specification *)

(** The decoder as the specification words it: the value starts at 0 and
    the scale at 1; each byte adds its low seven bits times the scale; a
    byte with its high bit set ends the number; otherwise the scale is
    multiplied by 128 and then added to the value.  [None] when the bytes
    run out first. *)
Fixpoint varint_spec (stream : list Z) (value scale : Z)
  : option (Z * list Z) :=
  match stream with
  | [] => None
  | b :: rest =>
      let value := value + Z.land b 0x7f * scale in
      if Z.testbit b 7 then Some (value, rest)
      else
        let scale := scale * 128 in
        varint_spec rest (value + scale) scale
  end.

(** Modelled from the spec: the encoder is not part of the program (the
    specification calls it an external, test-only counterpart).  It is the
    encoder of the cumulative-scale-bias scheme: seven bits at a time, low
    bits first, one taken off the rest after every byte that is not the
    last, and the high bit set on the last byte. *)
Equations? encode_number (n : Z) : list Z by wf (Z.to_nat (Z.log2 n)) lt :=
  encode_number n with Z_le_gt_dec (Z.shiftr n 7) 0 := {
    | left _ => [Z.lor 0x80 (Z.land n 0x7f)]
    | right _ => Z.land n 0x7f :: encode_number (Z.shiftr n 7 - 1) }.
Proof.
  assert (Hn : 0 < n).
  { destruct (Z_lt_le_dec 0 n) as [|Hle]; [assumption|].
    rewrite Z.shiftr_div_pow2 in g by lia.
    assert (n / 2 ^ 7 <= 0) by (apply Z.div_le_upper_bound; lia). lia. }
  assert (Hs : Z.log2 (Z.shiftr n 7) = Z.max 0 (Z.log2 n - 7))
    by (apply Z.log2_shiftr; assumption).
  assert (Hm : Z.log2 (Z.shiftr n 7 - 1) <= Z.log2 (Z.shiftr n 7))
    by (apply Z.log2_le_mono; lia).
  assert (Hp : 0 < Z.log2 (Z.shiftr n 7 - 1) \/ Z.log2 (Z.shiftr n 7 - 1) = 0)
    by (pose proof (Z.log2_nonneg (Z.shiftr n 7 - 1)); lia).
  assert (Hl : 7 <= Z.log2 n).
  { apply Z.log2_le_pow2; [assumption|].
    rewrite Z.shiftr_div_pow2 in g by lia.
    destruct (Z_lt_le_dec n (2 ^ 7)) as [Hlt|]; [|assumption].
    rewrite Z.div_small in g by lia. lia. }
  lia.
Qed.

(** ** Properties of results *)

(** The exception of the branch that follows the four instruction kinds. *)
Definition invalid_command (e : exn) : bool :=
  match e with
  | InvalidFormatError (InvalidCommand _) => true
  | _ => false
  end.

Definition is_checksum_failure (e : exn) : bool :=
  match e with
  | ChecksumFailure _ => true
  | _ => false
  end.

(** A result that is not one of the exceptions [bad]. *)
Definition avoids {A : Type} (bad : exn -> bool) (r : result A) : Prop :=
  match r with
  | Raise e => bad e = false
  | _ => True
  end.

(** [r'] is [r] with more fuel: the same, unless [r] ran out. *)
Definition approx {A : Type} (r r' : result A) : Prop :=
  r = OutOfFuel \/ r = r'.

(** [_patch] up to the trailer: what does not depend on [skip_checksum]. *)
Definition _patch_body (fuel : nat)
    (source_abs source_rel patch_io : BinaryIO) (patch_size : Z)
    (target_abs : BinaryIO) (target_rel : Z)
  : result (Z * Z * list Z * Streams) :=
  '(source_size, target_size, metadata, m) <-
    _patch_header fuel source_abs source_rel patch_io target_abs target_rel ;;
  m <- _patch_loop fuel fuel (patch_size - 12) (io_tell (target_rel_io m)) m ;;
  m <- _patch_complete fuel source_size target_size m ;;
  Ok (source_size, target_size, metadata, m).

(** The three trailer fields that follow the cursor of a patch file. *)
Definition trailer_fields (f : BinaryIO) : Z * Z * Z :=
  let (b1, f) := io_read 4 f in
  let (b2, f) := io_read 4 f in
  let (b3, _) := io_read 4 f in
  (int_from_bytes_little b1, int_from_bytes_little b2,
   int_from_bytes_little b3).

(** ** Example files *)

Definition bytes_of (s : string) : list Z :=
  map (fun a => Z.of_nat (nat_of_ascii a)) (list_ascii_of_string s).

(** Four bytes, little-endian. *)
Definition le32 (n : Z) : list Z :=
  [Z.land n 255; Z.land (Z.shiftr n 8) 255;
   Z.land (Z.shiftr n 16) 255; Z.land (Z.shiftr n 24) 255].

(** A patch file from its header fields and its instruction bytes, with
    the given source and target checksums and its own checksum. *)
Definition patch_file (source_size target_size : Z) (metadata : list Z)
    (instructions : list Z) (source_crc target_crc : Z) : list Z :=
  let body :=
    MAGIC ++ encode_number source_size ++ encode_number target_size
      ++ encode_number (len metadata) ++ metadata
      ++ instructions ++ le32 source_crc ++ le32 target_crc in
  body ++ le32 (crc32 body 0).

(** The opcode word of an instruction and a signed offset, encoded. *)
Definition opcode (command length : Z) : list Z :=
  encode_number (Z.lor (Z.shiftl (length - 1) 2) command).

Definition offset_word (delta : Z) : list Z :=
  encode_number (Z.lor (Z.shiftl (Z.abs delta) 1)
                       (if delta <? 0 then 1 else 0)).

(** No instruction, empty source and target; the trailer names 5 as the
    source checksum and is right about the target. *)
Definition wrong_source_patch : list Z :=
  [66; 80; 83; 49; 128; 128; 128; 5; 0; 0; 0; 0; 0; 0; 0; 247; 17; 56; 22].

(** The same, with the trailer right about the source and naming 5 as the
    target checksum. *)
Definition wrong_target_patch : list Z :=
  [66; 80; 83; 49; 128; 128; 128; 0; 0; 0; 0; 5; 0; 0; 0; 161; 239; 6; 105].

(** source_size 0, target_size 5, no metadata, TargetRead(5) "hello", and
    the three right checksums. *)
Definition hello_patch : list Z :=
  [66; 80; 83; 49; 128; 133; 128; 145; 104; 101; 108; 108; 111;
   0; 0; 0; 0; 134; 166; 16; 54; 157; 75; 164; 41].

(** source_size 5, target_size 5, SourceRead(3), SourceCopy(2, -3), and the
    checksums of "ABCDE", of "ABCAB" and of the patch. *)
Definition abcde_patch : list Z :=
  [66; 80; 83; 49; 133; 133; 128; 136; 134; 135;
   213; 26; 211; 114; 51; 123; 192; 145; 77; 84; 228; 148].

(** The same with SourceCopy(2, +0). *)
Definition abcde_patch_0 : list Z :=
  [66; 80; 83; 49; 133; 133; 128; 136; 134; 128;
   213; 26; 211; 114; 51; 123; 192; 145; 132; 57; 133; 240].

(** source_size 1, target_size 0, no instruction, checksums 0 and 0. *)
Definition short_source_patch : list Z :=
  [66; 80; 83; 49; 129; 128; 128; 0; 0; 0; 0; 0; 0; 0; 0; 83; 192; 86; 159].

(** ** What a TargetCopy is to produce *)

(** The copy of the format, one byte at a time: each byte is appended to
    the target before the next one is read, so that a copy may read what
    it has itself produced. *)
Fixpoint lz_copy (n : nat) (off : nat) (out : list Z) : list Z :=
  match n with
  | O => out
  | S n' => lz_copy n' (S off) (out ++ [nth off out 0])
  end.

(** The run in closed form: the bytes of [out] from [off] on, repeated
    with the period [length out - off]. *)
Definition repeating_run (out : list Z) (off n : nat) : list Z :=
  map (fun i => nth (off + i mod (length out - off)) out 0) (seq 0 n).

(** The write cursor of the target is at the end of the file, and the
    position of [state.target] counts the whole file. *)
Definition target_at_end (m : Streams) : Prop :=
  pos (buffer (target (state m))) = len (target_file m)
  /\ position (target (state m)) = len (target_file m).

(** Streams in the middle of a run: the target holds [out], all of it
    written through [state.target]; the patch file is at [instructions];
    the target back-reference cursor is at [cursor]. *)
Definition streams_with_target (out instructions : list Z) (cursor : Z)
  : Streams :=
  mkStreams
    (mkPatchState (new_ReadState (mkIO [] 0))
                  (new_ReadState (mkIO instructions 0))
                  (mkReadState (mkIO out (len out)) (len out)
                               (Z.land (crc32 out 0) 0xffffffff)))
    (mkIO [] 0) cursor.

(** "abcdefghij" in the target and TargetCopy(25, +0) from cursor 0: the
    buffered branch. *)
Definition buffered_run_example : Streams :=
  streams_with_target (bytes_of "abcdefghij")
                      (opcode 3 25 ++ offset_word 0) 0.

(** "ab" in the target and TargetCopy(5, -1) from cursor 2: the
    byte-by-byte branch, a run of "b". *)
Definition bytewise_run_example : Streams :=
  streams_with_target (bytes_of "ab") (opcode 3 5 ++ offset_word (-1)) 2.

(** ** The patch cursor and its checksum *)

Definition is_byte (b : Z) : Prop := 0 <= b < 256.

Definition u32 (x : Z) : Prop := 0 <= x < 2 ^ 32.

(** A cursor opened at the start of the file [file] has read the first
    [position] bytes of it, and its checksum is the CRC-32 of those. *)
Definition reads_prefix (file : list Z) (p : _ReadState) : Prop :=
  content (buffer p) = file
  /\ pos (buffer p) = position p
  /\ 0 <= position p <= len file
  /\ checksum p = crc32 (firstn (Z.to_nat (position p)) file) 0.

(** The same for the streams of a run: the cursor of the patch file. *)
Definition patch_ok (file : list Z) (m : Streams) : Prop :=
  reads_prefix file (patch (state m)).

(** A result that, when it is a value, satisfies [Q]. *)
Definition ensures {A : Type} (Q : A -> Prop) (r : result A) : Prop :=
  match r with
  | Ok a => Q a
  | _ => True
  end.

(** A patch of 20 bytes: source_size 0, target_size 1, no metadata and
    TargetRead(1) with the literal 174, whose byte lies where the trailer
    should begin (20 - 12 = 8).  The checksums are then read from bytes
    9..12, 13..16 and 17..19, and they are the right ones there. *)
Definition overrun_patch : list Z :=
  [66; 80; 83; 49; 128; 129; 128; 129; 174; 0; 0; 0; 0;
   98; 97; 108; 227; 211; 230; 200].

(** source_size 0, target_size 5, TargetRead(1) "a" and TargetCopy(4, +0):
    a run of five "a". *)
Definition run_patch : list Z :=
  patch_file 0 5 [] (opcode 1 1 ++ bytes_of "a" ++ opcode 3 4 ++ offset_word 0)
             (crc32 [] 0) (crc32 (bytes_of "aaaaa") 0).

(** ** More properties of results and streams *)

Definition is_index_error (e : exn) : bool :=
  match e with
  | IndexError => true
  | _ => false
  end.

(** The handle that a reader other than [target_rel] reads from. *)
Definition reader_io (r : Readable) (m : Streams) : BinaryIO :=
  match r with
  | state_source => buffer (source (state m))
  | state_patch => buffer (patch (state m))
  | the_source_rel => source_rel m
  | the_target_rel => target_rel_io m
  end.

(** A VarInt as the decoder accepts it: bytes below 128 and then one byte
    from 128 to 255. *)
Definition varint_bytes (s : list Z) : Prop :=
  exists body t,
    s = body ++ [t]
    /\ Forall (fun b => 0 <= b < 128) body
    /\ 128 <= t < 256.

(** A cursor that has written its whole file, from the first byte on: it
    stands at the end, its position is the length of the file and its
    checksum the CRC-32 of the file. *)
Definition writes_file (t : _ReadState) : Prop :=
  pos (buffer t) = len (content (buffer t))
  /\ position t = len (content (buffer t))
  /\ Forall is_byte (content (buffer t))
  /\ checksum t = crc32 (content (buffer t)) 0.

(** The streams of a run of [patch] on the source file [src]: the source
    cursor has read a prefix of [src], the target cursor has written the
    whole target, and every file holds bytes. *)
Definition run_ok (src : list Z) (m : Streams) : Prop :=
  reads_prefix src (source (state m))
  /\ Forall is_byte (content (source_rel m))
  /\ Forall is_byte (content (buffer (patch (state m))))
  /\ writes_file (target (state m)).

(** A cursor opened at the start of [file]: its position is where its
    handle stands, within the file. *)
Definition cursor_ok (file : list Z) (s : _ReadState) : Prop :=
  content (buffer s) = file
  /\ pos (buffer s) = position s
  /\ 0 <= position s <= len file.

(** What the termination of a run of [patch] rests on: the patch and the
    source cursors are within their files and the target cursor is at the
    end of the target. *)
Definition cursors_ok (file src : list Z) (m : Streams) : Prop :=
  cursor_ok file (patch (state m))
  /\ cursor_ok src (source (state m))
  /\ pos (buffer (target (state m))) = len (target_file m).

(** A result that is not [OutOfFuel] and, when it is a value, satisfies
    [Q]. *)
Definition ends_with {A : Type} (Q : A -> Prop) (r : result A) : Prop :=
  match r with
  | Ok a => Q a
  | Raise _ => True
  | OutOfFuel => False
  end.

(** ** What the lines of [dis] say of a run of [patch] *)

(** What the line that [dis] prints for an instruction says of the turn
    of the loop of [patch] that runs the instruction, from the streams
    [m] to the streams [m']. *)
Definition shows (line : dis_line) (m m' : Streams) : Prop :=
  match line with
  | line_SourceRead length =>
      target_file m'
      = target_file m
        ++ firstn (Z.to_nat length) (remaining (buffer (source (state m))))
  | line_TargetRead length data =>
      target_file m' = target_file m ++ data /\ len data <= length
  | line_SourceCopy offset =>
      exists k,
        let copied :=
          firstn k (skipn (Z.to_nat (pos (source_rel m) + offset))
                          (content (source_rel m))) in
        target_file m' = target_file m ++ copied
        /\ pos (source_rel m') = pos (source_rel m) + offset + len copied
  | line_TargetCopy offset =>
      exists copied,
        target_file m' = target_file m ++ copied
        /\ target_rel m' = target_rel m + offset + len copied
  | _ => False
  end.

(** The lines [lines] are, one for one and in their order, the
    instructions that the loop of [patch] runs from the streams [m],
    where the patch cursor is before [patch_end], to the streams [m'],
    where it no longer is. *)
Fixpoint disassembles (fuel : nat) (patch_end : Z) (lines : list dis_line)
    (m m' : Streams) : Prop :=
  match lines with
  | [] => patch_end <= position (patch (state m)) /\ m' = m
  | line :: lines =>
      position (patch (state m)) < patch_end
      /\ exists m1,
           _patch_instruction fuel 0 m = Ok m1
           /\ shows line m m1
           /\ disassembles fuel patch_end lines m1 m'
  end.

(** * Proofs *)

(** ** Reading from a file *)

Lemma remaining_nil_read (f : BinaryIO) (n : Z) :
  remaining f = [] -> io_read n f = ([], mkIO (content f) (pos f + 0)).
Proof.
  intros H. unfold io_read. rewrite H.
  destruct (n <? 0); [reflexivity|]. now rewrite firstn_nil.
Qed.

Lemma skipn_succ_of_cons {A : Type} (k : nat) (l : list A) x rest :
  skipn k l = x :: rest -> skipn (S k) l = rest.
Proof.
  intros H. change (S k) with (1 + k)%nat.
  rewrite <- skipn_skipn, H. reflexivity.
Qed.

Lemma remaining_cons_read (f : BinaryIO) x rest :
  0 <= pos f -> remaining f = x :: rest ->
  io_read 1 f = ([x], mkIO (content f) (pos f + 1))
  /\ remaining (mkIO (content f) (pos f + 1)) = rest.
Proof.
  intros Hp H. split.
  - unfold io_read. now rewrite H.
  - unfold remaining in *. simpl.
    replace (Z.to_nat (pos f + 1)) with (S (Z.to_nat (pos f))) by lia.
    eapply skipn_succ_of_cons; eassumption.
Qed.

Lemma io_read_next (n : Z) (f : BinaryIO) :
  0 <= n -> 0 <= pos f ->
  fst (io_read n f) = firstn (Z.to_nat n) (remaining f)
  /\ content (snd (io_read n f)) = content f
  /\ pos (snd (io_read n f))
     = pos f + len (firstn (Z.to_nat n) (remaining f))
  /\ remaining (snd (io_read n f))
     = skipn (length (firstn (Z.to_nat n) (remaining f))) (remaining f).
Proof.
  intros Hn Hp. unfold io_read. destruct (Z.ltb_spec n 0); [lia|].
  cbn [fst snd content pos]. repeat split.
  unfold remaining at 1. cbn [content pos]. unfold remaining at 3, len.
  rewrite skipn_skipn. f_equal. lia.
Qed.

Lemma read_next (s : _ReadState) (n : Z) :
  0 <= n -> 0 <= pos (buffer s) ->
  fst (read s n) = firstn (Z.to_nat n) (remaining (buffer s))
  /\ remaining (buffer (snd (read s n)))
     = skipn (length (firstn (Z.to_nat n) (remaining (buffer s))))
             (remaining (buffer s))
  /\ position (snd (read s n))
     = position s + len (firstn (Z.to_nat n) (remaining (buffer s))).
Proof.
  intros Hn Hp.
  destruct (io_read_next n (buffer s) Hn Hp) as (Hd & _ & _ & Hr).
  unfold read. destruct (io_read n (buffer s)) as [data f].
  cbn [fst snd buffer position] in *. subst data. auto.
Qed.

Lemma skipn_length_firstn {A : Type} (k : nat) (l : list A) :
  skipn (length (firstn k l)) l = skipn k l.
Proof.
  rewrite length_firstn.
  destruct (Nat.le_gt_cases k (length l)) as [H|H].
  - now rewrite Nat.min_l by lia.
  - rewrite Nat.min_r by lia. now rewrite skipn_all, skipn_all2 by lia.
Qed.

(** The three trailer fields are the twelve bytes that follow the cursor,
    four by four (fewer when the file ends before). *)
Lemma trailer_fields_bytes (f : BinaryIO) :
  0 <= pos f ->
  trailer_fields f
  = (int_from_bytes_little (firstn 4 (remaining f)),
     int_from_bytes_little (firstn 4 (skipn 4 (remaining f))),
     int_from_bytes_little (firstn 4 (skipn 8 (remaining f)))).
Proof.
  intros Hp. unfold trailer_fields.
  destruct (io_read_next 4 f ltac:(lia) Hp) as (Hd1 & _ & Hp1 & Hr1).
  destruct (io_read 4 f) as [b1 f1]. cbn [fst snd] in *.
  assert (Hp1' : 0 <= pos f1) by (rewrite Hp1; unfold len; lia).
  destruct (io_read_next 4 f1 ltac:(lia) Hp1') as (Hd2 & _ & Hp2 & Hr2).
  destruct (io_read 4 f1) as [b2 f2]. cbn [fst snd] in *.
  assert (Hp2' : 0 <= pos f2) by (rewrite Hp2; unfold len; lia).
  destruct (io_read_next 4 f2 ltac:(lia) Hp2') as (Hd3 & _ & _ & _).
  destruct (io_read 4 f2) as [b3 f3]. cbn [fst snd] in *.
  change (Z.to_nat 4) with 4%nat in *.
  rewrite skipn_length_firstn in Hr1. rewrite Hr1 in Hd2, Hr2.
  rewrite skipn_length_firstn, skipn_skipn in Hr2.
  change (4 + 4)%nat with 8%nat in Hr2. rewrite Hr2 in Hd3.
  now subst.
Qed.

(** ** Moving within a file *)

Lemma max_position_bounds (f : BinaryIO) :
  max_offset <= max_position f /\ len (content f) <= max_position f.
Proof. unfold max_position. lia. Qed.

Lemma io_seek_cur_accepted (offset : Z) (f : BinaryIO) :
  0 <= pos f + offset <= max_position f ->
  io_seek_cur offset f = Ok (mkIO (content f) (pos f + offset)).
Proof.
  intros H. unfold io_seek_cur.
  destruct (Z.leb_spec 0 (pos f + offset)) as [H0|H0]; [|lia].
  destruct (Z.leb_spec (pos f + offset) (max_position f)) as [H1|H1]; [|lia].
  reflexivity.
Qed.

(** A position within the file is accepted whatever the file system. *)
Lemma io_seek_cur_within (offset : Z) (f : BinaryIO) :
  0 <= pos f + offset <= len (content f) ->
  io_seek_cur offset f = Ok (mkIO (content f) (pos f + offset)).
Proof.
  intros H. apply io_seek_cur_accepted.
  pose proof (max_position_bounds f). lia.
Qed.

Lemma io_seek_cur_refused (offset : Z) (f : BinaryIO) :
  pos f + offset < 0 \/ max_position f < pos f + offset ->
  io_seek_cur offset f
  = Raise (if fits_off_t offset then OSError else ValueError).
Proof.
  intros H. unfold io_seek_cur.
  destruct (Z.leb_spec 0 (pos f + offset)) as [H0|H0];
    destruct (Z.leb_spec (pos f + offset) (max_position f)) as [H1|H1];
    cbn [andb]; try lia; now destruct (fits_off_t offset).
Qed.

(** What a seek that is accepted leaves. *)
Lemma io_seek_cur_value (offset : Z) (f g : BinaryIO) :
  io_seek_cur offset f = Ok g ->
  g = mkIO (content f) (pos f + offset)
  /\ 0 <= pos f + offset <= max_position f.
Proof.
  unfold io_seek_cur.
  destruct (Z.leb_spec 0 (pos f + offset)) as [H0|H0];
    destruct (Z.leb_spec (pos f + offset) (max_position f)) as [H1|H1];
    cbn [andb]; intros E;
    try (destruct (fits_off_t offset); discriminate E).
  inversion E. split; [reflexivity|lia].
Qed.

(** ** VarInt: bit tests *)

Lemma high_bit_test (x : Z) : (Z.land x 0x80 =? 0) = negb (Z.testbit x 7).
Proof.
  assert (E : Z.land x 0x80 = if Z.testbit x 7 then 0x80 else 0).
  { apply Z.bits_inj'. intros n Hn. rewrite Z.land_spec.
    change 0x80 with (2 ^ 7). rewrite Z.pow2_bits_eqb by lia.
    destruct (Z.eqb_spec 7 n) as [<-|Hne].
    - destruct (Z.testbit x 7); [|now rewrite Z.bits_0].
      now rewrite Z.pow2_bits_eqb by lia.
    - rewrite andb_false_r.
      destruct (Z.testbit x 7); [|now rewrite Z.bits_0].
      rewrite Z.pow2_bits_eqb by lia.
      symmetry. now apply Z.eqb_neq. }
  rewrite E. now destruct (Z.testbit x 7).
Qed.

Lemma shift_seven (s : Z) : Z.shiftl s 7 = s * 128.
Proof. now rewrite Z.shiftl_mul_pow2 by lia. Qed.

(** ** VarInt: the decoder follows the specification's algorithm *)

Lemma decode_loop_follows_spec (stream : list Z) :
  forall (fuel : nat) (input : _ReadState) (data shift : Z),
    remaining (buffer input) = stream ->
    0 <= pos (buffer input) ->
    (length stream < fuel)%nat ->
    match varint_spec stream data shift with
    | Some (v, rest) =>
        exists input',
          _decode_number_loop fuel input data shift = Ok (v, input')
          /\ remaining (buffer input') = rest
          /\ content (buffer input') = content (buffer input)
          /\ 0 <= pos (buffer input')
    | None => _decode_number_loop fuel input data shift = Raise IndexError
    end.
Proof.
  induction stream as [|b rest IH]; intros fuel input data shift Hrem Hpos Hf.
  - destruct fuel as [|fuel]; [simpl in Hf; lia|].
    cbn [_decode_number_loop]. unfold read.
    now rewrite (remaining_nil_read _ _ Hrem).
  - destruct fuel as [|fuel]; [simpl in Hf; lia|].
    destruct (remaining_cons_read _ _ _ Hpos Hrem) as [Hread Hrest].
    cbn [_decode_number_loop]. unfold read. rewrite Hread.
    rewrite high_bit_test.
    destruct (Z.testbit b 7) eqn:Hb; cbn [negb varint_spec]; rewrite Hb.
    + eexists. split; [reflexivity|]. cbn [buffer content pos].
      repeat split; [assumption|lia].
    + rewrite shift_seven.
      match goal with
      | |- context [_decode_number_loop fuel ?i ?d ?s] =>
          specialize (IH fuel i d s)
      end.
      cbn [buffer content pos] in IH.
      specialize (IH Hrest ltac:(lia) ltac:(simpl in Hf; lia)).
      destruct (varint_spec rest _ _) as [[v rest']|]; [|exact IH].
      destruct IH as (input' & Hrun & Hr & Hc & Hp).
      exists input'. repeat split; assumption.
Qed.

(** ** VarInt: round trip *)

Lemma seven_bits (n : Z) : Z.land n 0x7f = n mod 128.
Proof. change 0x7f with (Z.ones 7). now rewrite Z.land_ones by lia. Qed.

Lemma terminator_byte_facts :
  forallb (fun x => (Z.land (Z.lor 0x80 x) 0x7f =? x)
                    && Z.testbit (Z.lor 0x80 x) 7
                    && negb (Z.testbit x 7))
          (map Z.of_nat (seq 0 128)) = true.
Proof. vm_compute. reflexivity. Qed.

Lemma terminator_byte (x : Z) :
  0 <= x < 128 ->
  Z.land (Z.lor 0x80 x) 0x7f = x
  /\ Z.testbit (Z.lor 0x80 x) 7 = true
  /\ Z.testbit x 7 = false.
Proof.
  intros Hx. pose proof terminator_byte_facts as H.
  rewrite forallb_forall in H. specialize (H x).
  assert (Hin : In x (map Z.of_nat (seq 0 128))).
  { apply in_map_iff. exists (Z.to_nat x). split; [lia|].
    apply in_seq. lia. }
  apply H in Hin. apply andb_prop in Hin as [Hin H3].
  apply andb_prop in Hin as [H1 H2].
  apply Z.eqb_eq in H1. apply negb_true_iff in H3. auto.
Qed.

Lemma varint_spec_encode (n : Z) :
  0 <= n ->
  forall (rest : list Z) (value scale : Z),
    varint_spec (encode_number n ++ rest) value scale
    = Some (value + n * scale, rest).
Proof.
  funelim (encode_number n); intros Hn rest value scale.
  - (* one byte *)
    clear Heq.
    assert (Hlt : n < 128).
    { rewrite Z.shiftr_div_pow2 in l by lia.
      destruct (Z_lt_le_dec n 128) as [|Hge]; [assumption|].
      assert (1 <= n / 2 ^ 7) by (apply Z.div_le_lower_bound; lia). lia. }
    rewrite seven_bits, Z.mod_small by lia.
    destruct (terminator_byte n ltac:(lia)) as (H1 & H2 & _).
    cbn [varint_spec app]. rewrite H1, H2. reflexivity.
  - (* a byte and the rest *)
    clear Heq.
    assert (Hq : Z.shiftr n 7 = n / 128)
      by now rewrite Z.shiftr_div_pow2 by lia.
    rewrite seven_bits.
    pose proof (Z.mod_pos_bound n 128 ltac:(lia)) as Hm.
    destruct (terminator_byte (n mod 128) Hm) as (_ & _ & H3).
    cbn [varint_spec app]. rewrite seven_bits, Z.mod_mod by lia. rewrite H3.
    rewrite H by lia. f_equal. f_equal.
    rewrite Hq. pose proof (Z.div_mod n 128 ltac:(lia)). nia.
Qed.

(** C7: [_decode_number] computes exactly the algorithm of the
    specification (value from 0, scale from 1, the low seven bits of each
    byte times the scale added, stop at a byte with the high bit set,
    otherwise the scale times 128 and then added to the value), failing
    when the bytes run out; and it decodes what the encoder of the scheme
    writes: for every non-negative [n], decoding [encode_number n] gives
    [n] and leaves the cursor just after it. *)
Theorem decode_number_is_varint (input : _ReadState) (fuel : nat) :
  0 <= pos (buffer input) ->
  (length (remaining (buffer input)) < fuel)%nat ->
  match varint_spec (remaining (buffer input)) 0 1 with
  | Some (v, rest) =>
      exists input',
        _decode_number fuel input = Ok (v, input')
        /\ remaining (buffer input') = rest
  | None => _decode_number fuel input = Raise IndexError
  end
  /\ forall n rest,
       0 <= n ->
       remaining (buffer input) = encode_number n ++ rest ->
       exists input',
         _decode_number fuel input = Ok (n, input')
         /\ remaining (buffer input') = rest.
Proof.
  intros Hpos Hfuel.
  pose proof (decode_loop_follows_spec _ fuel input 0 1 eq_refl Hpos Hfuel)
    as Hspec.
  split.
  - destruct (varint_spec _ 0 1) as [[v rest]|]; [|exact Hspec].
    destruct Hspec as (input' & Hrun & Hr & _). now exists input'.
  - intros n rest Hn Hrem. rewrite Hrem in Hspec.
    rewrite varint_spec_encode in Hspec by assumption.
    destruct Hspec as (input' & Hrun & Hr & _).
    exists input'. split; [|assumption].
    unfold _decode_number. rewrite Hrun. do 2 f_equal. lia.
Qed.

Lemma decode_number_is_varint_witness :
  exists input',
    _decode_number 5 (new_ReadState (mkIO [44; 129; 7] 0)) = Ok (300, input')
    /\ remaining (buffer input') = [7].
Proof.
  refine (proj2 (decode_number_is_varint
                   (new_ReadState (mkIO [44; 129; 7] 0)) 5 _ _)
                300 [7] _ _).
  - simpl. lia.
  - simpl. lia.
  - lia.
  - reflexivity.
Defined.

(** ** Fuel

    A run that ends, in a value or in an exception, is not changed by
    more fuel: [OutOfFuel] is the only answer that depends on the
    counter. *)

Lemma approx_refl {A : Type} (r : result A) : approx r r.
Proof. now right. Qed.

Lemma approx_out {A : Type} (r : result A) : approx OutOfFuel r.
Proof. now left. Qed.

Lemma approx_bind {A B : Type} (r r' : result A) (k k' : A -> result B) :
  approx r r' -> (forall a, approx (k a) (k' a)) ->
  approx (bind r k) (bind r' k').
Proof.
  intros [-> | ->] Hk; [now left|].
  destruct r' as [a| |]; simpl; [apply Hk|now right|now left].
Qed.

Lemma approx_value {A : Type} (r r' v : result A) :
  approx r r' -> r = v -> v <> OutOfFuel -> r' = v.
Proof. intros [-> | ->] <- H; [contradiction|reflexivity]. Qed.

Lemma approx_finished {A : Type} (r r' : result A) :
  approx r r' -> r <> OutOfFuel -> r' = r.
Proof. intros [-> | ->] H; [contradiction|reflexivity]. Qed.

Create HintDb fuel.
#[local] Hint Resolve approx_refl approx_out : fuel.

Lemma _decode_number_loop_mono (fuel : nat) :
  forall fuel' input data shift,
    (fuel <= fuel')%nat ->
    approx (_decode_number_loop fuel input data shift)
           (_decode_number_loop fuel' input data shift).
Proof.
  induction fuel as [|fuel IH]; intros fuel' input data shift Hle;
    [apply approx_out|].
  destruct fuel' as [|fuel']; [lia|].
  cbn [_decode_number_loop].
  destruct (read input 1) as [[|x bytes] input']; [apply approx_refl|].
  destruct (Z.land x 128 =? 0); [apply IH; lia|apply approx_refl].
Qed.

Lemma _decode_number_mono (fuel fuel' : nat) (input : _ReadState) :
  (fuel <= fuel')%nat ->
  approx (_decode_number fuel input) (_decode_number fuel' input).
Proof. apply _decode_number_loop_mono. Qed.

Lemma _buffered_copy_mono (fuel : nat) :
  forall fuel' source length buffer_size m,
    (fuel <= fuel')%nat ->
    approx (_buffered_copy fuel source length buffer_size m)
           (_buffered_copy fuel' source length buffer_size m).
Proof.
  induction fuel as [|fuel IH]; intros fuel' source length bs m Hle.
  - destruct fuel'; cbn [_buffered_copy];
      destruct (0 <? length); auto with fuel.
  - destruct fuel' as [|fuel']; [lia|]. cbn [_buffered_copy].
    destruct (0 <? length); [|apply approx_refl].
    destruct (read_from source (Z.min length bs) m) as [b m'].
    apply IH. lia.
Qed.

Lemma _patch_instruction_mono (fuel fuel' : nat) (base : Z) (m : Streams) :
  (fuel <= fuel')%nat ->
  approx (_patch_instruction fuel base m) (_patch_instruction fuel' base m).
Proof.
  intros Hle. unfold _patch_instruction.
  apply approx_bind; [now apply _decode_number_mono|].
  intros [data p].
  repeat match goal with
         | |- approx (if ?c then _ else _) (if ?c then _ else _) =>
             destruct c
         | |- approx (bind _ _) (bind _ _) => apply approx_bind
         | |- approx (_decode_number _ _) (_decode_number _ _) =>
             now apply _decode_number_mono
         | |- approx (_buffered_copy _ _ _ _ _) (_buffered_copy _ _ _ _ _) =>
             now apply _buffered_copy_mono
         | |- forall _, _ => intros ?
         | |- approx (let (_, _) := ?x in _) _ => destruct x
         | |- approx ?r ?r => apply approx_refl
         end.
Qed.

Lemma _patch_loop_mono (gas : nat) :
  forall gas' fuel fuel' patch_end base m,
    (fuel <= fuel')%nat -> (gas <= gas')%nat ->
    approx (_patch_loop fuel gas patch_end base m)
           (_patch_loop fuel' gas' patch_end base m).
Proof.
  induction gas as [|gas IH]; intros gas' fuel fuel' patch_end base m Hf Hg.
  - destruct gas'; cbn [_patch_loop];
      destruct (position (patch (state m)) <? patch_end); auto with fuel.
  - destruct gas' as [|gas']; [lia|]. cbn [_patch_loop].
    destruct (position (patch (state m)) <? patch_end); [|apply approx_refl].
    apply approx_bind; [now apply _patch_instruction_mono|].
    intros m'. apply IH; lia.
Qed.

Lemma drain_chunks_mono (gas : nat) :
  forall gas' remaining s,
    (gas <= gas')%nat ->
    approx (drain_chunks gas remaining s) (drain_chunks gas' remaining s).
Proof.
  induction gas as [|gas IH]; intros gas' remaining s Hg.
  - destruct gas'; cbn [drain_chunks];
      destruct (0 <? remaining); auto with fuel.
  - destruct gas' as [|gas']; [lia|]. cbn [drain_chunks].
    destruct (0 <? remaining); [|apply approx_refl].
    destruct (read s (Z.min remaining _BUFFER_SIZE)) as [b s'].
    apply IH. lia.
Qed.

Lemma drain_source_mono (gas : nat) :
  forall gas' fuel fuel' source_size s,
    (fuel <= fuel')%nat -> (gas <= gas')%nat ->
    approx (drain_source fuel gas source_size s)
           (drain_source fuel' gas' source_size s).
Proof.
  induction gas as [|gas IH]; intros gas' fuel fuel' source_size s Hf Hg.
  - destruct gas'; cbn [drain_source];
      destruct (position s <? source_size); auto with fuel.
  - destruct gas' as [|gas']; [lia|]. cbn [drain_source].
    destruct (position s <? source_size); [|apply approx_refl].
    apply approx_bind; [now apply drain_chunks_mono|].
    intros s'. apply IH; lia.
Qed.

Lemma pad_chunks_mono (gas : nat) :
  forall gas' remaining t,
    (gas <= gas')%nat ->
    approx (pad_chunks gas remaining t) (pad_chunks gas' remaining t).
Proof.
  induction gas as [|gas IH]; intros gas' remaining t Hg.
  - destruct gas'; cbn [pad_chunks];
      destruct (0 <? remaining); auto with fuel.
  - destruct gas' as [|gas']; [lia|]. cbn [pad_chunks].
    destruct (0 <? remaining); [|apply approx_refl].
    apply IH. lia.
Qed.

Lemma pad_target_mono (gas : nat) :
  forall gas' fuel fuel' target_size t,
    (fuel <= fuel')%nat -> (gas <= gas')%nat ->
    approx (pad_target fuel gas target_size t)
           (pad_target fuel' gas' target_size t).
Proof.
  induction gas as [|gas IH]; intros gas' fuel fuel' target_size t Hf Hg.
  - destruct gas'; cbn [pad_target];
      destruct (position t <? target_size); auto with fuel.
  - destruct gas' as [|gas']; [lia|]. cbn [pad_target].
    destruct (position t <? target_size); [|apply approx_refl].
    apply approx_bind; [now apply pad_chunks_mono|].
    intros t'. apply IH; lia.
Qed.

Lemma _patch_complete_mono (fuel fuel' : nat) (ss ts : Z) (m : Streams) :
  (fuel <= fuel')%nat ->
  approx (_patch_complete fuel ss ts m) (_patch_complete fuel' ss ts m).
Proof.
  intros Hle. unfold _patch_complete.
  apply approx_bind; [now apply drain_source_mono|]. intros s.
  apply approx_bind; [now apply pad_target_mono|]. intros t.
  apply approx_refl.
Qed.

Lemma _patch_header_mono (fuel fuel' : nat)
    (source_abs source_rel patch_io target_abs : BinaryIO) (target_rel : Z) :
  (fuel <= fuel')%nat ->
  approx (_patch_header fuel source_abs source_rel patch_io target_abs
                        target_rel)
         (_patch_header fuel' source_abs source_rel patch_io target_abs
                        target_rel).
Proof.
  intros Hle. unfold _patch_header.
  destruct (read _ 4) as [magic p].
  destruct (negb _); [apply approx_refl|].
  apply approx_bind; [now apply _decode_number_mono|]. intros [ss p1].
  apply approx_bind; [now apply _decode_number_mono|]. intros [ts p2].
  apply approx_bind; [now apply _decode_number_mono|]. intros [ms p3].
  apply approx_refl.
Qed.

Lemma _patch_mono (fuel fuel' : nat) (source_abs source_rel patch_io : BinaryIO)
    (patch_size : Z) (target_abs : BinaryIO) (target_rel : Z)
    (skip_checksum : bool) :
  (fuel <= fuel')%nat ->
  approx (_patch fuel source_abs source_rel patch_io patch_size target_abs
                 target_rel skip_checksum)
         (_patch fuel' source_abs source_rel patch_io patch_size target_abs
                 target_rel skip_checksum).
Proof.
  intros Hle. unfold _patch.
  apply approx_bind; [now apply _patch_header_mono|].
  intros [[[ss ts] md] m].
  apply approx_bind; [now apply _patch_loop_mono|]. intros m1.
  apply approx_bind; [now apply _patch_complete_mono|]. intros m2.
  apply approx_refl.
Qed.

Lemma patch_mono (fuel fuel' : nat) (source patch : list Z)
    (patch_size : option Z) (skip_checksum : bool) :
  (fuel <= fuel')%nat ->
  approx (Api.patch fuel source patch patch_size skip_checksum)
         (Api.patch fuel' source patch patch_size skip_checksum).
Proof. apply _patch_mono. Qed.

(** A run that ended with some fuel ends the same way with more. *)
Lemma patch_more_fuel (fuel fuel' : nat) (source patch : list Z)
    (patch_size : option Z) (skip_checksum : bool) (r : result _) :
  Api.patch fuel source patch patch_size skip_checksum = r ->
  r <> OutOfFuel ->
  (fuel <= fuel')%nat ->
  Api.patch fuel' source patch patch_size skip_checksum = r.
Proof.
  intros <- Hr Hle.
  exact (approx_finished _ _ (patch_mono _ _ _ _ _ _ Hle) Hr).
Qed.

Lemma dis_instruction_mono (fuel fuel' : nat) (reader : _ReadState) :
  (fuel <= fuel')%nat ->
  approx (dis_instruction fuel reader) (dis_instruction fuel' reader).
Proof.
  intros Hle. unfold dis_instruction.
  apply approx_bind; [now apply _decode_number_mono|].
  intros [data p].
  repeat match goal with
         | |- approx (if ?c then _ else _) (if ?c then _ else _) =>
             destruct c
         | |- approx (bind _ _) (bind _ _) => apply approx_bind
         | |- approx (_decode_number _ _) (_decode_number _ _) =>
             now apply _decode_number_mono
         | |- forall _, _ => intros ?
         | |- approx (let (_, _) := ?x in _) _ => destruct x
         | |- approx ?r ?r => apply approx_refl
         end.
Qed.

Lemma dis_loop_mono (gas : nat) :
  forall gas' fuel fuel' patch_end reader,
    (fuel <= fuel')%nat -> (gas <= gas')%nat ->
    approx (dis_loop fuel gas patch_end reader)
           (dis_loop fuel' gas' patch_end reader).
Proof.
  induction gas as [|gas IH]; intros gas' fuel fuel' patch_end reader Hf Hg.
  - destruct gas'; cbn [dis_loop];
      destruct (position reader <? patch_end); auto with fuel.
  - destruct gas' as [|gas']; [lia|]. cbn [dis_loop].
    destruct (position reader <? patch_end); [|apply approx_refl].
    apply approx_bind; [now apply dis_instruction_mono|].
    intros [line r]. apply approx_bind; [apply IH; lia|].
    intros [lines r']. apply approx_refl.
Qed.

Lemma dis_mono (fuel fuel' : nat) (patch_io : BinaryIO) (patch_size : Z) :
  (fuel <= fuel')%nat ->
  approx (dis fuel patch_io patch_size) (dis fuel' patch_io patch_size).
Proof.
  intros Hle. unfold dis.
  destruct (read _ 4) as [magic r0].
  apply approx_bind; [now apply _decode_number_mono|]. intros [ss p1].
  apply approx_bind; [now apply _decode_number_mono|]. intros [ts p2].
  apply approx_bind; [now apply _decode_number_mono|]. intros [ms p3].
  apply approx_bind; [apply approx_refl|]. intros [md p4].
  apply approx_bind; [now apply dis_loop_mono|]. intros [lines r'].
  apply approx_refl.
Qed.

(** ** The example files are what they are said to be *)

Example wrong_source_patch_built :
  wrong_source_patch = patch_file 0 0 [] [] 5 0.
Proof. vm_compute. reflexivity. Qed.

Example wrong_target_patch_built :
  wrong_target_patch = patch_file 0 0 [] [] 0 5.
Proof. vm_compute. reflexivity. Qed.

Example hello_patch_built :
  hello_patch
  = patch_file 0 5 [] (opcode 1 5 ++ bytes_of "hello")
               (crc32 [] 0) (crc32 (bytes_of "hello") 0).
Proof. vm_compute. reflexivity. Qed.

Example abcde_patch_built :
  abcde_patch
  = patch_file 5 5 [] (opcode 0 3 ++ opcode 2 2 ++ offset_word (-3))
               (crc32 (bytes_of "ABCDE") 0) (crc32 (bytes_of "ABCAB") 0).
Proof. vm_compute. reflexivity. Qed.

Example abcde_patch_0_built :
  abcde_patch_0
  = patch_file 5 5 [] (opcode 0 3 ++ opcode 2 2 ++ offset_word 0)
               (crc32 (bytes_of "ABCDE") 0) (crc32 (bytes_of "ABCAB") 0).
Proof. vm_compute. reflexivity. Qed.

Example short_source_patch_built :
  short_source_patch = patch_file 1 0 [] [] 0 0.
Proof. vm_compute. reflexivity. Qed.

Example crc32_check_value : crc32 (bytes_of "123456789") 0 = 0xCBF43926.
Proof. vm_compute. reflexivity. Qed.

(** ** VarInt on a stream that runs out *)

Lemma varint_spec_no_terminator (stream : list Z) :
  Forall (fun b => Z.testbit b 7 = false) stream ->
  forall value scale, varint_spec stream value scale = None.
Proof.
  induction 1 as [|b rest Hb _ IH]; intros value scale; [reflexivity|].
  cbn [varint_spec]. rewrite Hb. apply IH.
Qed.

(** C3, as the code has it: on a stream that runs out before a byte with
    the high bit set, [_decode_number] fails, but with the [IndexError] of
    indexing the empty read, which is not a [BPSError] and so not the
    format error of the library. *)
Theorem decode_number_truncated (input : _ReadState) (fuel : nat) :
  0 <= pos (buffer input) ->
  (length (remaining (buffer input)) < fuel)%nat ->
  Forall (fun b => Z.testbit b 7 = false) (remaining (buffer input)) ->
  _decode_number fuel input = Raise IndexError
  /\ is_format_error IndexError = false
  /\ is_BPSError IndexError = false.
Proof.
  intros Hpos Hfuel Hno.
  pose proof (decode_loop_follows_spec _ fuel input 0 1 eq_refl Hpos Hfuel)
    as Hspec.
  rewrite varint_spec_no_terminator in Hspec by assumption.
  repeat split. exact Hspec.
Qed.

Lemma decode_number_truncated_witness :
  _decode_number 3 (new_ReadState (mkIO [1; 2] 0)) = Raise IndexError
  /\ is_format_error IndexError = false
  /\ is_BPSError IndexError = false.
Proof.
  apply (decode_number_truncated (new_ReadState (mkIO [1; 2] 0)) 3).
  - simpl. lia.
  - simpl. lia.
  - repeat constructor.
Defined.

(** C3, as the specification has it, fails: the stream [1; 2] has no
    terminator, and decoding it does not end in a format error. *)
Lemma decode_number_truncated_not_format_error :
  Forall (fun b => Z.testbit b 7 = false) [1; 2]
  /\ ~ (exists why,
          _decode_number 3 (new_ReadState (mkIO [1; 2] 0))
          = Raise (InvalidFormatError why)).
Proof.
  split; [repeat constructor|].
  intros [why H]. vm_compute in H. discriminate.
Qed.

(** ** Which exceptions a run can end in *)

Lemma command_range (data : Z) : 0 <= Z.land data 3 < 4.
Proof.
  change 3 with (Z.ones 2). rewrite Z.land_ones by lia.
  apply Z.mod_pos_bound. lia.
Qed.

Lemma _patch_body_trailer (fuel : nat)
    (source_abs source_rel patch_io : BinaryIO) (patch_size : Z)
    (target_abs : BinaryIO) (target_rel : Z) (skip_checksum : bool) :
  _patch fuel source_abs source_rel patch_io patch_size target_abs target_rel
         skip_checksum
  = '(source_size, target_size, metadata, m) <-
      _patch_body fuel source_abs source_rel patch_io patch_size target_abs
                  target_rel ;;
    _patch_trailer skip_checksum source_size target_size metadata m.
Proof.
  unfold _patch, _patch_body.
  destruct (_patch_header _ _ _ _ _ _) as [[[[ss ts] md] m]| |];
    cbn [bind]; try reflexivity.
  destruct (_patch_loop _ _ _ _ _); cbn [bind]; try reflexivity.
  destruct (_patch_complete _ _ _ _); reflexivity.
Qed.

Section Avoids.

Variable bad : exn -> bool.
Hypothesis bad_IndexError : bad IndexError = false.
Hypothesis bad_OSError : bad OSError = false.
Hypothesis bad_ValueError : bad ValueError = false.
Hypothesis bad_OverflowError : bad OverflowError = false.

Lemma avoids_bind {A B : Type} (r : result A) (k : A -> result B) :
  avoids bad r -> (forall a, avoids bad (k a)) -> avoids bad (bind r k).
Proof. destruct r; simpl; auto. Qed.

Lemma _decode_number_loop_avoids (fuel : nat) :
  forall input data shift,
    avoids bad (_decode_number_loop fuel input data shift).
Proof.
  induction fuel as [|fuel IH]; intros input data shift; [exact I|].
  cbn [_decode_number_loop].
  destruct (read input 1) as [[|x bytes] input']; [exact bad_IndexError|].
  destruct (Z.land x 128 =? 0); [apply IH|exact I].
Qed.

Lemma _decode_number_avoids (fuel : nat) (input : _ReadState) :
  avoids bad (_decode_number fuel input).
Proof. apply _decode_number_loop_avoids. Qed.

Lemma _buffered_copy_avoids (fuel : nat) :
  forall source length buffer_size m,
    avoids bad (_buffered_copy fuel source length buffer_size m).
Proof.
  induction fuel as [|fuel IH]; intros source length bs m;
    cbn [_buffered_copy]; destruct (0 <? length); try exact I.
  destruct (read_from source (Z.min length bs) m) as [b m']. apply IH.
Qed.

Lemma io_seek_cur_avoids (offset : Z) (f : BinaryIO) :
  avoids bad (io_seek_cur offset f).
Proof.
  unfold io_seek_cur. destruct (_ && _); [exact I|].
  destruct (fits_off_t offset); [exact bad_OSError|exact bad_ValueError].
Qed.

Lemma read_checked_avoids (s : _ReadState) (n : Z) :
  avoids bad (read_checked s n).
Proof.
  unfold read_checked. destruct (_ <? n); [exact bad_OverflowError|exact I].
Qed.

Ltac step_avoids :=
  repeat match goal with
         | |- avoids _ (bind _ _) => apply avoids_bind
         | |- avoids _ (_decode_number _ _) => apply _decode_number_avoids
         | |- avoids _ (_buffered_copy _ _ _ _ _) =>
             apply _buffered_copy_avoids
         | |- avoids _ (io_seek_cur _ _) => apply io_seek_cur_avoids
         | |- avoids _ (read_checked _ _) => apply read_checked_avoids
         | |- forall _, _ => intros ?
         | |- avoids _ (let (_, _) := ?x in _) => destruct x
         | |- avoids _ (Ok _) => exact I
         | |- avoids _ (if ?c >? ?d then _ else _) => destruct (c >? d)
         end.

(** The last branch of the dispatch is never taken: the kind is one of
    0, 1, 2, 3. *)
Lemma _patch_instruction_avoids (fuel : nat) (base : Z) (m : Streams) :
  avoids bad (_patch_instruction fuel base m).
Proof.
  unfold _patch_instruction.
  apply avoids_bind; [apply _decode_number_avoids|].
  intros [data p]. pose proof (command_range data) as Hc.
  destruct (Z.eqb_spec (Z.land data 3) 0); [step_avoids|].
  destruct (Z.eqb_spec (Z.land data 3) 1); [step_avoids|].
  destruct (Z.eqb_spec (Z.land data 3) 2); [step_avoids|].
  destruct (Z.eqb_spec (Z.land data 3) 3); [step_avoids|].
  lia.
Qed.

Lemma _patch_loop_avoids (gas : nat) :
  forall fuel patch_end base m,
    avoids bad (_patch_loop fuel gas patch_end base m).
Proof.
  induction gas as [|gas IH]; intros fuel patch_end base m;
    cbn [_patch_loop]; destruct (_ <? patch_end); try exact I.
  apply avoids_bind; [apply _patch_instruction_avoids|].
  intros m'. apply IH.
Qed.

Lemma drain_chunks_avoids (gas : nat) :
  forall remaining s, avoids bad (drain_chunks gas remaining s).
Proof.
  induction gas as [|gas IH]; intros remaining s;
    cbn [drain_chunks]; destruct (0 <? remaining); try exact I.
  destruct (read s _). apply IH.
Qed.

Lemma drain_source_avoids (gas : nat) :
  forall fuel source_size s,
    avoids bad (drain_source fuel gas source_size s).
Proof.
  induction gas as [|gas IH]; intros fuel source_size s;
    cbn [drain_source]; destruct (_ <? source_size); try exact I.
  apply avoids_bind; [apply drain_chunks_avoids|].
  intros s'. apply IH.
Qed.

Lemma pad_chunks_avoids (gas : nat) :
  forall remaining t, avoids bad (pad_chunks gas remaining t).
Proof.
  induction gas as [|gas IH]; intros remaining t;
    cbn [pad_chunks]; destruct (0 <? remaining); try exact I.
  apply IH.
Qed.

Lemma pad_target_avoids (gas : nat) :
  forall fuel target_size t,
    avoids bad (pad_target fuel gas target_size t).
Proof.
  induction gas as [|gas IH]; intros fuel target_size t;
    cbn [pad_target]; destruct (_ <? target_size); try exact I.
  apply avoids_bind; [apply pad_chunks_avoids|].
  intros t'. apply IH.
Qed.

Lemma _patch_complete_avoids (fuel : nat) (ss ts : Z) (m : Streams) :
  avoids bad (_patch_complete fuel ss ts m).
Proof.
  unfold _patch_complete.
  apply avoids_bind; [apply drain_source_avoids|]. intros s.
  apply avoids_bind; [apply pad_target_avoids|]. intros t.
  exact I.
Qed.

Lemma dis_instruction_avoids (fuel : nat) (reader : _ReadState) :
  avoids bad (dis_instruction fuel reader).
Proof.
  unfold dis_instruction.
  apply avoids_bind; [apply _decode_number_avoids|].
  intros [data p]. pose proof (command_range data) as Hc.
  destruct (Z.eqb_spec (Z.land data 3) 0); [step_avoids|].
  destruct (Z.eqb_spec (Z.land data 3) 1); [step_avoids|].
  destruct (Z.eqb_spec (Z.land data 3) 2); [step_avoids|].
  destruct (Z.eqb_spec (Z.land data 3) 3); [step_avoids|].
  lia.
Qed.

Lemma dis_loop_avoids (gas : nat) :
  forall fuel patch_end reader,
    avoids bad (dis_loop fuel gas patch_end reader).
Proof.
  induction gas as [|gas IH]; intros fuel patch_end reader;
    cbn [dis_loop]; destruct (_ <? patch_end); try exact I.
  apply avoids_bind; [apply dis_instruction_avoids|].
  intros [line r]. apply avoids_bind; [apply IH|].
  intros [lines r']. exact I.
Qed.

(** [dis] raises nothing of its own. *)
Lemma dis_avoids (fuel : nat) (patch_io : BinaryIO) (patch_size : Z) :
  avoids bad (dis fuel patch_io patch_size).
Proof.
  unfold dis. destruct (read _ 4) as [magic r0]. step_avoids.
  apply dis_loop_avoids.
Qed.

(** Header, loop and completion: the only exception of their own is the
    one for a wrong magic. *)
Hypothesis bad_BadMagic :
  forall magic, bad (InvalidFormatError (BadMagic magic)) = false.

Lemma _patch_header_avoids (fuel : nat)
    (source_abs source_rel patch_io target_abs : BinaryIO) (target_rel : Z) :
  avoids bad (_patch_header fuel source_abs source_rel patch_io target_abs
                            target_rel).
Proof.
  unfold _patch_header. destruct (read _ 4) as [magic p].
  destruct (negb _); [apply bad_BadMagic|]. step_avoids.
Qed.

Lemma _patch_body_avoids (fuel : nat)
    (source_abs source_rel patch_io : BinaryIO) (patch_size : Z)
    (target_abs : BinaryIO) (target_rel : Z) :
  avoids bad (_patch_body fuel source_abs source_rel patch_io patch_size
                          target_abs target_rel).
Proof.
  unfold _patch_body.
  apply avoids_bind; [apply _patch_header_avoids|].
  intros [[[ss ts] md] m].
  apply avoids_bind; [apply _patch_loop_avoids|]. intros m1.
  apply avoids_bind; [apply _patch_complete_avoids|]. intros m2.
  exact I.
Qed.

End Avoids.

(** ** The "Invalid command" branch *)

Lemma _patch_trailer_dispatched (skip : bool) (ss ts : Z) (md : list Z)
    (m : Streams) :
  avoids invalid_command (_patch_trailer skip ss ts md m).
Proof.
  unfold _patch_trailer.
  repeat match goal with
         | |- avoids _ (let (_, _) := ?x in _) => destruct x
         | |- avoids _ (if ?c then _ else _) => destruct c
         | |- avoids _ (Raise _) => reflexivity
         | |- avoids _ (Ok _) => exact I
         end.
Qed.

Lemma _patch_dispatched (fuel : nat) (source_abs source_rel patch_io : BinaryIO)
    (patch_size : Z) (target_abs : BinaryIO) (target_rel : Z) (skip : bool) :
  avoids invalid_command
         (_patch fuel source_abs source_rel patch_io patch_size
                 target_abs target_rel skip).
Proof.
  rewrite _patch_body_trailer.
  apply avoids_bind; [now apply _patch_body_avoids|].
  intros [[[ss ts] md] m]. apply _patch_trailer_dispatched.
Qed.

(** C10: the instruction kind is the opcode word masked with 3, so it is
    one of 0, 1, 2, 3, and neither [_patch] nor [dis] ever ends in the
    "Invalid command" format error, whatever the files and the fuel. *)
Theorem invalid_command_unreachable :
  (forall data, In (Z.land data 3) [0; 1; 2; 3])
  /\ (forall fuel source_abs source_rel patch_io patch_size target_abs
             target_rel skip_checksum command,
        _patch fuel source_abs source_rel patch_io patch_size target_abs
               target_rel skip_checksum
        <> Raise (InvalidFormatError (InvalidCommand command)))
  /\ (forall fuel patch_io patch_size command,
        dis fuel patch_io patch_size
        <> Raise (InvalidFormatError (InvalidCommand command))).
Proof.
  split; [|split].
  - intros data. pose proof (command_range data) as H. simpl.
    assert (Z.land data 3 = 0 \/ Z.land data 3 = 1 \/ Z.land data 3 = 2
            \/ Z.land data 3 = 3) by lia.
    intuition auto.
  - intros fuel sa sr p ps ta tr skip command H.
    pose proof (_patch_dispatched fuel sa sr p ps ta tr skip) as D.
    rewrite H in D. discriminate D.
  - intros fuel p ps command H.
    assert (D : avoids invalid_command (dis fuel p ps))
      by now apply dis_avoids.
    rewrite H in D. discriminate D.
Qed.

(** ** The trailer *)

Lemma _patch_trailer_skip (ss ts : Z) (md : list Z) (m : Streams) :
  exists m',
    _patch_trailer true ss ts md m
    = Ok (let '(sc, tc, pc) := trailer_fields (buffer (patch (state m))) in
          mkPatchResult ss ts md sc tc pc, m')
    /\ source (state m') = source (state m)
    /\ target (state m') = target (state m)
    /\ forall e,
         _patch_trailer false ss ts md m = Raise e ->
         let '(sc, tc, pc) := trailer_fields (buffer (patch (state m))) in
         checksum (source (state m')) <> sc
         \/ checksum (target (state m')) <> tc
         \/ checksum (patch (state m')) <> pc.
Proof.
  unfold _patch_trailer, trailer_fields, read. cbn [negb andb].
  destruct (io_read 4 (buffer (patch (state m)))) as [b1 f1].
  cbn [with_patch state patch buffer source target checksum position].
  destruct (io_read 4 f1) as [b2 f2].
  cbn [with_patch state patch buffer source target checksum position].
  destruct (io_read 4 f2) as [b3 f3].
  eexists. split; [reflexivity|]. split; [reflexivity|].
  split; [reflexivity|].
  cbn [with_patch state patch buffer source target checksum position].
  intros e.
  destruct (Z.eqb_spec (checksum (source (state m)))
                       (int_from_bytes_little b1)); cbn [negb]; [|auto].
  destruct (Z.eqb_spec (checksum (target (state m)))
                       (int_from_bytes_little b2)); cbn [negb]; [|auto].
  destruct (Z.eqb_spec
              (Z.land (crc32 b2 (Z.land (crc32 b1 (checksum (patch (state m))))
                                        0xffffffff)) 0xffffffff)
              (int_from_bytes_little b3)); cbn [negb]; [discriminate|auto].
Qed.

(** A [ChecksumFailure] carries the message [checksum_message], whose
    first word is "Source" for each of the three fields. *)
Lemma _patch_trailer_message (ss ts : Z) (md : list Z) (m : Streams) e :
  _patch_trailer false ss ts md m = Raise e ->
  exists computed expected,
    e = ChecksumFailure (checksum_message computed expected)
    /\ computed <> expected.
Proof.
  unfold _patch_trailer. cbn [negb andb].
  repeat match goal with
         | |- context [let (_, _) := ?x in _] => destruct x
         end.
  repeat match goal with
         | |- context [if negb (?a =? ?b) then _ else _] =>
             destruct (Z.eqb_spec a b); cbn [negb]
         end;
    intros H; try discriminate H; inversion H; eauto.
Qed.

(** C9: with the skip flag set [_patch] never ends in a checksum error.
    Every run that gets as far as the trailer returns, whatever the
    running checksums are, and its [PatchResult] holds the sizes and the
    metadata of the header and the three checksums read from the trailer:
    the twelve bytes of the patch file that follow the cursor, four by
    four.  In particular a run that ends in a checksum error when
    verifying returns when skipping, with a result in which one of the
    three checksums differs from the running checksum of its stream. *)
Theorem skip_checksum_returns_result
    (fuel : nat) (source_abs source_rel patch_io : BinaryIO)
    (patch_size : Z) (target_abs : BinaryIO) (target_rel : Z) :
  (forall msg,
      _patch fuel source_abs source_rel patch_io patch_size target_abs
             target_rel true <> Raise (ChecksumFailure msg))
  /\ (forall msg,
        _patch fuel source_abs source_rel patch_io patch_size target_abs
               target_rel false = Raise (ChecksumFailure msg) ->
        exists r m',
          _patch fuel source_abs source_rel patch_io patch_size target_abs
                 target_rel true = Ok (r, m')
          /\ (checksum (source (state m')) <> source_checksum r
              \/ checksum (target (state m')) <> target_checksum r
              \/ checksum (patch (state m')) <> patch_checksum r))
  /\ (forall ss ts md m,
        _patch_body fuel source_abs source_rel patch_io patch_size
                    target_abs target_rel = Ok (ss, ts, md, m) ->
        exists m',
          _patch fuel source_abs source_rel patch_io patch_size target_abs
                 target_rel true
          = Ok (let '(sc, tc, pc) :=
                  trailer_fields (buffer (patch (state m))) in
                mkPatchResult ss ts md sc tc pc, m')
          /\ source (state m') = source (state m)
          /\ target (state m') = target (state m))
  /\ (forall r m',
        _patch fuel source_abs source_rel patch_io patch_size target_abs
               target_rel true = Ok (r, m') ->
        exists m,
          _patch_body fuel source_abs source_rel patch_io patch_size
                      target_abs target_rel
          = Ok (source_size r, target_size r, metadata r, m)
          /\ (source_checksum r, target_checksum r, patch_checksum r)
             = trailer_fields (buffer (patch (state m))))
  /\ (forall ss ts md m,
        exists m',
          _patch_trailer true ss ts md m
          = Ok (let '(sc, tc, pc) :=
                  trailer_fields (buffer (patch (state m))) in
                mkPatchResult ss ts md sc tc pc, m'))
  /\ (forall f,
        0 <= pos f ->
        trailer_fields f
        = (int_from_bytes_little (firstn 4 (remaining f)),
           int_from_bytes_little (firstn 4 (skipn 4 (remaining f))),
           int_from_bytes_little (firstn 4 (skipn 8 (remaining f))))).
Proof.
  assert (Hbody : avoids is_checksum_failure
                    (_patch_body fuel source_abs source_rel patch_io
                                 patch_size target_abs target_rel))
    by now apply _patch_body_avoids.
  split; [|split; [|split; [|split; [|split]]]].
  - intros msg H. rewrite _patch_body_trailer in H.
    destruct (_patch_body _ _ _ _ _ _ _) as [[[[ss ts] md] m]|e|];
      cbn [bind] in H; [| |discriminate H].
    + destruct (_patch_trailer_skip ss ts md m) as (m' & E & _).
      rewrite E in H. discriminate H.
    + inversion H; subst. discriminate Hbody.
  - intros msg H. rewrite _patch_body_trailer in *.
    destruct (_patch_body _ _ _ _ _ _ _) as [[[[ss ts] md] m]|e|];
      cbn [bind] in *; [| |discriminate H].
    + destruct (_patch_trailer_skip ss ts md m) as (m' & E & _ & _ & Hne).
      rewrite E. specialize (Hne _ H).
      destruct (trailer_fields _) as [[sc tc] pc].
      do 2 eexists. split; [reflexivity|exact Hne].
    + inversion H; subst. discriminate Hbody.
  - intros ss ts md m Hb. rewrite _patch_body_trailer, Hb. cbn [bind].
    destruct (_patch_trailer_skip ss ts md m) as (m' & E & Hs & Ht & _).
    exists m'. auto.
  - intros r m' H. rewrite _patch_body_trailer in H.
    destruct (_patch_body _ _ _ _ _ _ _) as [[[[ss ts] md] m]|e|];
      cbn [bind] in H; try discriminate H.
    destruct (_patch_trailer_skip ss ts md m) as (m1 & E & _).
    rewrite E in H. exists m.
    destruct (trailer_fields _) as [[sc tc] pc].
    inversion H; subst. split; reflexivity.
  - intros ss ts md m.
    destruct (_patch_trailer_skip ss ts md m) as (m' & E & _). eauto.
  - apply trailer_fields_bytes.
Qed.

(** At [wrong_target_patch]: the run that skips the verification returns
    the 5 that the trailer names as the target checksum, the running
    target checksum being 0. *)
Lemma skip_checksum_returns_result_witness :
  exists r m',
    Api.patch 1 [] wrong_target_patch None true = Ok (r, m')
    /\ target_checksum r = 5
    /\ checksum (target (state m')) = 0
    /\ (checksum (source (state m')) <> source_checksum r
        \/ checksum (target (state m')) <> target_checksum r
        \/ checksum (patch (state m')) <> patch_checksum r).
Proof.
  destruct (proj1 (proj2 (skip_checksum_returns_result 1 (mkIO [] 0)
                            (mkIO [] 0) (mkIO wrong_target_patch 0) 19
                            (mkIO [] 0) 0))
                  "Source checksum 0 != 5"%string)
    as (r & m' & Hrun & Hne).
  - vm_compute. reflexivity.
  - exists r, m'. split; [exact Hrun|].
    vm_compute in Hrun. inversion Hrun; subst.
    split; [reflexivity|]. split; [reflexivity|]. exact Hne.
Defined.

(** C4, at two inputs: a patch whose trailer is wrong about the source
    only and one whose trailer is wrong about the target only end in the
    same exception, whose message says "Source checksum" and gives the
    computed and the expected value. *)
Theorem checksum_failure_says_source :
  Api.patch 1 [] wrong_source_patch None false
  = Raise (ChecksumFailure "Source checksum 0 != 5")
  /\ Api.patch 1 [] wrong_target_patch None false
     = Raise (ChecksumFailure "Source checksum 0 != 5").
Proof. split; vm_compute; reflexivity. Qed.

(** ** Concrete scenarios *)

(** C6: applying [hello_patch] (source_size 0, target_size 5, no
    metadata, TargetRead(5) with the literal "hello", and the CRC-32 of
    the empty source, of "hello" and of the patch bytes) to the empty
    source writes "hello" and returns a [PatchResult] whose three
    checksums are the three values of the trailer, the last twelve bytes
    of the patch file, and are the running checksums of the three
    streams: the CRC-32 of the empty source, of "hello", and of the patch
    file without its last four bytes. *)
Theorem hello_patch_applies (fuel : nat) :
  hello_patch
  = patch_file 0 5 [] (opcode 1 5 ++ bytes_of "hello")
               (crc32 [] 0) (crc32 (bytes_of "hello") 0)
  /\ exists r m,
       Api.patch (S fuel) [] hello_patch None false = Ok (r, m)
       /\ target_file m = bytes_of "hello"
       /\ source_size r = 0 /\ target_size r = 5 /\ metadata r = []
       /\ source_checksum r = checksum (source (state m))
       /\ target_checksum r = checksum (target (state m))
       /\ patch_checksum r = checksum (patch (state m))
       /\ source_checksum r = crc32 [] 0
       /\ target_checksum r = crc32 (bytes_of "hello") 0
       /\ patch_checksum r = crc32 (firstn 21 hello_patch) 0
       /\ skipn 13 hello_patch
          = le32 (source_checksum r) ++ le32 (target_checksum r)
            ++ le32 (patch_checksum r)
       /\ source_checksum r
          = int_from_bytes_little (firstn 4 (skipn 13 hello_patch))
       /\ target_checksum r
          = int_from_bytes_little (firstn 4 (skipn 17 hello_patch))
       /\ patch_checksum r
          = int_from_bytes_little (firstn 4 (skipn 21 hello_patch))
       /\ (source_checksum r, target_checksum r, patch_checksum r)
          = (0, 0x3610a686, 0x29a44b9d).
Proof.
  split; [vm_compute; reflexivity|].
  do 2 eexists. split.
  - eapply approx_value.
    + apply (patch_mono 1 (S fuel)). lia.
    + vm_compute. reflexivity.
    + discriminate.
  - vm_compute. repeat split; reflexivity.
Qed.

(** C2, as the specification has it, fails: with SourceRead(3) and then
    SourceCopy(2, -3) on the source "ABCDE", no amount of fuel makes
    [patch] return, let alone with the target "ABCAB". *)
Lemma source_copy_minus_3_does_not_apply :
  ~ (exists fuel r m,
        Api.patch fuel (bytes_of "ABCDE") abcde_patch None false = Ok (r, m)).
Proof.
  intros (fuel & r & m & H).
  assert (H10 : Api.patch 2 (bytes_of "ABCDE") abcde_patch None false
                = Raise OSError) by (vm_compute; reflexivity).
  apply (patch_more_fuel _ (Nat.max fuel 2)) in H; [|discriminate|lia].
  apply (patch_more_fuel _ (Nat.max fuel 2)) in H10; [|discriminate|lia].
  rewrite H in H10. discriminate H10.
Qed.

(** C2, as the code has it.  The source back-reference cursor is a handle
    of its own that starts at 0, whatever the sequential cursor does.
    After SourceRead(3) the target is "ABC", the sequential source cursor
    is at 3 and the back-reference cursor still at 0, so SourceCopy(2, -3)
    seeks before the start of the file and the run ends in [OSError];
    with SourceCopy(2, +0) the cursor stays at 0, "AB" is copied and the
    target is "ABCAB". *)
Theorem source_copy_scenario (fuel : nat) :
  (exists ss ts md m0 m1,
      _patch_header (S (S fuel)) (mkIO (bytes_of "ABCDE") 0)
        (mkIO (bytes_of "ABCDE") 0) (mkIO abcde_patch 0) (mkIO [] 0) 0
      = Ok (ss, ts, md, m0)
      /\ _patch_instruction (S (S fuel)) 0 m0 = Ok m1
      /\ target_file m1 = bytes_of "ABC"
      /\ position (source (state m1)) = 3
      /\ pos (source_rel m1) = 0
      /\ _patch_instruction (S (S fuel)) 0 m1 = Raise OSError)
  /\ Api.patch (S (S fuel)) (bytes_of "ABCDE") abcde_patch None false
     = Raise OSError
  /\ (exists r m,
        Api.patch (S (S fuel)) (bytes_of "ABCDE") abcde_patch_0 None false
        = Ok (r, m)
        /\ target_file m = bytes_of "ABCAB"
        /\ pos (source_rel m) = 2
        /\ position (source (state m)) = 5).
Proof.
  split; [|split].
  - do 5 eexists. split; [|split; [|split; [|split; [|split]]]].
    + eapply approx_value;
        [apply (_patch_header_mono 2 (S (S fuel))); lia
        |vm_compute; reflexivity|discriminate].
    + eapply approx_value;
        [apply (_patch_instruction_mono 2 (S (S fuel))); lia
        |vm_compute; reflexivity|discriminate].
    + vm_compute. reflexivity.
    + vm_compute. reflexivity.
    + vm_compute. reflexivity.
    + eapply approx_value;
        [apply (_patch_instruction_mono 2 (S (S fuel))); lia
        |vm_compute; reflexivity|discriminate].
  - eapply approx_value;
      [apply (patch_mono 2 (S (S fuel))); lia
      |vm_compute; reflexivity|discriminate].
  - do 2 eexists. split.
    + eapply approx_value;
        [apply (patch_mono 2 (S (S fuel))); lia
        |vm_compute; reflexivity|discriminate].
    + vm_compute. repeat split; reflexivity.
Qed.

(** ** The source drain on a short source *)

Lemma read_at_end (s : _ReadState) (n : Z) :
  remaining (buffer s) = [] ->
  exists s',
    read s n = ([], s')
    /\ remaining (buffer s') = []
    /\ position s' = position s.
Proof.
  intros H. unfold read. rewrite (remaining_nil_read _ _ H).
  eexists. split; [reflexivity|].
  cbn [buffer position]. split; [|unfold len; simpl; lia].
  unfold remaining in *. cbn [pos content].
  now rewrite Z.add_0_r.
Qed.

Lemma drain_chunks_at_end (gas : nat) :
  forall remaining_bytes s,
    remaining (buffer s) = [] ->
    match drain_chunks gas remaining_bytes s with
    | Ok s' => remaining (buffer s') = [] /\ position s' = position s
    | Raise _ => False
    | OutOfFuel => True
    end.
Proof.
  induction gas as [|gas IH]; intros n s H; cbn [drain_chunks];
    destruct (0 <? n); auto.
  destruct (read_at_end s (Z.min n _BUFFER_SIZE) H) as (s' & -> & Hr & Hp).
  specialize (IH (n - _BUFFER_SIZE) s' Hr).
  destruct (drain_chunks gas _ s'); auto.
  destruct IH. split; [assumption|congruence].
Qed.

(** Once the source is exhausted below [source_size], the drain loop
    never ends: each turn reads nothing and leaves the position where it
    is. *)
Lemma drain_source_at_end (gas : nat) :
  forall fuel source_size s,
    remaining (buffer s) = [] ->
    position s < source_size ->
    drain_source fuel gas source_size s = OutOfFuel.
Proof.
  induction gas as [|gas IH]; intros fuel source_size s H Hlt;
    cbn [drain_source];
    destruct (Z.ltb_spec (position s) source_size); try lia;
    [reflexivity|].
  pose proof (drain_chunks_at_end fuel (source_size - position s) s H) as Hc.
  destruct (drain_chunks fuel _ s) as [s'| |]; cbn [bind];
    [|contradiction|reflexivity].
  destruct Hc as [Hr Hp]. apply IH; [assumption|lia].
Qed.

(** C5, at the failing input: the patch declares a source of one byte
    and the source file is empty.  Whatever the fuel, and with or without
    verification, the run neither returns nor raises. *)
Theorem short_source_never_ends (fuel : nat) (skip_checksum : bool) :
  Api.patch fuel [] short_source_patch None skip_checksum = OutOfFuel.
Proof.
  destruct fuel as [|fuel]; [reflexivity|].
  unfold Api.patch, _patch.
  assert (Hh : exists m,
             _patch_header (S fuel) (mkIO [] 0) (mkIO [] 0)
                           (mkIO short_source_patch 0) (mkIO [] 0) 0
             = Ok (1, 0, [], m)
             /\ position (patch (state m)) = 7
             /\ source (state m) = new_ReadState (mkIO [] 0)).
  { eexists. split; [|split].
    - eapply approx_value;
        [apply (_patch_header_mono 1 (S fuel)); lia
        |vm_compute; reflexivity|discriminate].
    - reflexivity.
    - reflexivity. }
  destruct Hh as (m & -> & Hp & Hs). cbn [bind].
  assert (Hl : _patch_loop (S fuel) (S fuel)
                 (len (content (mkIO short_source_patch 0)) - 12)
                 (io_tell (target_rel_io m)) m = Ok m).
  { cbn [_patch_loop]. rewrite Hp. reflexivity. }
  rewrite Hl. cbn [bind]. unfold _patch_complete.
  rewrite Hs, drain_source_at_end; [reflexivity|reflexivity|].
  cbn [position new_ReadState]. lia.
Qed.

(** ** TargetCopy *)

Lemma lz_copy_length (n : nat) :
  forall off out, length (lz_copy n off out) = (length out + n)%nat.
Proof.
  induction n as [|n IH]; intros off out; cbn [lz_copy]; [lia|].
  rewrite IH, length_app. simpl. lia.
Qed.

Lemma lz_copy_add (a : nat) :
  forall b off out,
    lz_copy (a + b) off out = lz_copy b (off + a) (lz_copy a off out).
Proof.
  induction a as [|a IH]; intros b off out; cbn [lz_copy Nat.add].
  - now rewrite Nat.add_0_r.
  - rewrite IH. f_equal. lia.
Qed.

Lemma lz_copy_snoc (n : nat) :
  forall off out,
    lz_copy (S n) off out
    = lz_copy n off out ++ [nth (off + n) (lz_copy n off out) 0].
Proof.
  induction n as [|n IH]; intros off out.
  - cbn [lz_copy]. now rewrite Nat.add_0_r.
  - change (lz_copy (S (S n)) off out)
      with (lz_copy (S n) (S off) (out ++ [nth off out 0])).
    rewrite IH. cbn [lz_copy].
    now replace (S off + n)%nat with (off + S n)%nat by lia.
Qed.

Lemma skipn_nth_cons (k : nat) (l : list Z) :
  (k < length l)%nat -> skipn k l = nth k l 0 :: skipn (S k) l.
Proof.
  revert l. induction k as [|k IH]; intros [|a l] H; simpl in *; try lia.
  - reflexivity.
  - rewrite IH by lia. reflexivity.
Qed.

(** A copy that stays within what is already there is a bulk copy. *)
Lemma lz_copy_chunk (k : nat) :
  forall off out,
    (off + k <= length out)%nat ->
    lz_copy k off out = out ++ firstn k (skipn off out).
Proof.
  induction k as [|k IH]; intros off out H; cbn [lz_copy].
  - now rewrite firstn_O, app_nil_r.
  - rewrite IH by (rewrite length_app; simpl; lia).
    rewrite (skipn_nth_cons off out) by lia. cbn [firstn].
    rewrite <- app_assoc. cbn [app]. do 2 f_equal.
    rewrite skipn_app.
    replace (S off - length out)%nat with 0%nat by lia.
    rewrite skipn_O, firstn_app.
    replace (k - length (skipn (S off) out))%nat with 0%nat
      by (rewrite length_skipn; lia).
    now rewrite firstn_O, app_nil_r.
Qed.

(** The byte-by-byte copy produces the repeating run. *)
Lemma lz_copy_repeats (n : nat) :
  forall off out,
    (off < length out)%nat ->
    lz_copy n off out = out ++ repeating_run out off n.
Proof.
  induction n as [|n IH]; intros off out H.
  - cbn. now rewrite app_nil_r.
  - rewrite lz_copy_snoc, IH by assumption.
    unfold repeating_run. rewrite seq_S, map_app, app_assoc. cbn [map].
    do 2 f_equal. cbn [Nat.add].
    set (d := (length out - off)%nat).
    assert (Hd : (0 < d)%nat) by (unfold d; lia).
    destruct (Nat.lt_ge_cases (off + n) (length out)) as [Hlt|Hge].
    + rewrite app_nth1 by assumption.
      rewrite Nat.mod_small by (unfold d; lia). reflexivity.
    + rewrite app_nth2 by assumption.
      assert (Hn : (off + n - length out < n)%nat) by lia.
      set (f := fun i => nth (off + i mod d) out 0).
      rewrite (nth_indep _ 0 (f 0%nat))
        by (rewrite length_map, length_seq; assumption).
      rewrite (map_nth f), seq_nth by assumption.
      unfold f. cbn [Nat.add].
      do 2 f_equal.
      replace n with ((off + n - length out) + 1 * d)%nat at 2
        by (unfold d; lia).
      now rewrite Nat.Div0.mod_add.
Qed.

Lemma len_app (a b : list Z) : len (a ++ b) = len a + len b.
Proof. unfold len. rewrite length_app. lia. Qed.

Lemma io_write_at_end (data : list Z) (f : BinaryIO) :
  pos f = len (content f) ->
  io_write data f = mkIO (content f ++ data) (len (content f ++ data)).
Proof.
  intros H. unfold io_write. rewrite H. unfold len.
  rewrite !Nat2Z.id, firstn_all, Nat.sub_diag.
  rewrite skipn_all2 by lia.
  cbn [repeat app]. now rewrite app_nil_r, length_app, Nat2Z.inj_add.
Qed.

Lemma write_target_at_end (data : list Z) (m : Streams) :
  target_at_end m ->
  target_file (write_target data m) = target_file m ++ data
  /\ target_at_end (write_target data m)
  /\ target_rel (write_target data m) = target_rel m.
Proof.
  intros [Hpos Hposition].
  unfold write_target, with_target, write, target_at_end, target_file in *.
  cbn [state target buffer position target_rel].
  rewrite (io_write_at_end _ _ Hpos). cbn [content pos].
  repeat split. rewrite Hposition. now rewrite len_app.
Qed.

Lemma read_target_rel (n : Z) (m : Streams) :
  0 <= n ->
  read_from the_target_rel n m
  = (firstn (Z.to_nat n) (skipn (Z.to_nat (target_rel m)) (target_file m)),
     with_target_rel m
       (target_rel m
        + len (firstn (Z.to_nat n)
                 (skipn (Z.to_nat (target_rel m)) (target_file m))))).
Proof.
  intros Hn. unfold read_from, io_read, remaining, target_rel_io.
  cbn [pos content].
  destruct (Z.ltb_spec n 0); [lia|]. reflexivity.
Qed.

(** The byte-by-byte branch is the copy of the format. *)
Lemma target_copy_bytewise_spec (n : nat) :
  forall m,
    target_at_end m ->
    0 <= target_rel m < len (target_file m) ->
    let m' := target_copy_bytewise n m in
    target_file m'
    = lz_copy n (Z.to_nat (target_rel m)) (target_file m)
    /\ target_at_end m'
    /\ target_rel m' = target_rel m + Z.of_nat n.
Proof.
  induction n as [|n IH]; intros m Hend Hrel; cbn zeta.
  - cbn [target_copy_bytewise lz_copy]. repeat split; try apply Hend. lia.
  - cbn [target_copy_bytewise lz_copy].
    rewrite read_target_rel by lia.
    unfold len in Hrel.
    rewrite (skipn_nth_cons (Z.to_nat (target_rel m))) by lia.
    change (Z.to_nat 1) with 1%nat. cbn [firstn]. change (len [_]) with 1.
    set (x := nth _ _ 0).
    set (m1 := with_target_rel m (target_rel m + 1)).
    assert (Hend1 : target_at_end m1) by exact Hend.
    destruct (write_target_at_end [x] m1 Hend1) as (Hf & He & Hr).
    specialize (IH (write_target [x] m1) He).
    rewrite Hf, Hr in IH. cbn zeta in IH.
    change (target_file m1) with (target_file m) in IH.
    change (target_rel m1) with (target_rel m + 1) in IH.
    destruct IH as (IH1 & IH2 & IH3).
    { rewrite len_app. unfold len. simpl length. lia. }
    repeat split; try apply IH2.
    + rewrite IH1. f_equal. lia.
    + rewrite IH3. lia.
Qed.

(** The buffered branch, its buffer no longer than the distance between
    the two cursors, is the copy of the format too. *)
Lemma _buffered_copy_target_rel (fuel : nat) :
  forall length buffer_size m,
    target_at_end m ->
    0 <= target_rel m ->
    0 < buffer_size <= len (target_file m) - target_rel m ->
    (Z.to_nat length <= fuel)%nat ->
    exists m',
      _buffered_copy fuel the_target_rel length buffer_size m = Ok m'
      /\ target_file m'
         = lz_copy (Z.to_nat length) (Z.to_nat (target_rel m))
                   (target_file m)
      /\ target_at_end m'
      /\ target_rel m' = target_rel m + Z.max 0 length.
Proof.
  induction fuel as [|fuel IH]; intros length bs m Hend Hrel Hbs Hfuel.
  - cbn [_buffered_copy]. destruct (Z.ltb_spec 0 length); [lia|].
    exists m. replace (Z.to_nat length) with 0%nat by lia.
    cbn [lz_copy]. repeat split; try apply Hend. lia.
  - cbn [_buffered_copy]. destruct (Z.ltb_spec 0 length) as [Hlen|Hlen].
    2:{ exists m. replace (Z.to_nat length) with 0%nat by lia.
        cbn [lz_copy]. repeat split; try apply Hend. lia. }
    rewrite read_target_rel by lia.
    set (k := Z.to_nat (Z.min length bs)).
    set (r := Z.to_nat (target_rel m)).
    unfold len in Hbs.
    assert (Hk : (r + k <= Datatypes.length (target_file m))%nat)
      by (unfold r, k; lia).
    assert (Hlen_data :
              len (firstn k (skipn r (target_file m))) = Z.min length bs).
    { unfold len. rewrite length_firstn, length_skipn. unfold r, k in *. lia. }
    rewrite Hlen_data.
    set (m1 := with_target_rel m (target_rel m + Z.min length bs)).
    assert (Hend1 : target_at_end m1) by exact Hend.
    destruct (write_target_at_end (firstn k (skipn r (target_file m))) m1
                Hend1) as (Hf & He & Hr).
    change (target_file m1) with (target_file m) in Hf.
    change (target_rel m1) with (target_rel m + Z.min length bs) in Hr.
    rewrite <- lz_copy_chunk in Hf by assumption.
    destruct (IH (length - bs) bs _ He) as (m' & Hrun & Hfile & Hend' & Hrel').
    { rewrite Hr. lia. }
    { rewrite Hr, Hf. unfold len. rewrite lz_copy_length.
      unfold k. lia. }
    { lia. }
    exists m'. split; [exact Hrun|]. rewrite Hfile, Hrel', Hf, Hr.
    repeat split; try apply Hend'.
    + destruct (Z.le_gt_cases length bs) as [Hle|Hgt].
      * replace (Z.to_nat (length - bs)) with 0%nat by lia.
        cbn [lz_copy]. unfold k. now rewrite Z.min_l by lia.
      * replace (Z.to_nat length)
          with (k + Z.to_nat (length - bs))%nat by (unfold k; lia).
        rewrite lz_copy_add. f_equal. unfold r, k. lia.
    + lia.
Qed.

(** C1: a TargetCopy whose back-reference cursor, after its seek, is at a
    byte that the target already holds produces exactly the repeating run:
    the bytes from the cursor on, repeated with the distance between the
    write position and the cursor as the period; in particular when the
    copy reads bytes it has itself produced ([len (target_file m) < off +
    length]).  It does so on both branches, the buffered one (write
    position minus offset greater than 8) and the byte-by-byte one. *)
Theorem target_copy_repeats_run
    (fuel : nat) (m : Streams) (opword dword : Z) (p p' : _ReadState) :
  _decode_number fuel (patch (state m)) = Ok (opword, p) ->
  Z.land opword 3 = 3 ->
  _decode_number fuel p = Ok (dword, p') ->
  let length := Z.shiftr opword 2 + 1 in
  let off := target_rel m + signed_offset dword in
  target_at_end m ->
  0 <= off < len (target_file m) ->
  1 <= length <= Z.of_nat fuel ->
  exists m',
    _patch_instruction fuel 0 m = Ok m'
    /\ target_file m'
       = target_file m
         ++ repeating_run (target_file m) (Z.to_nat off) (Z.to_nat length)
    /\ target_file m'
       = lz_copy (Z.to_nat length) (Z.to_nat off) (target_file m)
    /\ target_at_end m'
    /\ target_rel m' = off + length.
Proof.
  intros Hop Hcmd Hd length off Hend Hoff Hlen.
  assert (Hfuel : (Z.to_nat length <= fuel)%nat) by lia.
  unfold _patch_instruction. rewrite Hop. cbn [bind].
  rewrite Hcmd.
  change (3 =? 0) with false. change (3 =? 1) with false.
  change (3 =? 2) with false. change (3 =? 3) with true. cbv iota.
  cbn [with_patch state patch]. rewrite Hd. cbn [bind].
  fold (with_patch m p). fold (with_patch (with_patch m p) p').
  set (m2 := with_patch (with_patch m p) p').
  assert (Hend2 : target_at_end m2) by exact Hend.
  rewrite (io_seek_cur_within (signed_offset dword) (target_rel_io m2))
    by (unfold target_rel_io; cbn [pos content];
        change (target_rel m2 + signed_offset dword) with off;
        change (target_file m2) with (target_file m); lia).
  unfold target_rel_io, io_tell. cbn [bind pos content].
  change (target_rel m2 + signed_offset dword) with off.
  set (m0 := with_target_rel m2 off).
  assert (Hend0 : target_at_end m0) by exact Hend.
  assert (Hfile0 : target_file m0 = target_file m) by reflexivity.
  assert (Hrel0 : target_rel m0 = off) by reflexivity.
  rewrite Hrel0, Z.sub_0_r. fold length.
  assert (Hposition : position (target (state m0)) = len (target_file m))
    by apply Hend.
  rewrite Hposition.
  assert (Hres : exists m',
             (if len (target_file m) - 8 >? off
              then _buffered_copy fuel the_target_rel length
                     (Z.min (len (target_file m) - off) _BUFFER_SIZE) m0
              else Ok (target_copy_bytewise (Z.to_nat length) m0)) = Ok m'
             /\ target_file m'
                = lz_copy (Z.to_nat length) (Z.to_nat off) (target_file m)
             /\ target_at_end m'
             /\ target_rel m' = off + length).
  { destruct (Z.gtb_spec (len (target_file m) - 8) off) as [Hbulk|Hbyte].
    - destruct (_buffered_copy_target_rel fuel length
                  (Z.min (len (target_file m) - off) _BUFFER_SIZE) m0 Hend0)
        as (m' & Hrun & Hfile & Hend' & Hrel').
      + rewrite Hrel0. lia.
      + rewrite Hrel0, Hfile0. unfold _BUFFER_SIZE. lia.
      + assumption.
      + exists m'. rewrite Hrel0, Hfile0 in *. repeat split; try assumption.
        * apply Hend'.
        * apply Hend'.
        * lia.
    - pose proof (target_copy_bytewise_spec (Z.to_nat length) m0 Hend0) as Hb.
      rewrite Hrel0, Hfile0 in Hb. specialize (Hb Hoff). cbn zeta in Hb.
      destruct Hb as (Hfile & Hend' & Hrel').
      eexists. split; [reflexivity|]. repeat split; try assumption.
      + apply Hend'.
      + apply Hend'.
      + lia. }
  destruct Hres as (m' & Hrun & Hfile & Hend' & Hrel').
  exists m'. split; [exact Hrun|]. split; [|split; [|split]]; try assumption.
  rewrite Hfile. apply lz_copy_repeats. unfold len in Hoff. lia.
Qed.

Lemma target_copy_repeats_run_witness :
  exists m',
    _patch_instruction 25 0 buffered_run_example = Ok m'
    /\ target_file m' = bytes_of "abcdefghijabcdefghijabcdefghijabcde".
Proof.
  destruct (target_copy_repeats_run 25 buffered_run_example 99 0
              (mkReadState (mkIO [227; 128] 1) 1 3942734927)
              (mkReadState (mkIO [227; 128] 2) 2 3643945456))
    as (m' & Hrun & Hfile & _).
  - vm_compute. reflexivity.
  - reflexivity.
  - vm_compute. reflexivity.
  - split; reflexivity.
  - vm_compute. split; [discriminate|reflexivity].
  - vm_compute. split; discriminate.
  - exists m'. split; [exact Hrun|]. rewrite Hfile. reflexivity.
Defined.

(** The byte-by-byte branch on the same kind of input. *)
Example target_copy_bytewise_example :
  exists m',
    _patch_instruction 5 0 bytewise_run_example = Ok m'
    /\ target_file m' = bytes_of "abbbbbb".
Proof. eexists. split; vm_compute; reflexivity. Qed.

(** A whole run with a TargetCopy that reads what it writes. *)
Example run_patch_applies :
  exists r m,
    Api.patch 2 [] run_patch None false = Ok (r, m)
    /\ target_file m = bytes_of "aaaaa".
Proof. do 2 eexists. split; vm_compute; reflexivity. Qed.

(** ** CRC-32 over several reads *)

Lemma u32_mask (x : Z) : u32 x -> Z.land x 0xffffffff = x.
Proof.
  intros H. change 0xffffffff with (Z.ones 32).
  rewrite Z.land_ones by lia. apply Z.mod_small. exact H.
Qed.

Lemma u32_land (x : Z) : u32 (Z.land x 0xffffffff).
Proof.
  change 0xffffffff with (Z.ones 32). rewrite Z.land_ones by lia.
  apply Z.mod_pos_bound. lia.
Qed.

Lemma u32_lxor (a b : Z) : u32 a -> u32 b -> u32 (Z.lxor a b).
Proof.
  intros [Ha0 Ha] [Hb0 Hb]. unfold u32.
  assert (H0 : 0 <= Z.lxor a b) by (apply Z.lxor_nonneg; tauto).
  split; [assumption|].
  destruct (Z.eq_dec (Z.lxor a b) 0) as [->|Hne]; [lia|].
  apply Z.log2_lt_pow2; [lia|].
  pose proof (Z.log2_lxor a b Ha0 Hb0) as Hl.
  assert (La : Z.log2 a < 32).
  { destruct (Z.eq_dec a 0) as [->|]; [simpl; lia|].
    apply Z.log2_lt_pow2; lia. }
  assert (Lb : Z.log2 b < 32).
  { destruct (Z.eq_dec b 0) as [->|]; [simpl; lia|].
    apply Z.log2_lt_pow2; lia. }
  lia.
Qed.

Lemma u32_shiftr (c : Z) : u32 c -> u32 (Z.shiftr c 1).
Proof.
  intros [H0 H]. unfold u32. rewrite Z.shiftr_div_pow2 by lia.
  change (2 ^ 1) with 2. split.
  - apply Z.div_pos; lia.
  - apply Z.div_lt_upper_bound; lia.
Qed.

Lemma u32_crc32_bit (c : Z) : u32 c -> u32 (crc32_bit c).
Proof.
  intros H. unfold crc32_bit. destruct (Z.odd c).
  - apply u32_lxor; [now apply u32_shiftr|]. unfold u32, crc32_poly. lia.
  - now apply u32_shiftr.
Qed.

Lemma u32_crc32_byte (c b : Z) : u32 c -> is_byte b -> u32 (crc32_byte c b).
Proof.
  intros Hc Hb. unfold crc32_byte.
  assert (H : u32 (Z.lxor c b))
    by (apply u32_lxor; [assumption|unfold u32, is_byte in *; lia]).
  revert H. generalize (Z.lxor c b) as x. generalize 8%nat as k.
  induction k as [|k IH]; intros x Hx; cbn [Nat.iter]; [assumption|].
  apply u32_crc32_bit. now apply IH.
Qed.

Lemma u32_fold_crc32_byte (data : list Z) :
  Forall is_byte data ->
  forall c, u32 c -> u32 (fold_left crc32_byte data c).
Proof.
  induction 1 as [|b data Hb _ IH]; intros c Hc; cbn [fold_left];
    [assumption|].
  apply IH. now apply u32_crc32_byte.
Qed.

Lemma u32_crc32 (data : list Z) (value : Z) :
  Forall is_byte data -> u32 (crc32 data value).
Proof.
  intros H. unfold crc32.
  assert (M : u32 0xffffffff) by (unfold u32; lia).
  apply u32_lxor; [|exact M].
  apply u32_fold_crc32_byte; [assumption|].
  apply u32_lxor; [apply u32_land|exact M].
Qed.

(** [zlib.crc32] is incremental: the checksum of a second piece, started
    from the checksum of the first, is the checksum of both. *)
Lemma crc32_app (a b : list Z) (value : Z) :
  Forall is_byte a ->
  crc32 b (crc32 a value) = crc32 (a ++ b) value.
Proof.
  intros Ha. unfold crc32 at 1.
  rewrite (u32_mask _ (u32_crc32 a value Ha)).
  unfold crc32. rewrite fold_left_app. do 2 f_equal.
  now rewrite Z.lxor_assoc, Z.lxor_nilpotent, Z.lxor_0_r.
Qed.

Lemma firstn_firstn_skipn (k : nat) :
  forall (j : nat) (l : list Z),
    firstn k l ++ firstn j (skipn k l) = firstn (k + j) l.
Proof.
  induction k as [|k IH]; intros j [|a l]; cbn [firstn skipn app Nat.add];
    try reflexivity.
  - now rewrite !firstn_nil.
  - now rewrite IH.
Qed.

Lemma Forall_firstn {A : Type} (P : A -> Prop) (k : nat) (l : list A) :
  Forall P l -> Forall P (firstn k l).
Proof.
  intros H. revert k. induction H as [|a l Ha _ IH]; intros [|k];
    cbn [firstn]; constructor; auto.
Qed.

Lemma Forall_skipn {A : Type} (P : A -> Prop) (k : nat) (l : list A) :
  Forall P l -> Forall P (skipn k l).
Proof.
  intros H. revert k. induction H as [|a l Ha Hl IH]; intros [|k];
    cbn [skipn]; auto.
Qed.

(** What [io_read] returns is the next bytes of the file. *)
Lemma io_read_prefix (n : Z) (f : BinaryIO) :
  exists j,
    fst (io_read n f) = firstn j (remaining f)
    /\ (j <= length (remaining f))%nat
    /\ snd (io_read n f) = mkIO (content f) (pos f + Z.of_nat j).
Proof.
  unfold io_read. cbn [fst snd].
  destruct (n <? 0).
  - exists (length (remaining f)). rewrite firstn_all. repeat split; lia.
  - destruct (Nat.le_gt_cases (Z.to_nat n) (length (remaining f))) as [H|H].
    + exists (Z.to_nat n). repeat split; [assumption|].
      unfold len. rewrite length_firstn. do 2 f_equal. lia.
    + exists (length (remaining f)).
      rewrite firstn_all, firstn_all2 by lia. repeat split; lia.
Qed.

Section PatchCursor.

Variable file : list Z.
Hypothesis file_bytes : Forall is_byte file.

Lemma reads_prefix_new : reads_prefix file (new_ReadState (mkIO file 0)).
Proof.
  unfold reads_prefix, new_ReadState, len. cbn.
  repeat split; lia.
Qed.

Lemma reads_prefix_read (p : _ReadState) (n : Z) :
  reads_prefix file p -> reads_prefix file (snd (read p n)).
Proof.
  intros (Hc & Hp & Hr & Hk). unfold read.
  destruct (io_read_prefix n (buffer p)) as (j & Hd & Hj & Hb).
  destruct (io_read n (buffer p)) as [data b]. cbn [fst snd] in *.
  subst data b. unfold reads_prefix. cbn [buffer position checksum content pos].
  unfold remaining in *. rewrite Hc, Hp in *.
  rewrite length_skipn in Hj. unfold len in *.
  assert (Hlen : length (firstn j (skipn (Z.to_nat (position p)) file)) = j)
    by (rewrite length_firstn, length_skipn; lia).
  rewrite Hlen. repeat split; try lia.
  rewrite Hk, crc32_app by (apply Forall_firstn; assumption).
  rewrite u32_mask.
  - f_equal. rewrite firstn_firstn_skipn. f_equal. lia.
  - apply u32_crc32. apply Forall_app. split; apply Forall_firstn;
      [assumption|]. now apply Forall_skipn.
Qed.

Lemma ensures_bind {A B : Type} (Q : A -> Prop) (R : B -> Prop)
    (r : result A) (k : A -> result B) :
  ensures Q r -> (forall a, Q a -> ensures R (k a)) ->
  ensures R (bind r k).
Proof. destruct r; simpl; auto. Qed.

Lemma _decode_number_loop_prefix (fuel : nat) :
  forall input data shift,
    reads_prefix file input ->
    ensures (fun r => reads_prefix file (snd r))
            (_decode_number_loop fuel input data shift).
Proof.
  induction fuel as [|fuel IH]; intros input data shift H; [exact I|].
  cbn [_decode_number_loop].
  pose proof (reads_prefix_read input 1 H) as H1.
  destruct (read input 1) as [[|x bytes] input']; [exact I|].
  destruct (Z.land x 128 =? 0); [now apply IH|exact H1].
Qed.

Lemma _decode_number_prefix (fuel : nat) (input : _ReadState) :
  reads_prefix file input ->
  ensures (fun r => reads_prefix file (snd r)) (_decode_number fuel input).
Proof. apply _decode_number_loop_prefix. Qed.

Lemma read_from_patch_ok (r : Readable) (n : Z) (m : Streams) :
  patch_ok file m -> patch_ok file (snd (read_from r n m)).
Proof.
  intros H. destruct r; cbn [read_from].
  - destruct (read (source (state m)) n). exact H.
  - pose proof (reads_prefix_read _ n H) as H1.
    destruct (read (patch (state m)) n). exact H1.
  - destruct (io_read n (source_rel m)). exact H.
  - destruct (io_read n (target_rel_io m)). exact H.
Qed.

Lemma _buffered_copy_patch_ok (fuel : nat) :
  forall source length buffer_size m,
    patch_ok file m ->
    ensures (patch_ok file) (_buffered_copy fuel source length buffer_size m).
Proof.
  induction fuel as [|fuel IH]; intros source length bs m H;
    cbn [_buffered_copy]; destruct (0 <? length); try exact I;
    try exact H.
  pose proof (read_from_patch_ok source (Z.min length bs) m H) as H1.
  destruct (read_from source (Z.min length bs) m) as [b m'].
  apply IH. exact H1.
Qed.

Lemma target_copy_bytewise_patch_ok (n : nat) :
  forall m, patch_ok file m -> patch_ok file (target_copy_bytewise n m).
Proof.
  induction n as [|n IH]; intros m H; cbn [target_copy_bytewise];
    [exact H|].
  pose proof (read_from_patch_ok the_target_rel 1 m H) as H1.
  destruct (read_from the_target_rel 1 m) as [b m'].
  apply IH. exact H1.
Qed.

Lemma _patch_instruction_patch_ok (fuel : nat) (base : Z) (m : Streams) :
  patch_ok file m -> ensures (patch_ok file) (_patch_instruction fuel base m).
Proof.
  intros H. unfold _patch_instruction.
  eapply ensures_bind; [apply (_decode_number_prefix fuel _ H)|].
  intros [data p] Hp. cbn [snd] in Hp.
  assert (H1 : patch_ok file (with_patch m p)) by exact Hp.
  destruct (Z.land data 3 =? 0);
    [now apply _buffered_copy_patch_ok|].
  destruct (Z.land data 3 =? 1);
    [now apply _buffered_copy_patch_ok|].
  destruct (Z.land data 3 =? 2).
  { eapply ensures_bind; [apply (_decode_number_prefix fuel _ H1)|].
    intros [d p'] Hp'. cbn [snd] in Hp'.
    destruct (io_seek_cur _ _) as [g| |]; cbn [bind]; try exact I.
    apply _buffered_copy_patch_ok. exact Hp'. }
  destruct (Z.land data 3 =? 3); [|exact I].
  eapply ensures_bind; [apply (_decode_number_prefix fuel _ H1)|].
  intros [d p'] Hp'. cbn [snd] in Hp'.
  destruct (io_seek_cur _ _) as [g| |]; cbn [bind]; try exact I.
  destruct (_ >? _).
  - apply _buffered_copy_patch_ok. exact Hp'.
  - apply target_copy_bytewise_patch_ok. exact Hp'.
Qed.

Lemma _patch_loop_patch_ok (gas : nat) :
  forall fuel patch_end base m,
    patch_ok file m ->
    ensures (patch_ok file) (_patch_loop fuel gas patch_end base m).
Proof.
  induction gas as [|gas IH]; intros fuel patch_end base m H;
    cbn [_patch_loop]; destruct (_ <? patch_end); try exact I;
    try exact H.
  eapply ensures_bind; [apply (_patch_instruction_patch_ok _ _ _ H)|].
  intros m' H'. now apply IH.
Qed.

Lemma _patch_complete_patch_ok (fuel : nat) (ss ts : Z) (m : Streams) :
  patch_ok file m -> ensures (patch_ok file) (_patch_complete fuel ss ts m).
Proof.
  intros H. unfold _patch_complete.
  destruct (drain_source _ _ _ _); cbn [bind]; try exact I.
  destruct (pad_target _ _ _ _); cbn [bind]; try exact I.
  exact H.
Qed.

Lemma _patch_header_patch_ok (fuel : nat)
    (source_abs source_rel target_abs : BinaryIO) (target_rel : Z) :
  ensures (fun r => patch_ok file (snd r))
          (_patch_header fuel source_abs source_rel (mkIO file 0)
                         target_abs target_rel).
Proof.
  unfold _patch_header. cbn [state patch].
  pose proof (reads_prefix_read _ 4 reads_prefix_new) as H0.
  destruct (read (new_ReadState (mkIO file 0)) 4) as [magic p0].
  cbn [snd] in H0. destruct (negb _); [exact I|].
  cbn [with_patch state patch].
  eapply ensures_bind; [apply (_decode_number_prefix fuel _ H0)|].
  intros [ss p1] H1. cbn [snd] in H1. cbn [with_patch state patch].
  eapply ensures_bind; [apply (_decode_number_prefix fuel _ H1)|].
  intros [ts p2] H2. cbn [snd] in H2. cbn [with_patch state patch].
  eapply ensures_bind; [apply (_decode_number_prefix fuel _ H2)|].
  intros [ms p3] H3. cbn [snd] in H3. cbn [with_patch state patch].
  pose proof (reads_prefix_read _ ms H3) as H4.
  unfold read_checked. destruct (_ <? ms); [exact I|]. cbn [bind].
  destruct (read p3 ms) as [md p4]. exact H4.
Qed.

(** The trailer: the first two fields go through the cursor, the third
    is read from the file where the cursor stands. *)
Lemma _patch_trailer_patch_ok (skip : bool) (ss ts : Z) (md : list Z)
    (m : Streams) :
  patch_ok file m ->
  ensures (fun r =>
             reads_prefix file
               (mkReadState (mkIO file (position (patch (state (snd r)))))
                            (position (patch (state (snd r))))
                            (checksum (patch (state (snd r)))))
             /\ patch_checksum (fst r)
                = int_from_bytes_little
                    (firstn 4
                       (skipn (Z.to_nat (position (patch (state (snd r)))))
                              file)))
          (_patch_trailer skip ss ts md m).
Proof.
  intros H. unfold _patch_trailer.
  pose proof (reads_prefix_read _ 4 H) as H1.
  destruct (read (patch (state m)) 4) as [b1 p1]. cbn [snd] in H1.
  cbn [with_patch state patch source target].
  destruct (negb skip && _); [exact I|].
  pose proof (reads_prefix_read _ 4 H1) as H2.
  destruct (read p1 4) as [b2 p2]. cbn [snd] in H2.
  cbn [with_patch state patch source target].
  destruct (negb skip && _); [exact I|].
  destruct H2 as (Hc & Hp & Hr & Hk).
  unfold io_read, remaining. rewrite Hc, Hp.
  cbn [position checksum].
  destruct (negb skip && _); [exact I|].
  cbn [ensures fst snd with_patch state patch position checksum
       patch_checksum].
  split; [|reflexivity].
  unfold reads_prefix. cbn [buffer content pos position checksum].
  auto.
Qed.

End PatchCursor.

(** In a run of [patch] that returns, the running patch checksum is the
    CRC-32 of the bytes before the patch cursor, and the patch checksum of
    the result is read from the (up to) four bytes after it. *)
Lemma patch_checksum_is_of_prefix (fuel : nat) (source patch_bytes : list Z)
    (patch_size : option Z) (skip_checksum : bool)
    (r : PatchResult) (m : Streams) :
  Forall is_byte patch_bytes ->
  Api.patch fuel source patch_bytes patch_size skip_checksum = Ok (r, m) ->
  let q := Z.to_nat (position (patch (state m))) in
  0 <= position (patch (state m)) <= len patch_bytes
  /\ checksum (patch (state m)) = crc32 (firstn q patch_bytes) 0
  /\ patch_checksum r
     = int_from_bytes_little (firstn 4 (skipn q patch_bytes)).
Proof.
  intros Hbytes Hrun. unfold Api.patch, _patch in Hrun.
  cbn [content] in Hrun.
  pose proof (_patch_header_patch_ok patch_bytes Hbytes fuel
                (mkIO source 0) (mkIO source 0) (mkIO [] 0) 0) as Hh.
  destruct (_patch_header _ _ _ _ _ _) as [[[[ss ts] md] m0]| |];
    cbn [bind] in Hrun; try discriminate Hrun.
  cbn [ensures snd] in Hh.
  pose proof (_patch_loop_patch_ok patch_bytes Hbytes fuel fuel
                (match patch_size with
                 | Some n => n
                 | None => len patch_bytes
                 end - 12) (io_tell (target_rel_io m0)) m0 Hh) as Hl.
  destruct (_patch_loop _ _ _ _ _) as [m1| |];
    cbn [bind] in Hrun; try discriminate Hrun.
  cbn [ensures] in Hl.
  pose proof (_patch_complete_patch_ok patch_bytes fuel ss ts m1 Hl) as Hc.
  destruct (_patch_complete _ _ _ _) as [m2| |];
    cbn [bind] in Hrun; try discriminate Hrun.
  cbn [ensures] in Hc.
  pose proof (_patch_trailer_patch_ok patch_bytes Hbytes skip_checksum
                ss ts md m2 Hc) as Ht.
  rewrite Hrun in Ht. cbn [ensures fst snd] in Ht.
  destruct Ht as [(_ & _ & Hr & Hk) Hp]. cbn [position checksum] in *.
  auto.
Qed.

(** C8, as the code has it: in a run of [patch] that returns with the
    patch cursor four bytes before the end of the patch file (the
    instructions ended where the twelve bytes of the trailer begin), the
    running patch checksum is the CRC-32 of every byte of the file but the
    last four, and the patch checksum of the result is read from those
    last four. *)
Theorem patch_checksum_excludes_last_field
    (fuel : nat) (source patch_bytes : list Z) (patch_size : option Z)
    (skip_checksum : bool) (r : PatchResult) (m : Streams) :
  Forall is_byte patch_bytes ->
  Api.patch fuel source patch_bytes patch_size skip_checksum = Ok (r, m) ->
  position (patch (state m)) = len patch_bytes - 4 ->
  checksum (patch (state m))
  = crc32 (firstn (length patch_bytes - 4) patch_bytes) 0
  /\ patch_checksum r
     = int_from_bytes_little (skipn (length patch_bytes - 4) patch_bytes).
Proof.
  intros Hbytes Hrun Hq.
  destruct (patch_checksum_is_of_prefix _ _ _ _ _ _ _ Hbytes Hrun)
    as (Hr & Hk & Hp).
  rewrite Hq in *. unfold len in *.
  replace (Z.to_nat (Z.of_nat (length patch_bytes) - 4))
    with (length patch_bytes - 4)%nat in * by lia.
  split; [exact Hk|]. rewrite Hp. f_equal.
  apply firstn_all2. rewrite length_skipn. lia.
Qed.

Lemma hello_patch_bytes : Forall is_byte hello_patch.
Proof. repeat (constructor; [unfold is_byte; lia|]). constructor. Qed.

Lemma patch_checksum_excludes_last_field_witness :
  exists r m,
    Api.patch 1 [] hello_patch None false = Ok (r, m)
    /\ checksum (patch (state m)) = crc32 (firstn 21 hello_patch) 0
    /\ patch_checksum r = int_from_bytes_little (skipn 21 hello_patch).
Proof.
  eexists. eexists.
  assert (Hrun : Api.patch 1 [] hello_patch None false = Ok _)
    by (vm_compute; reflexivity).
  split; [exact Hrun|].
  exact (patch_checksum_excludes_last_field 1 [] hello_patch None false _ _
           hello_patch_bytes Hrun eq_refl).
Defined.

(** C8, as the specification has it, fails.  [overrun_patch] has 20
    bytes; its run returns, with every checksum verified; and the running
    patch checksum is the CRC-32 of the first 17 bytes, one of which is in
    the last four, not of the first 16. *)
Lemma overrun_patch_checksum_covers_last_field :
  Forall is_byte overrun_patch
  /\ length overrun_patch = 20%nat
  /\ exists r m,
       Api.patch 1 [] overrun_patch None false = Ok (r, m)
       /\ checksum (patch (state m)) = crc32 (firstn 17 overrun_patch) 0
       /\ checksum (patch (state m))
          <> crc32 (firstn (length overrun_patch - 4) overrun_patch) 0.
Proof.
  split; [repeat (constructor; [unfold is_byte; lia|]); constructor|].
  split; [reflexivity|].
  do 2 eexists. split; [vm_compute; reflexivity|].
  split; vm_compute; [reflexivity|discriminate].
Qed.

(** * Further properties *)

(** ** The magic *)

Lemma read_magic (patch_io : BinaryIO) :
  fst (read (new_ReadState patch_io) 4) = fst (io_read 4 patch_io).
Proof.
  unfold read. cbn [new_ReadState buffer].
  now destruct (io_read 4 patch_io).
Qed.

Lemma _patch_header_bad_magic (fuel : nat)
    (source_abs source_rel patch_io target_abs : BinaryIO) (target_rel : Z) :
  fst (io_read 4 patch_io) <> MAGIC ->
  _patch_header fuel source_abs source_rel patch_io target_abs target_rel
  = Raise (InvalidFormatError (BadMagic (fst (io_read 4 patch_io)))).
Proof.
  intros H. rewrite <- read_magic in *. unfold _patch_header.
  cbn [state patch].
  destruct (read (new_ReadState patch_io) 4) as [magic p]. cbn [fst] in *.
  destruct (list_eq_dec Z.eq_dec magic MAGIC); [contradiction|reflexivity].
Qed.

Lemma _patch_header_good_magic (fuel : nat)
    (source_abs source_rel patch_io target_abs : BinaryIO) (target_rel : Z) :
  fst (io_read 4 patch_io) = MAGIC ->
  avoids is_format_error
         (_patch_header fuel source_abs source_rel patch_io target_abs
                        target_rel).
Proof.
  intros H. rewrite <- read_magic in H. unfold _patch_header.
  cbn [state patch].
  destruct (read (new_ReadState patch_io) 4) as [magic p]. cbn [fst] in H.
  destruct (list_eq_dec Z.eq_dec magic MAGIC); [|contradiction].
  cbn [negb].
  apply avoids_bind; [now apply _decode_number_avoids|]. intros [ss p1].
  apply avoids_bind; [now apply _decode_number_avoids|]. intros [ts p2].
  apply avoids_bind; [now apply _decode_number_avoids|]. intros [ms p3].
  apply avoids_bind; [now apply read_checked_avoids|]. intros [md p4].
  exact I.
Qed.

Lemma _patch_trailer_no_format_error (skip : bool) (ss ts : Z)
    (md : list Z) (m : Streams) :
  avoids is_format_error (_patch_trailer skip ss ts md m).
Proof.
  unfold _patch_trailer.
  repeat match goal with
         | |- avoids _ (let (_, _) := ?x in _) => destruct x
         | |- avoids _ (if ?c then _ else _) => destruct c
         | |- avoids _ (Raise _) => reflexivity
         | |- avoids _ (Ok _) => exact I
         end.
Qed.

(** X1: [_patch] ends in a format error exactly when the first four bytes
    of the patch file (fewer, when the file is shorter) are not "BPS1";
    the error then carries those bytes, and it is raised whatever the
    fuel, the other files and the flag. *)
Theorem format_error_iff_bad_magic
    (fuel : nat) (source_abs source_rel patch_io : BinaryIO)
    (patch_size : Z) (target_abs : BinaryIO) (target_rel : Z)
    (skip_checksum : bool) (why : format_error) :
  _patch fuel source_abs source_rel patch_io patch_size target_abs
         target_rel skip_checksum = Raise (InvalidFormatError why)
  <-> fst (io_read 4 patch_io) <> MAGIC
      /\ why = BadMagic (fst (io_read 4 patch_io)).
Proof.
  split.
  - intros H.
    destruct (list_eq_dec Z.eq_dec (fst (io_read 4 patch_io)) MAGIC)
      as [Heq|Hne].
    + exfalso.
      assert (A : avoids is_format_error
                    (_patch fuel source_abs source_rel patch_io patch_size
                            target_abs target_rel skip_checksum)).
      { unfold _patch.
        apply avoids_bind; [now apply _patch_header_good_magic|].
        intros [[[ss ts] md] m].
        apply avoids_bind; [now apply _patch_loop_avoids|]. intros m1.
        apply avoids_bind; [now apply _patch_complete_avoids|]. intros m2.
        apply _patch_trailer_no_format_error. }
      rewrite H in A. discriminate A.
    + split; [assumption|].
      unfold _patch in H.
      rewrite (_patch_header_bad_magic _ _ _ _ _ _ Hne) in H.
      cbn [bind] in H. now inversion H.
  - intros [Hne ->]. unfold _patch.
    now rewrite (_patch_header_bad_magic _ _ _ _ _ _ Hne).
Qed.

(** ** What [dis] can raise *)

(** X2: [dis] checks neither the magic nor any checksum: whatever the
    file, the size it is given and the fuel, it never ends in a
    [BPSError], neither the format error nor the checksum error of
    [patch]. *)
Theorem dis_raises_no_BPSError
    (fuel : nat) (patch_io : BinaryIO) (patch_size : Z) (e : exn) :
  dis fuel patch_io patch_size = Raise e -> is_BPSError e = false.
Proof.
  intros H.
  assert (A : avoids is_BPSError (dis fuel patch_io patch_size))
    by now apply dis_avoids.
  rewrite H in A. exact A.
Qed.

Lemma dis_raises_no_BPSError_witness :
  exists e,
    dis 3 (mkIO [1; 2; 3; 4; 1; 2] 0) 100 = Raise e
    /\ is_BPSError e = false.
Proof.
  eexists. split; [vm_compute; reflexivity|].
  apply (dis_raises_no_BPSError 3 (mkIO [1; 2; 3; 4; 1; 2] 0) 100).
  vm_compute. reflexivity.
Defined.

(** ** Signed offsets *)

Lemma land_1_double (m : Z) : Z.land (2 * m) 1 = 0.
Proof.
  change 1 with (Z.ones 1). rewrite Z.land_ones by lia.
  change (2 ^ 1) with 2. rewrite Z.mul_comm. apply Z.mod_mul. lia.
Qed.

Lemma land_1_double_plus_1 (m : Z) : Z.land (2 * m + 1) 1 = 1.
Proof.
  change 1 with (Z.ones 1) at 2. rewrite Z.land_ones by lia.
  change (2 ^ 1) with 2.
  rewrite Z.add_comm, Z.mul_comm, Z.mod_add by lia. reflexivity.
Qed.

Lemma signed_offset_even (m : Z) : signed_offset (2 * m) = m.
Proof.
  unfold signed_offset. rewrite land_1_double.
  change (0 =? 0) with true. cbv iota.
  rewrite Z.shiftr_div_pow2 by lia. change (2 ^ 1) with 2.
  replace (2 * m / 2) with m by (rewrite Z.mul_comm, Z.div_mul; lia).
  lia.
Qed.

Lemma signed_offset_odd (m : Z) : signed_offset (2 * m + 1) = - m.
Proof.
  unfold signed_offset. rewrite land_1_double_plus_1.
  change (1 =? 0) with false. cbv iota.
  rewrite Z.shiftr_div_pow2 by lia. change (2 ^ 1) with 2.
  replace ((2 * m + 1) / 2) with m
    by (rewrite Z.add_comm, Z.mul_comm, Z.div_add by lia; reflexivity).
  lia.
Qed.

Lemma offset_word_value (delta : Z) :
  Z.lor (Z.shiftl (Z.abs delta) 1) (if delta <? 0 then 1 else 0)
  = 2 * Z.abs delta + (if delta <? 0 then 1 else 0).
Proof.
  rewrite Z.shiftl_mul_pow2 by lia. change (2 ^ 1) with 2.
  rewrite (Z.mul_comm _ 2).
  destruct (delta <? 0).
  - rewrite <- Z.lxor_lor, <- Z.add_nocarry_lxor;
      auto using land_1_double.
  - now rewrite Z.lor_0_r, Z.add_0_r.
Qed.

(** X3: the signed offset of a copy instruction: the low bit of the
    decoded word is the sign and the rest the magnitude, so the word
    [2 * m] is the offset [m] and [2 * m + 1] the offset [- m]; and a
    word written as magnitude and sign of [delta] is read back from the
    patch file as [delta]. *)
Theorem signed_offset_round_trip (delta : Z) :
  (forall m, signed_offset (2 * m) = m /\ signed_offset (2 * m + 1) = - m)
  /\ forall (input : _ReadState) (fuel : nat) (rest : list Z),
       0 <= pos (buffer input) ->
       (length (remaining (buffer input)) < fuel)%nat ->
       remaining (buffer input) = offset_word delta ++ rest ->
       exists data input',
         _decode_number fuel input = Ok (data, input')
         /\ signed_offset data = delta
         /\ remaining (buffer input') = rest.
Proof.
  split; [intros m; split; [apply signed_offset_even|apply signed_offset_odd]|].
  intros input fuel rest Hpos Hfuel Hrem.
  pose proof (decode_loop_follows_spec _ fuel input 0 1 eq_refl Hpos Hfuel)
    as Hspec.
  rewrite Hrem in Hspec. unfold offset_word in Hspec.
  rewrite offset_word_value in Hspec.
  rewrite varint_spec_encode in Hspec by (destruct (delta <? 0); lia).
  destruct Hspec as (input' & Hrun & Hr & _).
  eexists. exists input'. split; [exact Hrun|]. split; [|exact Hr].
  rewrite Z.add_0_l, Z.mul_1_r.
  destruct (Z.ltb_spec delta 0).
  - rewrite signed_offset_odd. lia.
  - rewrite Z.add_0_r, signed_offset_even. lia.
Qed.

Lemma signed_offset_round_trip_witness :
  exists data input',
    _decode_number 3 (new_ReadState (mkIO (offset_word (-3) ++ [9]) 0))
    = Ok (data, input')
    /\ signed_offset data = -3
    /\ remaining (buffer input') = [9].
Proof.
  refine (proj2 (signed_offset_round_trip (-3))
                (new_ReadState (mkIO (offset_word (-3) ++ [9]) 0)) 3%nat [9]
                _ _ _).
  - simpl. lia.
  - vm_compute. lia.
  - reflexivity.
Defined.

(** ** Completion and verification *)

Lemma drain_source_reaches (gas : nat) :
  forall fuel source_size s s',
    drain_source fuel gas source_size s = Ok s' ->
    source_size <= position s'.
Proof.
  induction gas as [|gas IH]; intros fuel source_size s s';
    cbn [drain_source];
    destruct (Z.ltb_spec (position s) source_size) as [Hlt|Hge];
    intros H; try discriminate H; try (inversion H; subst; assumption).
  destruct (drain_chunks fuel _ s) as [s1| |]; cbn [bind] in H;
    try discriminate H.
  eapply IH. eassumption.
Qed.

Lemma pad_target_reaches (gas : nat) :
  forall fuel target_size t t',
    pad_target fuel gas target_size t = Ok t' ->
    target_size <= position t'.
Proof.
  induction gas as [|gas IH]; intros fuel target_size t t';
    cbn [pad_target];
    destruct (Z.ltb_spec (position t) target_size) as [Hlt|Hge];
    intros H; try discriminate H; try (inversion H; subst; assumption).
  destruct (pad_chunks fuel _ t) as [t1| |]; cbn [bind] in H;
    try discriminate H.
  eapply IH. eassumption.
Qed.

Lemma _patch_body_reaches (fuel : nat)
    (source_abs source_rel patch_io : BinaryIO) (patch_size : Z)
    (target_abs : BinaryIO) (target_rel : Z) ss ts md m :
  _patch_body fuel source_abs source_rel patch_io patch_size target_abs
              target_rel = Ok (ss, ts, md, m) ->
  ss <= position (source (state m)) /\ ts <= position (target (state m)).
Proof.
  unfold _patch_body, _patch_complete. intros H.
  destruct (_patch_header _ _ _ _ _ _) as [[[[ss0 ts0] md0] m0]| |];
    cbn [bind] in H; try discriminate H.
  destruct (_patch_loop _ _ _ _ _) as [m1| |];
    cbn [bind] in H; try discriminate H.
  destruct (drain_source _ _ _ _) as [s| |] eqn:Hd;
    cbn [bind] in H; try discriminate H.
  destruct (pad_target _ _ _ _) as [t| |] eqn:Hp;
    cbn [bind] in H; try discriminate H.
  inversion H; subst. cbn [with_target with_source state source target].
  split.
  - eapply drain_source_reaches. eassumption.
  - eapply pad_target_reaches. eassumption.
Qed.

(** What the trailer leaves alone, and what a verified trailer says. *)
Lemma _patch_trailer_result (skip : bool) (ss ts : Z) (md : list Z)
    (m : Streams) (r : PatchResult) (m' : Streams) :
  _patch_trailer skip ss ts md m = Ok (r, m') ->
  source_size r = ss /\ target_size r = ts /\ metadata r = md
  /\ source (state m') = source (state m)
  /\ target (state m') = target (state m)
  /\ (skip = false ->
      source_checksum r = checksum (source (state m'))
      /\ target_checksum r = checksum (target (state m'))
      /\ patch_checksum r = checksum (patch (state m'))).
Proof.
  unfold _patch_trailer.
  destruct (read (patch (state m)) 4) as [b1 p1].
  cbn [with_patch state patch source target].
  destruct (Z.eqb_spec (checksum (source (state m)))
                       (int_from_bytes_little b1)) as [E1|E1];
    destruct skip; cbn [negb andb]; try discriminate;
    destruct (read p1 4) as [b2 p2];
    cbn [with_patch state patch source target];
    destruct (Z.eqb_spec (checksum (target (state m)))
                         (int_from_bytes_little b2)) as [E2|E2];
    cbn [negb andb]; try discriminate;
    destruct (io_read 4 (buffer p2)) as [b3 f3];
    cbn [with_patch state patch source target checksum position];
    try (destruct (Z.eqb_spec (checksum p2) (int_from_bytes_little b3))
          as [E3|E3]; cbn [negb]; try discriminate);
    intros H; inversion H; subst;
    cbn [source_size target_size metadata source_checksum target_checksum
         patch_checksum state source target patch checksum];
    repeat split; auto; try discriminate.
Qed.

(** The checksums of a result are the three fields that follow the
    patch cursor when the trailer is reached. *)
Lemma _patch_trailer_fields (skip : bool) (ss ts : Z) (md : list Z)
    (m : Streams) (r : PatchResult) (m' : Streams) :
  _patch_trailer skip ss ts md m = Ok (r, m') ->
  (source_checksum r, target_checksum r, patch_checksum r)
  = trailer_fields (buffer (patch (state m))).
Proof.
  unfold _patch_trailer, trailer_fields, read.
  destruct (io_read 4 (buffer (patch (state m)))) as [b1 f1].
  cbn [with_patch state patch buffer source target checksum position].
  destruct (negb skip && _); [discriminate|].
  destruct (io_read 4 f1) as [b2 f2].
  cbn [with_patch state patch buffer source target checksum position].
  destruct (negb skip && _); [discriminate|].
  destruct (io_read 4 f2) as [b3 f3].
  cbn [with_patch state patch buffer source target checksum position].
  destruct (negb skip && _); [discriminate|].
  intros H. now inversion H.
Qed.

Lemma len_firstn_8 (rest : list Z) :
  len (firstn 4 rest) + len (firstn 4 (skipn 4 rest)) = len (firstn 8 rest).
Proof.
  unfold len. rewrite !length_firstn, length_skipn. lia.
Qed.

(** The trailer in bytes: the three checksums of the result are the
    twelve bytes that follow the patch cursor, four by four, and the
    cursor goes over the first eight of them. *)
Lemma _patch_trailer_reads (skip : bool) (ss ts : Z) (md : list Z)
    (m : Streams) (r : PatchResult) (m' : Streams) :
  0 <= pos (buffer (patch (state m))) ->
  _patch_trailer skip ss ts md m = Ok (r, m') ->
  let rest := remaining (buffer (patch (state m))) in
  source_checksum r = int_from_bytes_little (firstn 4 rest)
  /\ target_checksum r = int_from_bytes_little (firstn 4 (skipn 4 rest))
  /\ patch_checksum r = int_from_bytes_little (firstn 4 (skipn 8 rest))
  /\ position (patch (state m'))
     = position (patch (state m)) + len (firstn 8 rest).
Proof.
  intros Hp H. cbn zeta.
  pose proof (_patch_trailer_fields _ _ _ _ _ _ _ H) as Hf.
  rewrite (trailer_fields_bytes _ Hp) in Hf.
  pose proof (f_equal (fun t => fst (fst t)) Hf) as H1.
  pose proof (f_equal (fun t => snd (fst t)) Hf) as H2.
  pose proof (f_equal snd Hf) as H3.
  cbn [fst snd] in H1, H2, H3.
  split; [exact H1|]. split; [exact H2|]. split; [exact H3|].
  clear Hf H1 H2 H3.
  rewrite <- len_firstn_8. revert H.
  unfold _patch_trailer.
  destruct (io_read_next 4 (buffer (patch (state m))) ltac:(lia) Hp)
    as (Hd1 & _ & Hp1 & Hr1).
  unfold read at 1.
  destruct (io_read 4 (buffer (patch (state m)))) as [b1 f1].
  cbn [fst snd] in *.
  cbn [with_patch state patch buffer source target checksum position].
  destruct (negb skip && _); [discriminate|].
  assert (Hp1' : 0 <= pos f1) by (rewrite Hp1; unfold len; lia).
  destruct (io_read_next 4 f1 ltac:(lia) Hp1') as (Hd2 & _ & _ & _).
  unfold read at 1. cbn [buffer position checksum].
  destruct (io_read 4 f1) as [b2 f2]. cbn [fst snd] in *.
  cbn [with_patch state patch buffer source target checksum position].
  destruct (negb skip && _); [discriminate|].
  destruct (io_read 4 f2) as [b3 f3].
  cbn [with_patch state patch buffer source target checksum position].
  destruct (negb skip && _); [discriminate|].
  intros H. inversion H; subst.
  cbn [with_patch state patch buffer source target checksum position].
  change (Z.to_nat 4) with 4%nat in *. rewrite Hr1, skipn_length_firstn.
  lia.
Qed.

(** X4: a run of [_patch] that returns while verifying returns the three
    checksums of the trailer, the twelve bytes of the patch file that
    follow the patch cursor once the instructions are done, and these are
    equal to the running checksums of the three streams: of the source as
    read, of the target as written and of the patch as read through its
    cursor. *)
Theorem verified_result_checksums
    (fuel : nat) (source_abs source_rel patch_io : BinaryIO)
    (patch_size : Z) (target_abs : BinaryIO) (target_rel : Z)
    (r : PatchResult) (m : Streams) :
  _patch fuel source_abs source_rel patch_io patch_size target_abs
         target_rel false = Ok (r, m) ->
  (source_checksum r = checksum (source (state m))
   /\ target_checksum r = checksum (target (state m))
   /\ patch_checksum r = checksum (patch (state m)))
  /\ exists m0,
       _patch_body fuel source_abs source_rel patch_io patch_size
                   target_abs target_rel
       = Ok (source_size r, target_size r, metadata r, m0)
       /\ (source_checksum r, target_checksum r, patch_checksum r)
          = trailer_fields (buffer (patch (state m0)))
       /\ (0 <= pos (buffer (patch (state m0))) ->
           let rest := remaining (buffer (patch (state m0))) in
           checksum (source (state m))
           = int_from_bytes_little (firstn 4 rest)
           /\ checksum (target (state m))
              = int_from_bytes_little (firstn 4 (skipn 4 rest))
           /\ checksum (patch (state m))
              = int_from_bytes_little (firstn 4 (skipn 8 rest))).
Proof.
  rewrite _patch_body_trailer. intros H.
  destruct (_patch_body _ _ _ _ _ _ _) as [[[[ss ts] md] m0]| |];
    cbn [bind] in H; try discriminate H.
  pose proof (_patch_trailer_fields _ _ _ _ _ _ _ H) as Hf.
  pose proof (_patch_trailer_result _ _ _ _ _ _ _ H)
    as (-> & -> & -> & _ & _ & Hv).
  destruct (Hv eq_refl) as (H1 & H2 & H3).
  split; [auto|]. exists m0. split; [reflexivity|]. split; [exact Hf|].
  intros Hp.
  destruct (_patch_trailer_reads _ _ _ _ _ _ _ Hp H) as (E1 & E2 & E3 & _).
  cbn zeta. rewrite <- H1, <- H2, <- H3. auto.
Qed.

Lemma verified_result_checksums_witness :
  exists r m,
    Api.patch 1 [] hello_patch None false = Ok (r, m)
    /\ source_checksum r = checksum (source (state m))
    /\ target_checksum r = checksum (target (state m))
    /\ patch_checksum r = checksum (patch (state m))
    /\ exists m0,
         (source_checksum r, target_checksum r, patch_checksum r)
         = trailer_fields (buffer (patch (state m0)))
         /\ content (buffer (patch (state m0))) = hello_patch
         /\ pos (buffer (patch (state m0))) = 13.
Proof.
  do 2 eexists.
  assert (Hrun : Api.patch 1 [] hello_patch None false = Ok _)
    by (vm_compute; reflexivity).
  split; [exact Hrun|].
  destruct (verified_result_checksums 1 (mkIO [] 0) (mkIO [] 0)
              (mkIO hello_patch 0) 25 (mkIO [] 0) 0 _ _ Hrun)
    as ((H1 & H2 & H3) & m0 & Hb & Hf & _).
  split; [exact H1|]. split; [exact H2|]. split; [exact H3|].
  exists m0. split; [exact Hf|].
  vm_compute in Hb. inversion Hb; subst. split; reflexivity.
Defined.

(** X5: a run of [_patch] that returns has read at least [source_size]
    bytes of the source and written at least [target_size] bytes of the
    target, with the sizes and the metadata of the header in its result. *)
Theorem returned_run_covers_sizes
    (fuel : nat) (source_abs source_rel patch_io : BinaryIO)
    (patch_size : Z) (target_abs : BinaryIO) (target_rel : Z)
    (skip_checksum : bool) (r : PatchResult) (m : Streams) :
  _patch fuel source_abs source_rel patch_io patch_size target_abs
         target_rel skip_checksum = Ok (r, m) ->
  source_size r <= position (source (state m))
  /\ target_size r <= position (target (state m))
  /\ exists m0,
       _patch_header fuel source_abs source_rel patch_io target_abs target_rel
       = Ok (source_size r, target_size r, metadata r, m0).
Proof.
  rewrite _patch_body_trailer. intros H.
  destruct (_patch_body _ _ _ _ _ _ _) as [[[[ss ts] md] m0]| |] eqn:Hb;
    cbn [bind] in H; try discriminate H.
  apply _patch_trailer_result in H.
  destruct H as (-> & -> & -> & Hs & Ht & _). rewrite Hs, Ht.
  destruct (_patch_body_reaches _ _ _ _ _ _ _ _ _ _ _ Hb) as [H1 H2].
  repeat split; try assumption.
  unfold _patch_body in Hb.
  destruct (_patch_header _ _ _ _ _ _) as [[[[ss0 ts0] md0] mh]| |];
    cbn [bind] in Hb; try discriminate Hb.
  destruct (_patch_loop _ _ _ _ _); cbn [bind] in Hb; try discriminate Hb.
  destruct (_patch_complete _ _ _ _); cbn [bind] in Hb; try discriminate Hb.
  inversion Hb; subst. eauto.
Qed.

Lemma returned_run_covers_sizes_witness :
  exists r m,
    Api.patch 1 [] hello_patch None false = Ok (r, m)
    /\ source_size r <= position (source (state m))
    /\ target_size r <= position (target (state m)).
Proof.
  do 2 eexists.
  assert (Hrun : Api.patch 1 [] hello_patch None false = Ok _)
    by (vm_compute; reflexivity).
  split; [exact Hrun|].
  destruct (returned_run_covers_sizes 1 (mkIO [] 0) (mkIO [] 0)
              (mkIO hello_patch 0) 25 (mkIO [] 0) 0 false _ _ Hrun)
    as (H1 & H2 & _).
  split; assumption.
Defined.

(** ** Padding the target *)

Lemma firstn_repeat_zero (k n : nat) :
  firstn k (repeat 0 n) = repeat 0 (Nat.min k n).
Proof.
  revert n. induction k as [|k IH]; intros [|n]; cbn; try reflexivity.
  now rewrite IH.
Qed.

Lemma write_at_end (t : _ReadState) (data : list Z) :
  pos (buffer t) = len (content (buffer t)) ->
  content (buffer (write t data)) = content (buffer t) ++ data
  /\ pos (buffer (write t data)) = len (content (buffer (write t data)))
  /\ position (write t data) = position t + len data.
Proof.
  intros H. unfold write. cbn [buffer position].
  rewrite (io_write_at_end _ _ H). cbn [content pos]. auto.
Qed.

Lemma pad_chunks_zeros (gas : nat) :
  forall remaining_bytes t,
    pos (buffer t) = len (content (buffer t)) ->
    remaining_bytes <= _BUFFER_SIZE * Z.of_nat gas ->
    exists t',
      pad_chunks gas remaining_bytes t = Ok t'
      /\ content (buffer t')
         = content (buffer t) ++ repeat 0 (Z.to_nat remaining_bytes)
      /\ pos (buffer t') = len (content (buffer t'))
      /\ position t' = position t + Z.max 0 remaining_bytes.
Proof.
  unfold _BUFFER_SIZE.
  induction gas as [|gas IH]; intros n t Hend Hgas; cbn [pad_chunks];
    destruct (Z.ltb_spec 0 n) as [Hn|Hn]; try lia.
  - exists t. replace (Z.to_nat n) with 0%nat by lia. cbn [repeat].
    rewrite app_nil_r. repeat split; [assumption|lia].
  - set (k := Z.to_nat (Z.min n 8192)).
    unfold _EMPTY_DATA, _BUFFER_SIZE. rewrite firstn_repeat_zero.
    replace (Nat.min (Z.to_nat (Z.min n 8192)) (Z.to_nat 8192)) with k
      by (unfold k; lia).
    destruct (write_at_end t (repeat 0 k) Hend) as (Hc & Hp & Hq).
    destruct (IH (n - 8192) (write t (repeat 0 k)) Hp ltac:(lia))
      as (t' & Hrun & Hc' & Hp' & Hq').
    exists t'. split; [exact Hrun|]. split; [|split; [exact Hp'|]].
    + rewrite Hc', Hc, <- app_assoc, <- repeat_app. do 2 f_equal.
      unfold k. lia.
    + rewrite Hq', Hq. unfold len. rewrite repeat_length. unfold k. lia.
  - exists t. replace (Z.to_nat n) with 0%nat by lia. cbn [repeat].
    rewrite app_nil_r. repeat split; [assumption|lia].
Qed.

Lemma pad_target_pads
    (fuel gas : nat) (target_size : Z) (t : _ReadState) :
  pos (buffer t) = len (content (buffer t)) ->
  target_size - position t <= _BUFFER_SIZE * Z.of_nat fuel ->
  (1 <= gas)%nat ->
  exists t',
    pad_target fuel gas target_size t = Ok t'
    /\ content (buffer t')
       = content (buffer t)
         ++ repeat 0 (Z.to_nat (target_size - position t))
    /\ position t' = Z.max (position t) target_size.
Proof.
  intros Hend Hfuel Hgas. destruct gas as [|gas]; [lia|].
  cbn [pad_target]. destruct (Z.ltb_spec (position t) target_size) as [Hlt|Hge].
  - destruct (pad_chunks_zeros fuel (target_size - position t) t Hend Hfuel)
      as (t' & Hrun & Hc & Hp & Hq).
    rewrite Hrun. cbn [bind]. exists t'.
    assert (Hdone : position t' = target_size) by lia.
    split; [|split; [exact Hc|lia]].
    destruct gas; cbn [pad_target];
      destruct (Z.ltb_spec (position t') target_size); try lia; reflexivity.
  - exists t. replace (Z.to_nat (target_size - position t)) with 0%nat by lia.
    cbn [repeat]. rewrite app_nil_r. repeat split. lia.
Qed.

(** X6: when the instructions leave the target short of [target_size],
    the completion loop appends exactly the missing number of zero bytes
    and stops with the position at [target_size]; a target that is long
    enough is left as it is. *)
Theorem pad_target_appends_zeros
    (fuel gas : nat) (target_size : Z) (t : _ReadState) :
  pos (buffer t) = len (content (buffer t)) ->
  target_size - position t <= _BUFFER_SIZE * Z.of_nat fuel ->
  (1 <= gas)%nat ->
  exists t',
    pad_target fuel gas target_size t = Ok t'
    /\ content (buffer t')
       = content (buffer t)
         ++ repeat 0 (Z.to_nat (target_size - position t))
    /\ position t' = Z.max (position t) target_size.
Proof. apply pad_target_pads. Qed.

Lemma pad_target_appends_zeros_witness :
  exists t',
    pad_target 1 1 5 (mkReadState (mkIO [7; 8] 2) 2 0) = Ok t'
    /\ content (buffer t') = [7; 8; 0; 0; 0]
    /\ position t' = 5.
Proof.
  destruct (pad_target_appends_zeros 1 1 5 (mkReadState (mkIO [7; 8] 2) 2 0))
    as (t' & H1 & H2 & H3).
  - reflexivity.
  - vm_compute. discriminate.
  - lia.
  - exists t'. repeat split; assumption.
Defined.

(** ** Copies from the source and from the patch *)

Lemma read_from_reader (r : Readable) (n : Z) (m : Streams) :
  r <> the_target_rel ->
  fst (read_from r n m) = fst (io_read n (reader_io r m))
  /\ reader_io r (snd (read_from r n m)) = snd (io_read n (reader_io r m))
  /\ target (state (snd (read_from r n m))) = target (state m)
  /\ target_rel (snd (read_from r n m)) = target_rel m.
Proof.
  intros Hr. destruct r; try contradiction; unfold read_from, read, reader_io;
    destruct (io_read n _) as [data f]; cbn; auto.
Qed.

Lemma firstn_chunks (rest : list Z) (n k : nat) :
  firstn (Nat.min n k) rest
  ++ firstn (n - k) (skipn (length (firstn (Nat.min n k) rest)) rest)
  = firstn n rest.
Proof.
  destruct (Nat.le_gt_cases n k) as [Hle|Hgt].
  - replace (n - k)%nat with 0%nat by lia.
    rewrite Nat.min_l by lia. cbn [firstn]. apply app_nil_r.
  - rewrite Nat.min_r by lia.
    destruct (Nat.le_gt_cases k (length rest)) as [Hk|Hk].
    + rewrite length_firstn, Nat.min_l by lia.
      rewrite firstn_firstn_skipn. f_equal. lia.
    + replace (firstn k rest) with rest
        by (symmetry; apply firstn_all2; lia).
      replace (firstn n rest) with rest
        by (symmetry; apply firstn_all2; lia).
      rewrite skipn_all, firstn_nil. apply app_nil_r.
Qed.

Lemma target_at_end_same (m m' : Streams) :
  target (state m') = target (state m) ->
  target_at_end m -> target_at_end m'.
Proof.
  unfold target_at_end, target_file. now intros ->.
Qed.

Lemma _buffered_copy_from_reader (fuel : nat) :
  forall (r : Readable) (length buffer_size : Z) (m : Streams),
    r <> the_target_rel ->
    target_at_end m ->
    0 <= pos (reader_io r m) ->
    0 < buffer_size ->
    length <= buffer_size * Z.of_nat fuel ->
    let copied := firstn (Z.to_nat length) (remaining (reader_io r m)) in
    exists m',
      _buffered_copy fuel r length buffer_size m = Ok m'
      /\ target_file m' = target_file m ++ copied
      /\ target_at_end m'
      /\ content (reader_io r m') = content (reader_io r m)
      /\ pos (reader_io r m') = pos (reader_io r m) + len copied
      /\ target_rel m' = target_rel m.
Proof.
  induction fuel as [|fuel IH]; intros r length bs m Hr Hend Hpos Hbs Hfuel;
    cbn zeta; cbn [_buffered_copy];
    destruct (Z.ltb_spec 0 length) as [Hlen|Hlen]; try (exfalso; lia).
  1,3: exists m; replace (Z.to_nat length) with 0%nat by lia;
       cbn [firstn]; rewrite app_nil_r; unfold len; cbn [Datatypes.length];
       repeat split; try reflexivity; try apply Hend; lia.
  destruct (read_from_reader r (Z.min length bs) m Hr) as (Hd & Hio & Ht & Htr).
  destruct (io_read_next (Z.min length bs) (reader_io r m) ltac:(lia) Hpos)
    as (Hdata & Hc & Hp & Hrem).
  destruct (read_from r (Z.min length bs) m) as [data m1].
  cbn [fst snd] in *. rewrite Hdata in Hd. subst data.
  set (rest := remaining (reader_io r m)) in *.
  set (data := firstn (Z.to_nat (Z.min length bs)) rest) in *.
  assert (Hend1 : target_at_end m1) by (eapply target_at_end_same; eauto).
  destruct (write_target_at_end data m1 Hend1) as (Hf & He & Hrel).
  assert (Hio2 : reader_io r (write_target data m1) = reader_io r m1)
    by (destruct r; try contradiction; reflexivity).
  destruct (IH r (length - bs) bs (write_target data m1) Hr He)
    as (m' & Hrun & Hfile & Hend' & Hc' & Hp' & Htr').
  { rewrite Hio2, Hio, Hp. unfold len. lia. }
  { assumption. }
  { lia. }
  exists m'. split; [exact Hrun|].
  rewrite Hio2, Hio in Hfile, Hc', Hp'. rewrite Hrem in Hfile, Hp'.
  assert (Hlist : data
                  ++ firstn (Z.to_nat (length - bs))
                            (skipn (Datatypes.length data) rest)
                  = firstn (Z.to_nat length) rest).
  { unfold data.
    replace (Z.to_nat (Z.min length bs))
      with (Nat.min (Z.to_nat length) (Z.to_nat bs)) by lia.
    replace (Z.to_nat (length - bs))
      with (Z.to_nat length - Z.to_nat bs)%nat by lia.
    apply firstn_chunks. }
  split; [|split; [|split; [|split]]].
  - rewrite Hfile, Hf. unfold target_file at 1.
    rewrite Ht. fold (target_file m). rewrite <- app_assoc. now rewrite Hlist.
  - exact Hend'.
  - rewrite Hc'. exact Hc.
  - rewrite Hp', Hp, <- Hlist, len_app. fold data. lia.
  - rewrite Htr', Hrel. exact Htr.
Qed.

(** A copy that returns had the fuel for its length. *)
Lemma _buffered_copy_ok_fuel (fuel : nat) :
  forall r length buffer_size m m',
    0 < buffer_size ->
    _buffered_copy fuel r length buffer_size m = Ok m' ->
    length <= buffer_size * Z.of_nat fuel.
Proof.
  induction fuel as [|fuel IH]; intros r length bs m m' Hbs;
    cbn [_buffered_copy]; destruct (Z.ltb_spec 0 length) as [Hl|Hl];
    intros H; try discriminate H; try nia.
  destruct (read_from r (Z.min length bs) m) as [b m1].
  apply IH in H; [nia|assumption].
Qed.

(** X7: [_buffered_copy] from the source, the patch or the source
    back-reference handle appends to the target the next [length] bytes
    of that handle, or as many as the file still has, and advances the
    handle by as much; the size of the buffer makes no difference and a
    short file raises nothing. *)
Theorem buffered_copy_appends
    (fuel : nat) (r : Readable) (length buffer_size : Z) (m : Streams) :
  r <> the_target_rel ->
  target_at_end m ->
  0 <= pos (reader_io r m) ->
  0 < buffer_size ->
  length <= buffer_size * Z.of_nat fuel ->
  let copied := firstn (Z.to_nat length) (remaining (reader_io r m)) in
  exists m',
    _buffered_copy fuel r length buffer_size m = Ok m'
    /\ target_file m' = target_file m ++ copied
    /\ target_at_end m'
    /\ content (reader_io r m') = content (reader_io r m)
    /\ pos (reader_io r m') = pos (reader_io r m) + len copied
    /\ target_rel m' = target_rel m.
Proof. apply _buffered_copy_from_reader. Qed.

Lemma buffered_copy_appends_witness :
  exists m',
    _buffered_copy 3 state_patch 5 2
      (streams_with_target [1] [10; 11; 12] 0) = Ok m'
    /\ target_file m' = [1; 10; 11; 12].
Proof.
  destruct (buffered_copy_appends 3 state_patch 5 2
              (streams_with_target [1] [10; 11; 12] 0))
    as (m' & Hrun & Hfile & _).
  - discriminate.
  - split; reflexivity.
  - cbn. lia.
  - lia.
  - lia.
  - exists m'. split; [exact Hrun|]. rewrite Hfile. reflexivity.
Defined.

(** X8: a SourceRead (kind 0) appends to the target the next [length]
    bytes of the source at its sequential cursor, a TargetRead (kind 1)
    the [length] bytes that follow the opcode word in the patch; when the
    file has fewer bytes left, those are copied and nothing is raised.
    The cursor that was read moves by the number of bytes copied. *)
Theorem read_instruction_appends
    (fuel : nat) (base : Z) (m : Streams) (opword : Z) (p : _ReadState) :
  _decode_number fuel (patch (state m)) = Ok (opword, p) ->
  Z.land opword 3 = 0 \/ Z.land opword 3 = 1 ->
  let length := Z.shiftr opword 2 + 1 in
  let r := if Z.land opword 3 =? 0 then state_source else state_patch in
  let copied :=
    firstn (Z.to_nat length) (remaining (reader_io r (with_patch m p))) in
  target_at_end m ->
  0 <= pos (reader_io r (with_patch m p)) ->
  length <= _BUFFER_SIZE * Z.of_nat fuel ->
  exists m',
    _patch_instruction fuel base m = Ok m'
    /\ target_file m' = target_file m ++ copied
    /\ pos (reader_io r m') = pos (reader_io r (with_patch m p)) + len copied.
Proof.
  intros Hop Hcmd length r copied Hend Hpos Hfuel.
  unfold _patch_instruction. rewrite Hop. cbn [bind].
  fold length. subst copied r.
  destruct Hcmd as [Hc|Hc]; rewrite Hc in *.
  - change (0 =? 0) with true in *. cbv iota in *.
    destruct (_buffered_copy_from_reader fuel state_source length _BUFFER_SIZE
                (with_patch m p)) as (m' & Hrun & Hfile & _ & _ & Hp & _);
      try assumption; [discriminate|unfold _BUFFER_SIZE; lia|].
    exists m'. repeat split; assumption.
  - change (1 =? 0) with false in *. change (1 =? 1) with true.
    cbv iota in *.
    destruct (_buffered_copy_from_reader fuel state_patch length _BUFFER_SIZE
                (with_patch m p)) as (m' & Hrun & Hfile & _ & _ & Hp & _);
      try assumption; [discriminate|unfold _BUFFER_SIZE; lia|].
    exists m'. repeat split; assumption.
Qed.

Lemma read_instruction_appends_witness :
  exists m',
    _patch_instruction 2 0
      (streams_with_target [1] (opcode 1 2 ++ [10; 11; 12]) 0) = Ok m'
    /\ target_file m' = [1; 10; 11].
Proof.
  destruct (read_instruction_appends 2 0
              (streams_with_target [1] (opcode 1 2 ++ [10; 11; 12]) 0) 5
              (mkReadState (mkIO (opcode 1 2 ++ [10; 11; 12]) 1) 1
                           (Z.land (crc32 [133] 0) 0xffffffff)))
    as (m' & Hrun & Hfile & _).
  - vm_compute. reflexivity.
  - right. reflexivity.
  - split; reflexivity.
  - vm_compute. discriminate.
  - vm_compute. discriminate.
  - exists m'. split; [exact Hrun|]. rewrite Hfile. reflexivity.
Defined.

(** X9: a SourceCopy (kind 2) moves the source back-reference handle by
    the signed offset, from where the handle is, and copies from there.
    A move to before the start of the file ends the run: in [OSError],
    or in [ValueError] when the offset is no [off_t].  A move to a
    position within the source file, its end included, is followed by
    the copy; and whenever the instruction returns, the move was to a
    position from 0 on and the copy is this: the target gets the next
    [length] bytes of the source from the new position (fewer at the end
    of the file, none past it) and the handle is left after the bytes
    copied. *)
Theorem source_copy_instruction
    (fuel : nat) (base : Z) (m : Streams) (opword dword : Z)
    (p p' : _ReadState) :
  _decode_number fuel (patch (state m)) = Ok (opword, p) ->
  Z.land opword 3 = 2 ->
  _decode_number fuel p = Ok (dword, p') ->
  let length := Z.shiftr opword 2 + 1 in
  let off := pos (source_rel m) + signed_offset dword in
  let copied :=
    firstn (Z.to_nat length)
           (skipn (Z.to_nat off) (content (source_rel m))) in
  target_at_end m ->
  (off < 0 ->
   _patch_instruction fuel base m
   = Raise (if fits_off_t (signed_offset dword) then OSError
            else ValueError))
  /\ (0 <= off <= len (content (source_rel m)) ->
      length <= _BUFFER_SIZE * Z.of_nat fuel ->
      exists m',
        _patch_instruction fuel base m = Ok m'
        /\ target_file m' = target_file m ++ copied
        /\ content (source_rel m') = content (source_rel m)
        /\ pos (source_rel m') = off + len copied)
  /\ (forall m',
        _patch_instruction fuel base m = Ok m' ->
        0 <= off
        /\ target_file m' = target_file m ++ copied
        /\ content (source_rel m') = content (source_rel m)
        /\ pos (source_rel m') = off + len copied).
Proof.
  intros Hop Hcmd Hd length off copied Hend.
  unfold _patch_instruction. rewrite Hop. cbn [bind]. rewrite Hcmd.
  change (2 =? 0) with false. change (2 =? 1) with false.
  change (2 =? 2) with true. cbv iota.
  cbn [with_patch state patch]. rewrite Hd. cbn [bind].
  fold (with_patch m p). fold (with_patch (with_patch m p) p').
  set (m2 := with_patch (with_patch m p) p').
  change (source_rel m2) with (source_rel m). fold length.
  assert (Hcopy : forall fuel2,
             0 <= off ->
             length <= _BUFFER_SIZE * Z.of_nat fuel2 ->
             exists m',
               _buffered_copy fuel2 the_source_rel length _BUFFER_SIZE
                 (with_source_rel m2 (mkIO (content (source_rel m)) off))
               = Ok m'
               /\ target_file m' = target_file m ++ copied
               /\ content (source_rel m') = content (source_rel m)
               /\ pos (source_rel m') = off + len copied).
  { intros fuel2 Hoff Hfuel.
    set (m3 := with_source_rel m2 (mkIO (content (source_rel m)) off)).
    destruct (_buffered_copy_from_reader fuel2 the_source_rel length
                _BUFFER_SIZE m3)
      as (m' & Hrun & Hfile & _ & Hc & Hp & _).
    - discriminate.
    - exact Hend.
    - exact Hoff.
    - unfold _BUFFER_SIZE. lia.
    - exact Hfuel.
    - exists m'. repeat split; assumption. }
  split; [|split].
  - intros Hoff. now rewrite io_seek_cur_refused by (left; exact Hoff).
  - intros Hoff Hfuel. rewrite io_seek_cur_within by exact Hoff.
    cbn [bind]. apply Hcopy; [lia|exact Hfuel].
  - intros m' Hrun.
    destruct (io_seek_cur _ _) as [g| |] eqn:Eg; cbn [bind] in Hrun;
      try discriminate Hrun.
    apply io_seek_cur_value in Eg. destruct Eg as [-> Hrange].
    fold off in Hrun, Hrange.
    assert (Hbs : 0 < _BUFFER_SIZE) by (unfold _BUFFER_SIZE; lia).
    pose proof (_buffered_copy_ok_fuel _ _ _ _ _ _ Hbs Hrun) as Hfuel.
    destruct (Hcopy fuel (proj1 Hrange) Hfuel) as (m2' & Hrun2 & H).
    rewrite Hrun in Hrun2. inversion Hrun2; subst m2'.
    split; [apply Hrange|exact H].
Qed.

Lemma source_copy_instruction_witness :
  _patch_instruction 1 0
    (streams_with_target [] (opcode 2 2 ++ offset_word (-3)) 0)
  = Raise OSError.
Proof.
  refine (proj1 (source_copy_instruction 1 0
                   (streams_with_target [] (opcode 2 2 ++ offset_word (-3)) 0)
                   6 7
                   (mkReadState (mkIO [134; 135] 1) 1
                                (Z.land (crc32 [134] 0) 0xffffffff))
                   (mkReadState (mkIO [134; 135] 2) 2
                                (Z.land (crc32 [134; 135] 0) 0xffffffff))
                   _ _ _ _) _).
  - vm_compute. reflexivity.
  - reflexivity.
  - vm_compute. reflexivity.
  - split; reflexivity.
  - vm_compute. reflexivity.
Defined.

(** ** A TargetCopy from the end of the target *)

Lemma target_copy_bytewise_past_end (n : nat) :
  forall m,
    target_at_end m ->
    len (target_file m) <= target_rel m ->
    target_file (target_copy_bytewise n m) = target_file m
    /\ target_at_end (target_copy_bytewise n m)
    /\ target_rel (target_copy_bytewise n m) = target_rel m.
Proof.
  induction n as [|n IH]; intros m Hend Hrel; cbn [target_copy_bytewise];
    [auto|].
  rewrite read_target_rel by lia. unfold len in Hrel.
  rewrite skipn_all2 by lia. rewrite firstn_nil.
  change (len []) with 0. rewrite Z.add_0_r.
  set (m1 := with_target_rel m (target_rel m)).
  assert (Hend1 : target_at_end m1) by exact Hend.
  destruct (write_target_at_end [] m1 Hend1) as (Hf & He & Hr).
  rewrite app_nil_r in Hf.
  destruct (IH (write_target [] m1) He) as (H1 & H2 & H3).
  { rewrite Hf, Hr. exact Hrel. }
  rewrite H1, H3, Hf, Hr. auto.
Qed.

(** X10: a TargetCopy whose back-reference cursor, after its seek, is at
    the end of what the target holds copies nothing and raises nothing;
    and whenever a TargetCopy returns with its cursor at the end or past
    it, it has copied nothing: the target is left as it is and the cursor
    stays where the seek put it. *)
Theorem target_copy_from_the_end
    (fuel : nat) (m : Streams) (opword dword : Z) (p p' : _ReadState) :
  _decode_number fuel (patch (state m)) = Ok (opword, p) ->
  Z.land opword 3 = 3 ->
  _decode_number fuel p = Ok (dword, p') ->
  let off := target_rel m + signed_offset dword in
  target_at_end m ->
  len (target_file m) <= off ->
  (off = len (target_file m) ->
   exists m', _patch_instruction fuel 0 m = Ok m')
  /\ (forall m',
        _patch_instruction fuel 0 m = Ok m' ->
        target_file m' = target_file m
        /\ target_at_end m'
        /\ target_rel m' = off).
Proof.
  intros Hop Hcmd Hd off Hend Hoff.
  assert (H0 : 0 <= off) by (unfold len in Hoff; lia).
  unfold _patch_instruction. rewrite Hop. cbn [bind]. rewrite Hcmd.
  change (3 =? 0) with false. change (3 =? 1) with false.
  change (3 =? 2) with false. change (3 =? 3) with true. cbv iota.
  cbn [with_patch state patch]. rewrite Hd. cbn [bind].
  fold (with_patch m p). fold (with_patch (with_patch m p) p').
  set (m2 := with_patch (with_patch m p) p').
  assert (Hafter :
            forall m',
              (f <- Ok (mkIO (content (target_rel_io m2)) off) ;;
               let m0 := with_target_rel m2 (pos f) in
               let target_rel_offset := io_tell (target_rel_io m0) - 0 in
               if position (target (state m0)) - 8 >? target_rel_offset
               then _buffered_copy fuel the_target_rel
                      (Z.shiftr opword 2 + 1)
                      (Z.min (position (target (state m0))
                              - target_rel_offset) _BUFFER_SIZE) m0
               else Ok (target_copy_bytewise
                          (Z.to_nat (Z.shiftr opword 2 + 1)) m0)) = Ok m' ->
              target_file m' = target_file m
              /\ target_at_end m'
              /\ target_rel m' = off).
  { intros m'. unfold target_rel_io, io_tell. cbn [bind pos content].
    set (m0 := with_target_rel m2 off).
    assert (Hend0 : target_at_end m0) by exact Hend.
    assert (Hposition : position (target (state m0)) = len (target_file m))
      by apply Hend.
    change (target_rel m0) with off. rewrite Hposition, Z.sub_0_r.
    destruct (Z.gtb_spec (len (target_file m) - 8) off); [lia|].
    intros Hrun. inversion Hrun; subst m'.
    destruct (target_copy_bytewise_past_end
                (Z.to_nat (Z.shiftr opword 2 + 1)) m0 Hend0 Hoff)
      as (Hfile & Hend' & Hrel').
    auto. }
  split.
  - intros Heq.
    assert (Hseek : 0 <= pos (target_rel_io m2) + signed_offset dword
                    <= len (content (target_rel_io m2)))
      by (change (0 <= off <= len (target_file m)); lia).
    rewrite (io_seek_cur_within _ _ Hseek).
    change (pos (target_rel_io m2) + signed_offset dword) with off.
    unfold target_rel_io, io_tell. cbn [bind pos content].
    set (m0 := with_target_rel m2 off).
    assert (Hposition : position (target (state m0)) = len (target_file m))
      by apply Hend.
    change (target_rel m0) with off. rewrite Hposition, Z.sub_0_r.
    destruct (Z.gtb_spec (len (target_file m) - 8) off); [lia|].
    eexists. reflexivity.
  - intros m' Hrun.
    destruct (io_seek_cur _ _) as [g| |] eqn:Eg; cbn [bind] in Hrun;
      try discriminate Hrun.
    apply io_seek_cur_value in Eg. destruct Eg as [-> _].
    apply Hafter. exact Hrun.
Qed.

Lemma target_copy_from_the_end_witness :
  exists m',
    _patch_instruction 1 0
      (streams_with_target [1; 2] (opcode 3 4 ++ offset_word 2) 0) = Ok m'
    /\ target_file m' = [1; 2].
Proof.
  destruct (target_copy_from_the_end 1
              (streams_with_target [1; 2] (opcode 3 4 ++ offset_word 2) 0)
              15 4
              (mkReadState (mkIO [143; 132] 1) 1
                           (Z.land (crc32 [143] 0) 0xffffffff))
              (mkReadState (mkIO [143; 132] 2) 2
                           (Z.land (crc32 [143; 132] 0) 0xffffffff)))
    as (Hret & Hsame).
  - vm_compute. reflexivity.
  - reflexivity.
  - vm_compute. reflexivity.
  - split; reflexivity.
  - vm_compute. discriminate.
  - destruct (Hret eq_refl) as (m' & Hrun).
    exists m'. split; [exact Hrun|]. apply (Hsame m' Hrun).
Defined.

(** ** One encoding for each number *)

Lemma lor_128_facts :
  forallb (fun x => Z.lor 0x80 x =? 128 + x) (map Z.of_nat (seq 0 128))
  = true.
Proof. vm_compute. reflexivity. Qed.

Lemma lor_128 (x : Z) : 0 <= x < 128 -> Z.lor 0x80 x = 128 + x.
Proof.
  intros Hx. pose proof lor_128_facts as H.
  rewrite forallb_forall in H. apply Z.eqb_eq. apply H.
  apply in_map_iff. exists (Z.to_nat x). split; [lia|]. apply in_seq. lia.
Qed.

Lemma encode_number_small (v : Z) :
  0 <= v < 128 -> encode_number v = [128 + v].
Proof.
  intros Hv. rewrite encode_number_equation_1.
  assert (Hs : Z.shiftr v 7 = 0)
    by (rewrite Z.shiftr_div_pow2 by lia; apply Z.div_small; lia).
  destruct (Z_le_gt_dec (Z.shiftr v 7) 0) as [Hle|Hgt]; [|lia].
  simp encode_number.
  now rewrite seven_bits, Z.mod_small, lor_128 by lia.
Qed.

Lemma encode_number_step (b v : Z) :
  0 <= b < 128 -> 0 <= v ->
  encode_number (b + 128 * (v + 1)) = b :: encode_number v.
Proof.
  intros Hb Hv. rewrite encode_number_equation_1.
  assert (Hs : Z.shiftr (b + 128 * (v + 1)) 7 = v + 1).
  { rewrite Z.shiftr_div_pow2 by lia. change (2 ^ 7) with 128.
    rewrite Z.mul_comm, Z.div_add, Z.div_small by lia. lia. }
  destruct (Z_le_gt_dec (Z.shiftr (b + 128 * (v + 1)) 7) 0) as [Hle|Hgt];
    [lia|].
  simp encode_number. rewrite Hs, seven_bits.
  replace ((b + 128 * (v + 1)) mod 128) with b
    by (rewrite (Z.mul_comm 128), Z.mod_add, Z.mod_small; lia).
  now replace (v + 1 - 1) with v by lia.
Qed.

Lemma varint_bytes_decode (body : list Z) (t : Z) :
  Forall (fun b => 0 <= b < 128) body ->
  128 <= t < 256 ->
  exists v,
    0 <= v
    /\ encode_number v = body ++ [t]
    /\ forall rest value scale,
         varint_spec ((body ++ [t]) ++ rest) value scale
         = Some (value + v * scale, rest).
Proof.
  intros Hbody Ht. induction Hbody as [|b body Hb _ IH].
  - exists (t - 128). split; [lia|]. split.
    + rewrite encode_number_small by lia. cbn [app]. do 2 f_equal. lia.
    + intros rest value scale. cbn [app varint_spec].
      destruct (terminator_byte (t - 128) ltac:(lia)) as (H1 & H2 & _).
      rewrite lor_128 in H1, H2 by lia.
      replace (128 + (t - 128)) with t in H1, H2 by lia.
      now rewrite H1, H2.
  - destruct IH as (v & Hv & Henc & Hdec).
    exists (b + 128 * (v + 1)). split; [lia|]. split.
    + rewrite encode_number_step by assumption. cbn [app]. now rewrite Henc.
    + intros rest value scale. cbn [app varint_spec].
      destruct (terminator_byte b Hb) as (_ & _ & H3). rewrite H3.
      rewrite seven_bits, Z.mod_small by lia.
      rewrite Hdec. do 2 f_equal. lia.
Qed.

(** X11: the decoder reads every well-formed VarInt (bytes below 128
    closed by one byte from 128 to 255) as a number that is not negative
    and whose encoding is that same VarInt; so two different VarInts are
    never read as the same number, the bias leaves each number exactly
    one encoding. *)
Theorem varint_is_canonical
    (s : list Z) (input : _ReadState) (fuel : nat) (rest : list Z) :
  varint_bytes s ->
  0 <= pos (buffer input) ->
  (length (remaining (buffer input)) < fuel)%nat ->
  remaining (buffer input) = s ++ rest ->
  exists v input',
    _decode_number fuel input = Ok (v, input')
    /\ 0 <= v
    /\ encode_number v = s
    /\ remaining (buffer input') = rest.
Proof.
  intros (body & t & -> & Hbody & Ht) Hpos Hfuel Hrem.
  destruct (varint_bytes_decode body t Hbody Ht) as (v & Hv & Henc & Hdec).
  pose proof (decode_loop_follows_spec _ fuel input 0 1 eq_refl Hpos Hfuel)
    as Hspec.
  rewrite Hrem, Hdec in Hspec.
  destruct Hspec as (input' & Hrun & Hr & _).
  exists v, input'. repeat split; try assumption.
  unfold _decode_number. rewrite Hrun. do 2 f_equal. lia.
Qed.

Lemma varint_is_canonical_witness :
  exists v input',
    _decode_number 4 (new_ReadState (mkIO [44; 129; 7] 0)) = Ok (v, input')
    /\ 0 <= v
    /\ encode_number v = [44; 129]
    /\ remaining (buffer input') = [7].
Proof.
  apply (varint_is_canonical [44; 129]
           (new_ReadState (mkIO [44; 129; 7] 0)) 4 [7]).
  - exists [44], 129. split; [reflexivity|].
    split; [repeat constructor; lia|lia].
  - simpl. lia.
  - simpl. lia.
  - reflexivity.
Defined.

(** ** The checksums of a whole run *)

Lemma write_writes_file (t : _ReadState) (data : list Z) :
  writes_file t -> Forall is_byte data -> writes_file (write t data).
Proof.
  intros (Hp & Hq & Hb & Hk) Hd.
  destruct (write_at_end t data Hp) as (Hc & Hp' & Hq').
  unfold writes_file. split; [exact Hp'|].
  split; [rewrite Hq', Hc, Hq, len_app; reflexivity|].
  split; [rewrite Hc; apply Forall_app; now split|].
  rewrite Hc. unfold write. cbn [checksum].
  rewrite Hk, crc32_app by assumption.
  apply u32_mask, u32_crc32, Forall_app. now split.
Qed.

Lemma io_read_bytes (n : Z) (f : BinaryIO) :
  Forall is_byte (content f) ->
  Forall is_byte (fst (io_read n f))
  /\ content (snd (io_read n f)) = content f.
Proof.
  intros H. destruct (io_read_prefix n f) as (j & -> & _ & ->).
  split; [|reflexivity].
  apply Forall_firstn. unfold remaining. now apply Forall_skipn.
Qed.

Lemma read_bytes (s : _ReadState) (n : Z) :
  Forall is_byte (content (buffer s)) ->
  Forall is_byte (fst (read s n))
  /\ content (buffer (snd (read s n))) = content (buffer s).
Proof.
  intros H. destruct (io_read_bytes n (buffer s) H) as [H1 H2].
  unfold read. destruct (io_read n (buffer s)). now cbn in *.
Qed.

Lemma _decode_number_loop_content (fuel : nat) :
  forall input data shift,
    ensures (fun r => content (buffer (snd r)) = content (buffer input))
            (_decode_number_loop fuel input data shift).
Proof.
  induction fuel as [|fuel IH]; intros input data shift; [exact I|].
  cbn [_decode_number_loop].
  assert (Hc : content (buffer (snd (read input 1))) = content (buffer input))
    by (unfold read; destruct (io_read 1 (buffer input)) eqn:E;
        unfold io_read in E; now inversion E).
  destruct (read input 1) as [[|x bytes] input']; [exact I|].
  cbn [snd] in Hc. destruct (Z.land x 128 =? 0); [|exact Hc].
  specialize (IH input' (data + Z.land x 127 * shift + Z.shiftl shift 7)
                 (Z.shiftl shift 7)).
  destruct (_decode_number_loop fuel input' _ _) as [[v p]| |]; try exact I.
  cbn [ensures snd] in *. congruence.
Qed.

Section RunInvariant.

Variable src : list Z.
Hypothesis src_bytes : Forall is_byte src.

Lemma read_from_run_ok (r : Readable) (n : Z) (m : Streams) :
  run_ok src m ->
  Forall is_byte (fst (read_from r n m))
  /\ run_ok src (snd (read_from r n m)).
Proof.
  intros (Hs & Hr & Hp & Ht). destruct r; cbn [read_from].
  - pose proof (reads_prefix_read src src_bytes _ n Hs) as Hs'.
    assert (Hb : Forall is_byte (content (buffer (source (state m)))))
      by (destruct Hs as [-> _]; assumption).
    destruct (read_bytes _ n Hb) as [Hd _].
    destruct (read (source (state m)) n) as [data s].
    cbn [fst snd] in *. split; [assumption|].
    exact (conj Hs' (conj Hr (conj Hp Ht))).
  - destruct (read_bytes _ n Hp) as [Hd Hc].
    destruct (read (patch (state m)) n) as [data p].
    cbn [fst snd] in *. split; [assumption|].
    rewrite <- Hc in Hp. exact (conj Hs (conj Hr (conj Hp Ht))).
  - destruct (io_read_bytes n _ Hr) as [Hd Hc].
    destruct (io_read n (source_rel m)) as [data f].
    cbn [fst snd] in *. split; [assumption|].
    rewrite <- Hc in Hr. exact (conj Hs (conj Hr (conj Hp Ht))).
  - assert (Hb : Forall is_byte (content (target_rel_io m)))
      by apply Ht.
    destruct (io_read_bytes n _ Hb) as [Hd _].
    destruct (io_read n (target_rel_io m)) as [data f].
    cbn [fst snd] in *. split; [assumption|].
    exact (conj Hs (conj Hr (conj Hp Ht))).
Qed.

Lemma write_target_run_ok (data : list Z) (m : Streams) :
  run_ok src m -> Forall is_byte data -> run_ok src (write_target data m).
Proof.
  intros (Hs & Hr & Hp & Ht) Hd.
  exact (conj Hs (conj Hr (conj Hp (write_writes_file _ _ Ht Hd)))).
Qed.

Lemma _buffered_copy_run_ok (fuel : nat) :
  forall source length buffer_size m,
    run_ok src m ->
    ensures (run_ok src) (_buffered_copy fuel source length buffer_size m).
Proof.
  induction fuel as [|fuel IH]; intros source length bs m H;
    cbn [_buffered_copy]; destruct (0 <? length); try exact I;
    try exact H.
  destruct (read_from_run_ok source (Z.min length bs) m H) as [Hd H1].
  destruct (read_from source (Z.min length bs) m) as [b m'].
  apply IH. now apply write_target_run_ok.
Qed.

Lemma target_copy_bytewise_run_ok (n : nat) :
  forall m, run_ok src m -> run_ok src (target_copy_bytewise n m).
Proof.
  induction n as [|n IH]; intros m H; cbn [target_copy_bytewise];
    [exact H|].
  destruct (read_from_run_ok the_target_rel 1 m H) as [Hd H1].
  destruct (read_from the_target_rel 1 m) as [b m'].
  apply IH. now apply write_target_run_ok.
Qed.

Lemma with_patch_run_ok (m : Streams) (p : _ReadState) :
  run_ok src m ->
  content (buffer p) = content (buffer (patch (state m))) ->
  run_ok src (with_patch m p).
Proof.
  intros (Hs & Hr & Hp & Ht) Hc. rewrite <- Hc in Hp.
  exact (conj Hs (conj Hr (conj Hp Ht))).
Qed.

Lemma decode_run_ok (fuel : nat) (m : Streams) :
  run_ok src m ->
  ensures (fun r => run_ok src (with_patch m (snd r)))
          (_decode_number fuel (patch (state m))).
Proof.
  intros H. unfold _decode_number.
  pose proof (_decode_number_loop_content fuel (patch (state m)) 0 1) as Hc.
  destruct (_decode_number_loop fuel _ 0 1) as [[v p]| |]; try exact I.
  cbn [ensures snd] in *. now apply with_patch_run_ok.
Qed.

Lemma _patch_instruction_run_ok (fuel : nat) (base : Z) (m : Streams) :
  run_ok src m -> ensures (run_ok src) (_patch_instruction fuel base m).
Proof.
  intros H. unfold _patch_instruction.
  eapply ensures_bind; [apply (decode_run_ok fuel m H)|].
  intros [data p] H1. cbn [snd] in H1.
  destruct (Z.land data 3 =? 0); [now apply _buffered_copy_run_ok|].
  destruct (Z.land data 3 =? 1); [now apply _buffered_copy_run_ok|].
  destruct (Z.land data 3 =? 2).
  { eapply ensures_bind; [apply (decode_run_ok fuel _ H1)|].
    intros [d p'] H2. cbn [snd] in H2.
    destruct (io_seek_cur _ _) as [g| |] eqn:Eg; cbn [bind]; try exact I.
    apply io_seek_cur_value in Eg. destruct Eg as [-> _].
    apply _buffered_copy_run_ok.
    destruct H2 as (Hs & Hr & Hp & Ht).
    exact (conj Hs (conj Hr (conj Hp Ht))). }
  destruct (Z.land data 3 =? 3); [|exact I].
  eapply ensures_bind; [apply (decode_run_ok fuel _ H1)|].
  intros [d p'] H2. cbn [snd] in H2.
  destruct (io_seek_cur _ _) as [g| |]; cbn [bind]; try exact I.
  destruct (_ >? _).
  - apply _buffered_copy_run_ok. exact H2.
  - apply target_copy_bytewise_run_ok. exact H2.
Qed.

Lemma _patch_loop_run_ok (gas : nat) :
  forall fuel patch_end base m,
    run_ok src m ->
    ensures (run_ok src) (_patch_loop fuel gas patch_end base m).
Proof.
  induction gas as [|gas IH]; intros fuel patch_end base m H;
    cbn [_patch_loop]; destruct (_ <? patch_end); try exact I;
    try exact H.
  eapply ensures_bind; [apply (_patch_instruction_run_ok _ _ _ H)|].
  intros m' H'. now apply IH.
Qed.

Lemma drain_chunks_prefix (gas : nat) :
  forall remaining_bytes s,
    reads_prefix src s ->
    ensures (reads_prefix src) (drain_chunks gas remaining_bytes s).
Proof.
  induction gas as [|gas IH]; intros n s H; cbn [drain_chunks];
    destruct (0 <? n); try exact I; try exact H.
  pose proof (reads_prefix_read src src_bytes s (Z.min n _BUFFER_SIZE) H)
    as H1.
  destruct (read s _) as [b s']. now apply IH.
Qed.

Lemma drain_source_prefix (gas : nat) :
  forall fuel source_size s,
    reads_prefix src s ->
    ensures (reads_prefix src) (drain_source fuel gas source_size s).
Proof.
  induction gas as [|gas IH]; intros fuel source_size s H;
    cbn [drain_source]; destruct (_ <? source_size); try exact I;
    try exact H.
  eapply ensures_bind; [apply (drain_chunks_prefix _ _ _ H)|].
  intros s' H'. now apply IH.
Qed.

Lemma pad_chunks_writes_file (gas : nat) :
  forall remaining_bytes t,
    writes_file t -> ensures writes_file (pad_chunks gas remaining_bytes t).
Proof.
  induction gas as [|gas IH]; intros n t H; cbn [pad_chunks];
    destruct (0 <? n); try exact I; try exact H.
  apply IH. apply write_writes_file; [assumption|].
  apply Forall_firstn. unfold _EMPTY_DATA.
  apply Forall_forall. intros x Hx. apply repeat_spec in Hx. subst.
  unfold is_byte. lia.
Qed.

Lemma pad_target_writes_file (gas : nat) :
  forall fuel target_size t,
    writes_file t -> ensures writes_file (pad_target fuel gas target_size t).
Proof.
  induction gas as [|gas IH]; intros fuel target_size t H;
    cbn [pad_target]; destruct (_ <? target_size); try exact I;
    try exact H.
  eapply ensures_bind; [apply (pad_chunks_writes_file _ _ _ H)|].
  intros t' H'. now apply IH.
Qed.

Lemma _patch_complete_run_ok (fuel : nat) (ss ts : Z) (m : Streams) :
  run_ok src m -> ensures (run_ok src) (_patch_complete fuel ss ts m).
Proof.
  intros (Hs & Hr & Hp & Ht). unfold _patch_complete.
  eapply ensures_bind; [apply (drain_source_prefix fuel fuel ss _ Hs)|].
  intros s Hs'. cbn [with_source state source patch target].
  eapply ensures_bind; [apply (pad_target_writes_file fuel fuel ts _ Ht)|].
  intros t Ht'. exact (conj Hs' (conj Hr (conj Hp Ht'))).
Qed.

Lemma _patch_header_run_ok (fuel : nat) (patch_bytes : list Z) :
  Forall is_byte patch_bytes ->
  ensures (fun r => run_ok src (snd r))
          (_patch_header fuel (mkIO src 0) (mkIO src 0) (mkIO patch_bytes 0)
                         (mkIO [] 0) 0).
Proof.
  intros Hpb. unfold _patch_header.
  set (m0 := mkStreams _ _ _).
  assert (H0 : run_ok src m0).
  { split; [apply (reads_prefix_new src)|].
    split; [exact src_bytes|]. split; [exact Hpb|].
    repeat split. apply Forall_nil. }
  assert (Hr : forall n m, run_ok src m ->
                 run_ok src (with_patch m (snd (read (patch (state m)) n)))).
  { intros n m H. apply with_patch_run_ok; [assumption|].
    apply read_bytes. apply H. }
  pose proof (Hr 4 m0 H0) as H1.
  destruct (read (patch (state m0)) 4) as [magic p0]. cbn [snd] in H1.
  destruct (negb _); [exact I|].
  eapply ensures_bind; [apply (decode_run_ok fuel _ H1)|].
  intros [ss p1] H2. cbn [snd] in H2.
  eapply ensures_bind; [apply (decode_run_ok fuel _ H2)|].
  intros [ts p2] H3. cbn [snd] in H3.
  eapply ensures_bind; [apply (decode_run_ok fuel _ H3)|].
  intros [ms p3] H4. cbn [snd] in H4.
  pose proof (Hr ms _ H4) as H5.
  unfold read_checked. destruct (_ <? ms); [exact I|]. cbn [bind].
  destruct (read (patch (state _)) ms) as [md p4]. exact H5.
Qed.

Lemma _patch_body_run_ok (fuel : nat) (patch_bytes : list Z)
    (patch_size : Z) :
  Forall is_byte patch_bytes ->
  ensures (fun r => run_ok src (snd r))
          (_patch_body fuel (mkIO src 0) (mkIO src 0) (mkIO patch_bytes 0)
                       patch_size (mkIO [] 0) 0).
Proof.
  intros Hpb. unfold _patch_body.
  eapply ensures_bind; [apply (_patch_header_run_ok fuel _ Hpb)|].
  intros [[[ss ts] md] m0] H0. cbn [snd] in H0.
  eapply ensures_bind; [apply (_patch_loop_run_ok _ _ _ _ _ H0)|].
  intros m1 H1.
  eapply ensures_bind; [apply (_patch_complete_run_ok _ _ _ _ H1)|].
  intros m2 H2. exact H2.
Qed.

End RunInvariant.

Lemma patch_returns_run_ok (fuel : nat) (source_file patch_bytes : list Z)
    (patch_size : option Z) (skip_checksum : bool)
    (r : PatchResult) (m : Streams) :
  Forall is_byte source_file ->
  Forall is_byte patch_bytes ->
  Api.patch fuel source_file patch_bytes patch_size skip_checksum = Ok (r, m) ->
  reads_prefix source_file (source (state m))
  /\ writes_file (target (state m))
  /\ source_size r <= position (source (state m))
  /\ target_size r <= position (target (state m))
  /\ (skip_checksum = false ->
      source_checksum r = checksum (source (state m))
      /\ target_checksum r = checksum (target (state m))).
Proof.
  intros Hs Hp Hrun. unfold Api.patch in Hrun.
  rewrite _patch_body_trailer in Hrun. cbn [content] in Hrun.
  pose proof (_patch_body_run_ok source_file Hs fuel patch_bytes
                (match patch_size with
                 | Some n => n
                 | None => len patch_bytes
                 end) Hp) as Hok.
  destruct (_patch_body _ _ _ _ _ _ _) as [[[[ss ts] md] m0]| |] eqn:Hb;
    cbn [bind] in Hrun; try discriminate Hrun.
  cbn [ensures snd] in Hok.
  destruct (_patch_body_reaches _ _ _ _ _ _ _ _ _ _ _ Hb) as [Hss Hts].
  apply _patch_trailer_result in Hrun.
  destruct Hrun as (-> & -> & _ & Es & Et & Hv).
  rewrite Es, Et. destruct Hok as (Hsrc & _ & _ & Htgt).
  split; [exact Hsrc|]. split; [exact Htgt|].
  split; [exact Hss|]. split; [exact Hts|].
  intros Hskip. destruct (Hv Hskip) as (H1 & H2 & _). split; congruence.
Qed.

(** The body of a run leaves the patch cursor within the patch file,
    with the CRC-32 of what it read. *)
Lemma _patch_body_patch_ok (fuel : nat) (patch_bytes : list Z)
    (source_abs source_rel target_abs : BinaryIO) (patch_size target_rel : Z) :
  Forall is_byte patch_bytes ->
  ensures (fun r => patch_ok patch_bytes (snd r))
          (_patch_body fuel source_abs source_rel (mkIO patch_bytes 0)
                       patch_size target_abs target_rel).
Proof.
  intros Hpb. unfold _patch_body.
  eapply ensures_bind;
    [apply (_patch_header_patch_ok patch_bytes Hpb)|].
  intros [[[ss ts] md] m0] H0. cbn [snd] in H0.
  eapply ensures_bind;
    [apply (_patch_loop_patch_ok patch_bytes Hpb _ _ _ _ _ H0)|].
  intros m1 H1.
  eapply ensures_bind;
    [apply (_patch_complete_patch_ok patch_bytes _ _ _ _ H1)|].
  intros m2 H2. exact H2.
Qed.

(** The checksums of the result of [patch] in the bytes of the patch
    file: they are the twelve bytes that follow the position [p] of the
    patch cursor after the instructions, four by four, and the cursor
    goes over the first eight. *)
Lemma patch_returns_trailer (fuel : nat) (source_file patch_bytes : list Z)
    (patch_size : option Z) (skip_checksum : bool)
    (r : PatchResult) (m : Streams) :
  Forall is_byte patch_bytes ->
  Api.patch fuel source_file patch_bytes patch_size skip_checksum = Ok (r, m) ->
  exists m0,
    _patch_body fuel (mkIO source_file 0) (mkIO source_file 0)
                (mkIO patch_bytes 0)
                (match patch_size with
                 | Some n => n
                 | None => len patch_bytes
                 end) (mkIO [] 0) 0
    = Ok (source_size r, target_size r, metadata r, m0)
    /\ 0 <= position (patch (state m0)) <= len patch_bytes
    /\ let p := Z.to_nat (position (patch (state m0))) in
       source_checksum r
       = int_from_bytes_little (firstn 4 (skipn p patch_bytes))
       /\ target_checksum r
          = int_from_bytes_little (firstn 4 (skipn (p + 4) patch_bytes))
       /\ patch_checksum r
          = int_from_bytes_little (firstn 4 (skipn (p + 8) patch_bytes))
       /\ position (patch (state m))
          = Z.min (position (patch (state m0)) + 8) (len patch_bytes).
Proof.
  intros Hpb Hrun. unfold Api.patch in Hrun.
  rewrite _patch_body_trailer in Hrun. cbn [content] in Hrun.
  pose proof (_patch_body_patch_ok fuel patch_bytes (mkIO source_file 0)
                (mkIO source_file 0) (mkIO [] 0)
                (match patch_size with
                 | Some n => n
                 | None => len patch_bytes
                 end) 0 Hpb) as Hok.
  destruct (_patch_body _ _ _ _ _ _ _) as [[[[ss ts] md] m0]| |] eqn:Hb;
    cbn [bind] in Hrun; try discriminate Hrun.
  cbn [ensures snd] in Hok. destruct Hok as (Hc & Hp & Hr & _).
  pose proof (_patch_trailer_result _ _ _ _ _ _ _ Hrun)
    as (-> & -> & -> & _).
  assert (Hpos0 : 0 <= pos (buffer (patch (state m0)))) by lia.
  destruct (_patch_trailer_reads _ _ _ _ _ _ _ Hpos0 Hrun)
    as (E1 & E2 & E3 & E4).
  unfold remaining in E1, E2, E3, E4. rewrite Hc, Hp in E1, E2, E3, E4.
  rewrite skipn_skipn in E2, E3.
  exists m0. split; [reflexivity|]. split; [exact Hr|]. cbn zeta.
  rewrite (Nat.add_comm _ 4), (Nat.add_comm _ 8).
  split; [exact E1|]. split; [exact E2|]. split; [exact E3|].
  rewrite E4. unfold len in *. rewrite length_firstn, length_skipn. lia.
Qed.

(** X12: in a run of [patch] that returns (the files being bytes), the
    target file is exactly what went through the target cursor: its
    length is the position of the cursor and at least [target_size], and
    the running target checksum is the CRC-32 of the whole file.  The
    target checksum of the result is the second field of the trailer: the
    four bytes of the patch file (fewer when it ends before) that begin
    four bytes after the position of the patch cursor when the
    instructions are done, which are the four bytes before the last four
    when the instructions end where the trailer begins.  When the run
    verifies, the CRC-32 of the target file is that field. *)
Theorem returned_target_checksum
    (fuel : nat) (source_file patch_bytes : list Z) (patch_size : option Z)
    (skip_checksum : bool) (r : PatchResult) (m : Streams) :
  Forall is_byte source_file ->
  Forall is_byte patch_bytes ->
  Api.patch fuel source_file patch_bytes patch_size skip_checksum = Ok (r, m) ->
  len (target_file m) = position (target (state m))
  /\ target_size r <= len (target_file m)
  /\ Forall is_byte (target_file m)
  /\ checksum (target (state m)) = crc32 (target_file m) 0
  /\ (skip_checksum = false ->
      target_checksum r = crc32 (target_file m) 0)
  /\ (exists m0,
        _patch_body fuel (mkIO source_file 0) (mkIO source_file 0)
                    (mkIO patch_bytes 0)
                    (match patch_size with
                     | Some n => n
                     | None => len patch_bytes
                     end) (mkIO [] 0) 0
        = Ok (source_size r, target_size r, metadata r, m0)
        /\ target_checksum r
           = int_from_bytes_little
               (firstn 4 (skipn (Z.to_nat (position (patch (state m0))) + 4)
                                patch_bytes)))
  /\ (position (patch (state m)) = len patch_bytes - 4 ->
      target_checksum r
      = int_from_bytes_little
          (firstn 4 (skipn (length patch_bytes - 8) patch_bytes))).
Proof.
  intros Hs Hp Hrun.
  destruct (patch_returns_run_ok _ _ _ _ _ _ _ Hs Hp Hrun)
    as (_ & (Hpos & Hposition & Hbytes & Hk) & _ & Hts & Hv).
  destruct (patch_returns_trailer _ _ _ _ _ _ _ Hp Hrun)
    as (m0 & Hb & Hr & _ & E2 & _ & E4).
  unfold target_file. rewrite <- Hposition.
  repeat split; try assumption; try lia.
  - intros Hskip. destruct (Hv Hskip) as [_ H]. congruence.
  - exists m0. split; [exact Hb|exact E2].
  - intros Hq. rewrite E2. do 3 f_equal. unfold len in *. lia.
Qed.

Lemma returned_target_checksum_witness :
  exists r m,
    Api.patch 1 [] hello_patch None false = Ok (r, m)
    /\ target_checksum r = crc32 (target_file m) 0
    /\ target_checksum r
       = int_from_bytes_little (firstn 4 (skipn 17 hello_patch)).
Proof.
  do 2 eexists.
  assert (Hrun : Api.patch 1 [] hello_patch None false = Ok _)
    by (vm_compute; reflexivity).
  split; [exact Hrun|].
  destruct (returned_target_checksum 1 [] hello_patch None false _ _
              (Forall_nil _) hello_patch_bytes Hrun)
    as (_ & _ & _ & _ & H & _ & H').
  split; [exact (H eq_refl)|]. apply H'. reflexivity.
Defined.

(** X13: in a run of [patch] that returns (the files being bytes), the
    source cursor has read a prefix of the source file that is at least
    [source_size] long, so the source file is at least that long, and the
    running source checksum is the CRC-32 of that prefix.  The source
    checksum of the result is the first field of the trailer: the four
    bytes of the patch file (fewer when it ends before) at the position
    of the patch cursor when the instructions are done, which are the
    first four of the last twelve when the instructions end where the
    trailer begins.  When the run verifies, the CRC-32 of the prefix read
    is that field. *)
Theorem returned_source_checksum
    (fuel : nat) (source_file patch_bytes : list Z) (patch_size : option Z)
    (skip_checksum : bool) (r : PatchResult) (m : Streams) :
  Forall is_byte source_file ->
  Forall is_byte patch_bytes ->
  Api.patch fuel source_file patch_bytes patch_size skip_checksum = Ok (r, m) ->
  let read_bytes :=
    firstn (Z.to_nat (position (source (state m)))) source_file in
  source_size r <= position (source (state m)) <= len source_file
  /\ checksum (source (state m)) = crc32 read_bytes 0
  /\ (skip_checksum = false -> source_checksum r = crc32 read_bytes 0)
  /\ (exists m0,
        _patch_body fuel (mkIO source_file 0) (mkIO source_file 0)
                    (mkIO patch_bytes 0)
                    (match patch_size with
                     | Some n => n
                     | None => len patch_bytes
                     end) (mkIO [] 0) 0
        = Ok (source_size r, target_size r, metadata r, m0)
        /\ source_checksum r
           = int_from_bytes_little
               (firstn 4 (skipn (Z.to_nat (position (patch (state m0))))
                                patch_bytes)))
  /\ (position (patch (state m)) = len patch_bytes - 4 ->
      source_checksum r
      = int_from_bytes_little
          (firstn 4 (skipn (length patch_bytes - 12) patch_bytes))).
Proof.
  intros Hs Hp Hrun.
  destruct (patch_returns_run_ok _ _ _ _ _ _ _ Hs Hp Hrun)
    as ((_ & _ & Hr & Hk) & _ & Hss & _ & Hv).
  destruct (patch_returns_trailer _ _ _ _ _ _ _ Hp Hrun)
    as (m0 & Hb & Hr0 & E1 & _ & _ & E4).
  cbn zeta. repeat split; try assumption; try lia.
  - intros Hskip. destruct (Hv Hskip) as [H _]. congruence.
  - exists m0. split; [exact Hb|exact E1].
  - intros Hq. rewrite E1. do 3 f_equal. unfold len in *. lia.
Qed.

Lemma returned_source_checksum_witness :
  exists r m,
    Api.patch 2 (bytes_of "ABCDE") abcde_patch_0 None false = Ok (r, m)
    /\ source_size r <= position (source (state m)) <= 5
    /\ source_checksum r = crc32 (bytes_of "ABCDE") 0
    /\ source_checksum r
       = int_from_bytes_little (firstn 4 (skipn 10 abcde_patch_0)).
Proof.
  do 2 eexists.
  assert (Hrun : Api.patch 2 (bytes_of "ABCDE") abcde_patch_0 None false
                 = Ok _) by (vm_compute; reflexivity).
  split; [exact Hrun|].
  destruct (returned_source_checksum 2 (bytes_of "ABCDE") abcde_patch_0
              None false _ _
              ltac:(repeat (constructor; [unfold is_byte; cbn; lia|]);
                    constructor)
              ltac:(repeat (constructor; [unfold is_byte; lia|]);
                    constructor)
              Hrun) as (H1 & _ & H3 & _ & H5).
  split; [exact H1|]. split; [exact (H3 eq_refl)|]. apply H5. reflexivity.
Defined.

(** ** Termination *)

Lemma cursor_ok_read (file : list Z) (s : _ReadState) (n : Z) :
  cursor_ok file s ->
  cursor_ok file (snd (read s n))
  /\ position (snd (read s n)) = position s + len (fst (read s n)).
Proof.
  intros (Hc & Hp & Hr). unfold read.
  destruct (io_read_prefix n (buffer s)) as (j & Hd & Hj & Hb).
  destruct (io_read n (buffer s)) as [data b]. cbn [fst snd] in *.
  subst data b. unfold cursor_ok. cbn [buffer position content pos].
  unfold remaining in *. rewrite Hc, Hp in *.
  rewrite length_skipn in Hj. unfold len in *.
  rewrite length_firstn, length_skipn.
  repeat split; lia.
Qed.

(** With more fuel than the file has bytes, the decoder ends: in a number,
    with the cursor further on, or in [IndexError]. *)
Lemma _decode_number_loop_ends (file : list Z) (fuel : nat) :
  forall input data shift,
    cursor_ok file input ->
    len file - position input < Z.of_nat fuel ->
    match _decode_number_loop fuel input data shift with
    | Ok (_, p) => cursor_ok file p /\ position input < position p
    | Raise e => e = IndexError
    | OutOfFuel => False
    end.
Proof.
  induction fuel as [|fuel IH]; intros input data shift Hok Hfuel.
  - destruct Hok as (_ & _ & Hr). lia.
  - cbn [_decode_number_loop].
    destruct (cursor_ok_read file input 1 Hok) as [Hok' Hpos].
    destruct (read input 1) as [[|x bytes] input']; [reflexivity|].
    cbn [fst snd] in *.
    assert (Hstep : position input < position input')
      by (rewrite Hpos; unfold len; cbn [length]; lia).
    destruct (Z.land x 128 =? 0); [|now split].
    specialize (IH input' (data + Z.land x 127 * shift + Z.shiftl shift 7)
                   (Z.shiftl shift 7) Hok' ltac:(lia)).
    destruct (_decode_number_loop fuel input' _ _) as [[v p]|e|];
      [|assumption|assumption].
    destruct IH. split; [assumption|lia].
Qed.

Lemma _decode_number_ends (file : list Z) (fuel : nat) (input : _ReadState) :
  cursor_ok file input ->
  (length file < fuel)%nat ->
  match _decode_number fuel input with
  | Ok (_, p) => cursor_ok file p /\ position input < position p
  | Raise e => e = IndexError
  | OutOfFuel => False
  end.
Proof.
  intros Hok Hfuel. apply _decode_number_loop_ends; [assumption|].
  destruct Hok as (_ & _ & Hr). unfold len. lia.
Qed.

Lemma dis_instruction_ends (file : list Z) (fuel : nat) (reader : _ReadState) :
  cursor_ok file reader ->
  (length file < fuel)%nat ->
  match dis_instruction fuel reader with
  | Ok (_, r) => cursor_ok file r /\ position reader < position r
  | Raise _ => True
  | OutOfFuel => False
  end.
Proof.
  intros Hok Hfuel. unfold dis_instruction.
  pose proof (_decode_number_ends file fuel reader Hok Hfuel) as H1.
  destruct (_decode_number fuel reader) as [[data r1]|e|]; cbn [bind];
    [|exact I|assumption].
  destruct H1 as [Hok1 Hlt1]. pose proof (command_range data) as Hcmd.
  destruct (Z.eqb_spec (Z.land data 3) 0) as [E0|N0]; [now split|].
  destruct (Z.eqb_spec (Z.land data 3) 1) as [E1|N1].
  { destruct (cursor_ok_read file r1 (Z.shiftr data 2 + 1) Hok1)
      as [Hok2 Hpos2].
    unfold read_checked. destruct (_ <? _); [exact I|]. cbn [bind].
    destruct (read r1 _) as [literal r2]. cbn [fst snd] in *.
    split; [assumption|]. unfold len in Hpos2. lia. }
  pose proof (_decode_number_ends file fuel r1 Hok1 Hfuel) as H2.
  destruct (Z.eqb_spec (Z.land data 3) 2) as [E2|N2].
  { destruct (_decode_number fuel r1) as [[d r2]|e|]; cbn [bind];
      [|exact I|assumption].
    destruct H2. split; [assumption|lia]. }
  destruct (Z.eqb_spec (Z.land data 3) 3) as [E3|N3]; [|lia].
  destruct (_decode_number fuel r1) as [[d r2]|e|]; cbn [bind];
    [|exact I|assumption].
  destruct H2. split; [assumption|lia].
Qed.

Lemma dis_loop_ends (file : list Z) (gas : nat) :
  forall fuel patch_end reader,
    cursor_ok file reader ->
    (length file < fuel)%nat ->
    len file - position reader < Z.of_nat gas ->
    match dis_loop fuel gas patch_end reader with
    | Ok (_, r) => cursor_ok file r
    | Raise _ => True
    | OutOfFuel => False
    end.
Proof.
  induction gas as [|gas IH]; intros fuel patch_end reader Hok Hfuel Hgas.
  - destruct Hok as (_ & _ & Hr). lia.
  - cbn [dis_loop]. destruct (_ <? patch_end); [|assumption].
    pose proof (dis_instruction_ends file fuel reader Hok Hfuel) as H1.
    destruct (dis_instruction fuel reader) as [[line r1]|e|]; cbn [bind];
      [|exact I|assumption].
    destruct H1 as [Hok1 Hlt1].
    specialize (IH fuel patch_end r1 Hok1 Hfuel ltac:(lia)).
    destruct (dis_loop fuel gas patch_end r1) as [[lines r2]|e|]; cbn [bind];
      assumption.
Qed.

(** X14: [dis] always ends: with more fuel than the patch file has
    bytes it gives its answer, the lines or an exception, whatever the
    bytes and the size it is given, and more fuel does not change the
    answer (every turn of its loop reads at least one byte of the
    patch). *)
Theorem dis_ends (fuel : nat) (patch_bytes : list Z) (patch_size : Z) :
  (length patch_bytes < fuel)%nat ->
  dis fuel (mkIO patch_bytes 0) patch_size <> OutOfFuel
  /\ forall fuel',
       (fuel <= fuel')%nat ->
       dis fuel' (mkIO patch_bytes 0) patch_size
       = dis fuel (mkIO patch_bytes 0) patch_size.
Proof.
  intros Hfuel.
  assert (Hends : dis fuel (mkIO patch_bytes 0) patch_size <> OutOfFuel).
  { unfold dis.
    assert (H0 : cursor_ok patch_bytes (new_ReadState (mkIO patch_bytes 0)))
      by (unfold cursor_ok, len; cbn; repeat split; lia).
    destruct (cursor_ok_read patch_bytes _ 4 H0) as [H1 _].
    destruct (read (new_ReadState (mkIO patch_bytes 0)) 4) as [magic r0].
    cbn [snd] in H1.
    pose proof (_decode_number_ends _ fuel r0 H1 Hfuel) as D1.
    destruct (_decode_number fuel r0) as [[ss r1]|e|]; cbn [bind];
      [|discriminate|contradiction].
    destruct D1 as [H2 _].
    pose proof (_decode_number_ends _ fuel r1 H2 Hfuel) as D2.
    destruct (_decode_number fuel r1) as [[ts r2]|e|]; cbn [bind];
      [|discriminate|contradiction].
    destruct D2 as [H3 _].
    pose proof (_decode_number_ends _ fuel r2 H3 Hfuel) as D3.
    destruct (_decode_number fuel r2) as [[ms r3]|e|]; cbn [bind];
      [|discriminate|contradiction].
    destruct D3 as [H4 _].
    destruct (cursor_ok_read patch_bytes _ ms H4) as [H5 _].
    unfold read_checked. destruct (_ <? ms); [discriminate|]. cbn [bind].
    destruct (read r3 ms) as [md r4]. cbn [snd] in H5.
    pose proof (dis_loop_ends patch_bytes fuel fuel (patch_size - 12) r4 H5
                  Hfuel) as DL.
    destruct (dis_loop fuel fuel (patch_size - 12) r4) as [[lines r5]|e|];
      cbn [bind].
    - destruct (read r5 4) as [b1 r6]. destruct (read r6 4) as [b2 r7].
      destruct (io_read 4 (buffer r7)) as [b3 f]. discriminate.
    - discriminate.
    - exfalso. apply DL. destruct H5 as (_ & _ & Hr). unfold len in *. lia. }
  split; [exact Hends|].
  intros fuel' Hle.
  exact (approx_finished _ _ (dis_mono fuel fuel' _ patch_size Hle) Hends).
Qed.

Lemma dis_ends_witness :
  dis 26 (mkIO hello_patch 0) 25 <> OutOfFuel
  /\ forall fuel',
       (26 <= fuel')%nat ->
       dis fuel' (mkIO hello_patch 0) 25 = dis 26 (mkIO hello_patch 0) 25.
Proof.
  apply (dis_ends 26 hello_patch 25). simpl. lia.
Defined.

Lemma read_full (file : list Z) (s : _ReadState) (n : Z) :
  cursor_ok file s ->
  0 <= n <= len file - position s ->
  len (fst (read s n)) = n.
Proof.
  intros (Hc & Hp & Hr) Hn. unfold read, io_read, remaining.
  destruct (Z.ltb_spec n 0); [lia|]. cbn [fst].
  rewrite Hc, Hp. unfold len in *.
  rewrite length_firstn, length_skipn. lia.
Qed.

Lemma io_seek_cur_ends (offset : Z) (f : BinaryIO) :
  io_seek_cur offset f <> OutOfFuel.
Proof.
  unfold io_seek_cur. destruct (_ && _); [discriminate|].
  destruct (fits_off_t offset); discriminate.
Qed.

Lemma ends_with_finished {A : Type} (Q : A -> Prop) (r : result A) :
  ends_with Q r -> r <> OutOfFuel.
Proof.
  destruct r; simpl; intros H; [discriminate|discriminate|contradiction].
Qed.

Section Termination.

Variable file src : list Z.

Lemma read_from_cursors_ok (r : Readable) (n : Z) (m : Streams) :
  cursors_ok file src m ->
  cursors_ok file src (snd (read_from r n m))
  /\ position (patch (state m))
     <= position (patch (state (snd (read_from r n m)))).
Proof.
  intros (Hp & Hs & Ht). destruct r; cbn [read_from].
  - destruct (cursor_ok_read src _ n Hs) as [Hs' _].
    destruct (read (source (state m)) n) as [data s]. cbn [snd] in *.
    split; [exact (conj Hp (conj Hs' Ht))|cbn; lia].
  - destruct (cursor_ok_read file _ n Hp) as [Hp' Hpos].
    destruct (read (patch (state m)) n) as [data p]. cbn [fst snd] in *.
    split; [exact (conj Hp' (conj Hs Ht))|].
    cbn [with_patch state patch]. unfold len in Hpos. lia.
  - destruct (io_read n (source_rel m)) as [data f]. cbn [snd].
    split; [exact (conj Hp (conj Hs Ht))|cbn; lia].
  - destruct (io_read n (target_rel_io m)) as [data f]. cbn [snd].
    split; [exact (conj Hp (conj Hs Ht))|cbn; lia].
Qed.

Lemma write_target_cursors_ok (data : list Z) (m : Streams) :
  cursors_ok file src m ->
  cursors_ok file src (write_target data m).
Proof.
  intros (Hp & Hs & Ht).
  destruct (write_at_end (target (state m)) data Ht) as (_ & Ht' & _).
  exact (conj Hp (conj Hs Ht')).
Qed.

Lemma _buffered_copy_ends (fuel : nat) :
  forall r length buffer_size m,
    cursors_ok file src m ->
    0 < buffer_size ->
    length <= buffer_size * Z.of_nat fuel ->
    ends_with (fun m' => cursors_ok file src m'
                         /\ position (patch (state m))
                            <= position (patch (state m')))
              (_buffered_copy fuel r length buffer_size m).
Proof.
  induction fuel as [|fuel IH]; intros r length bs m Hok Hbs Hfuel;
    cbn [_buffered_copy]; destruct (Z.ltb_spec 0 length) as [Hlen|Hlen];
    try (exfalso; lia); try (split; [assumption|lia]).
  destruct (read_from_cursors_ok r (Z.min length bs) m Hok) as [Hok1 Hle1].
  destruct (read_from r (Z.min length bs) m) as [b m1]. cbn [snd] in *.
  pose proof (write_target_cursors_ok b m1 Hok1) as Hok2.
  specialize (IH r (length - bs) bs (write_target b m1) Hok2 Hbs ltac:(lia)).
  destruct (_buffered_copy fuel r (length - bs) bs (write_target b m1))
    as [m'| |]; cbn [ends_with] in *; auto.
  destruct IH as [H1 H2]. split; [assumption|].
  change (position (patch (state (write_target b m1))))
    with (position (patch (state m1))) in H2. lia.
Qed.

Lemma target_copy_bytewise_cursors_ok (n : nat) :
  forall m,
    cursors_ok file src m ->
    cursors_ok file src (target_copy_bytewise n m)
    /\ position (patch (state m))
       <= position (patch (state (target_copy_bytewise n m))).
Proof.
  induction n as [|n IH]; intros m Hok; cbn [target_copy_bytewise];
    [split; [assumption|lia]|].
  destruct (read_from_cursors_ok the_target_rel 1 m Hok) as [Hok1 Hle1].
  destruct (read_from the_target_rel 1 m) as [b m1]. cbn [snd] in *.
  destruct (IH _ (write_target_cursors_ok b m1 Hok1)) as [H1 H2].
  split; [assumption|].
  change (position (patch (state (write_target b m1))))
    with (position (patch (state m1))) in H2. lia.
Qed.

(** One instruction ends, once the fuel exceeds the length of the patch
    file and the length of the copy. *)
Lemma _patch_instruction_ends (base : Z) (m : Streams) :
  cursors_ok file src m ->
  exists fuel,
    ends_with (fun m' => cursors_ok file src m'
                         /\ position (patch (state m))
                            < position (patch (state m')))
              (_patch_instruction fuel base m).
Proof.
  intros (Hp & Hs & Ht).
  set (f1 := S (length file)).
  pose proof (_decode_number_ends file f1 _ Hp ltac:(unfold f1; lia)) as D1.
  destruct (_decode_number f1 (patch (state m))) as [[data p]|e|] eqn:E1;
    [|exists f1; unfold _patch_instruction; rewrite E1; exact I
     |contradiction].
  destruct D1 as [Hp1 Hlt1].
  set (length := Z.shiftr data 2 + 1).
  set (fuel := Nat.max f1 (Z.to_nat length)).
  exists fuel.
  assert (E : _decode_number fuel (patch (state m)) = Ok (data, p)).
  { eapply approx_value; [apply (_decode_number_mono f1 fuel)| |].
    - unfold fuel. lia.
    - exact E1.
    - discriminate. }
  unfold _patch_instruction. rewrite E. cbn [bind]. fold length.
  set (m1 := with_patch m p).
  assert (Hok1 : cursors_ok file src m1) by exact (conj Hp1 (conj Hs Ht)).
  assert (Hfuel : length <= Z.of_nat fuel) by (unfold fuel; lia).
  assert (Hcopy : forall r bs m2,
             cursors_ok file src m2 -> 0 < bs ->
             position (patch (state m1)) <= position (patch (state m2)) ->
             ends_with (fun m' => cursors_ok file src m'
                                  /\ position (patch (state m))
                                     < position (patch (state m')))
                       (_buffered_copy fuel r length bs m2)).
  { intros r bs m2 Hok2 Hbs Hle.
    pose proof (_buffered_copy_ends fuel r length bs m2 Hok2 Hbs
                  ltac:(nia)) as H.
    destruct (_buffered_copy fuel r length bs m2); cbn [ends_with] in *;
      auto.
    destruct H. split; [assumption|].
    change (position (patch (state m1))) with (position p) in Hle. lia. }
  assert (Hdec : forall (k : Z * _ReadState -> result Streams),
             (forall d p2, cursor_ok file p2 -> position p < position p2 ->
                ends_with (fun m' => cursors_ok file src m'
                                     /\ position (patch (state m))
                                        < position (patch (state m')))
                          (k (d, p2))) ->
             ends_with (fun m' => cursors_ok file src m'
                                  /\ position (patch (state m))
                                     < position (patch (state m')))
                       (bind (_decode_number fuel (patch (state m1))) k)).
  { intros k Hk.
    pose proof (_decode_number_ends file fuel _ Hp1
                  ltac:(unfold fuel, f1; lia)) as D2.
    change (patch (state m1)) with p.
    destruct (_decode_number fuel p) as [[d p2]|e|]; cbn [bind];
      [|exact I|contradiction].
    destruct D2. now apply Hk. }
  destruct (Z.eqb_spec (Z.land data 3) 0) as [E0|N0].
  { apply Hcopy; [assumption|unfold _BUFFER_SIZE; lia|lia]. }
  destruct (Z.eqb_spec (Z.land data 3) 1) as [E1'|N1].
  { apply Hcopy; [assumption|unfold _BUFFER_SIZE; lia|lia]. }
  destruct (Z.eqb_spec (Z.land data 3) 2) as [E2|N2].
  { apply Hdec. intros d p2 Hp2 Hlt2. cbn beta iota.
    destruct (io_seek_cur _ _) as [g| |] eqn:Eg; cbn [bind];
      [|exact I|apply io_seek_cur_ends in Eg; contradiction].
    apply Hcopy; [exact (conj Hp2 (conj Hs Ht))
                 |unfold _BUFFER_SIZE; lia|].
    change (position p <= position p2). lia. }
  destruct (Z.eqb_spec (Z.land data 3) 3) as [E3|N3].
  2:{ pose proof (command_range data). lia. }
  apply Hdec. intros d p2 Hp2 Hlt2. cbn beta iota.
  destruct (io_seek_cur _ _) as [g| |] eqn:Eg; cbn [bind];
    [|exact I|apply io_seek_cur_ends in Eg; contradiction].
  set (m3 := with_target_rel _ _).
  assert (Hok3 : cursors_ok file src m3) by exact (conj Hp2 (conj Hs Ht)).
  assert (Hle3 : position (patch (state m1)) <= position (patch (state m3)))
    by (change (position p <= position p2); lia).
  destruct (Z.gtb_spec (position (target (state m3)) - 8)
                       (io_tell (target_rel_io m3) - base)) as [Hb|Hb].
  - apply Hcopy; [assumption|unfold _BUFFER_SIZE; lia|assumption].
  - destruct (target_copy_bytewise_cursors_ok (Z.to_nat length) m3 Hok3)
      as [H1 H2].
    split; [assumption|].
    change (position (patch (state m1))) with (position p) in Hle3. lia.
Qed.

Lemma ends_with_more {A : Type} (Q : A -> Prop) (r r' : result A) :
  approx r r' -> ends_with Q r -> r' = r /\ ends_with Q r'.
Proof.
  intros Ha He.
  assert (E : r' = r)
    by (apply approx_finished; [assumption|eapply ends_with_finished; eauto]).
  now rewrite E.
Qed.

(** The instruction loop ends: every instruction moves the patch cursor
    on, and the cursor stays within the patch file. *)
Lemma _patch_loop_ends (patch_end base : Z) (n : nat) :
  forall m,
    cursors_ok file src m ->
    len file - position (patch (state m)) < Z.of_nat n ->
    exists fuel,
      ends_with (cursors_ok file src)
                (_patch_loop fuel fuel patch_end base m).
Proof.
  induction n as [|n IH]; intros m Hok Hn.
  - destruct Hok as ((_ & _ & Hr) & _). lia.
  - destruct (Z.ltb_spec (position (patch (state m))) patch_end)
      as [Hlt|Hge].
    2:{ exists 0%nat. cbn [_patch_loop].
        destruct (Z.ltb_spec (position (patch (state m))) patch_end);
          [lia|exact Hok]. }
    destruct (_patch_instruction_ends base m Hok) as [f1 H1].
    destruct (_patch_instruction f1 base m) as [m'|e|] eqn:E1;
      cbn [ends_with] in H1; [| |contradiction].
    + destruct H1 as [Hok' Hlt'].
      destruct (IH m' Hok' ltac:(lia)) as [f2 H2].
      set (F := Nat.max f1 (S f2)).
      assert (EF : _patch_instruction F base m = Ok m').
      { eapply approx_value;
          [apply (_patch_instruction_mono f1 F); unfold F; lia
          |exact E1|discriminate]. }
      destruct (ends_with_more _ _ (_patch_loop F f2 patch_end base m')
                  (_patch_loop_mono f2 f2 f2 F patch_end base m'
                     ltac:(unfold F; lia) ltac:(lia)) H2) as [E2 H2'].
      assert (H3 : ends_with (cursors_ok file src)
                             (_patch_loop F (S f2) patch_end base m)).
      { cbn [_patch_loop].
        destruct (Z.ltb_spec (position (patch (state m))) patch_end);
          [|lia].
        rewrite EF. cbn [bind]. exact H2'. }
      exists F.
      apply (ends_with_more _ _ (_patch_loop F F patch_end base m)
               (_patch_loop_mono (S f2) F F F patch_end base m
                  ltac:(lia) ltac:(unfold F; lia)) H3).
    + set (F := Nat.max f1 1).
      assert (EF : _patch_instruction F base m = Raise e).
      { eapply approx_value;
          [apply (_patch_instruction_mono f1 F); unfold F; lia
          |exact E1|discriminate]. }
      assert (H3 : ends_with (cursors_ok file src)
                             (_patch_loop F 1 patch_end base m)).
      { cbn [_patch_loop].
        destruct (Z.ltb_spec (position (patch (state m))) patch_end);
          [|lia].
        rewrite EF. exact I. }
      exists F.
      apply (ends_with_more _ _ (_patch_loop F F patch_end base m)
               (_patch_loop_mono 1 F F F patch_end base m
                  ltac:(lia) ltac:(unfold F; lia)) H3).
Qed.

Lemma drain_chunks_full (gas : nat) :
  forall n s,
    cursor_ok src s ->
    n <= len src - position s ->
    n <= _BUFFER_SIZE * Z.of_nat gas ->
    exists s',
      drain_chunks gas n s = Ok s'
      /\ cursor_ok src s'
      /\ position s' = position s + Z.max 0 n.
Proof.
  unfold _BUFFER_SIZE.
  induction gas as [|gas IH]; intros n s Hok Hn Hgas; cbn [drain_chunks];
    destruct (Z.ltb_spec 0 n) as [Hpos|Hpos]; try (exfalso; lia);
    try (exists s; repeat split; try apply Hok; lia).
  destruct (cursor_ok_read src s (Z.min n 8192) Hok) as [Hok' Hp].
  rewrite (read_full src s (Z.min n 8192) Hok ltac:(lia)) in Hp.
  unfold _BUFFER_SIZE.
  destruct (read s (Z.min n 8192)) as [b s1]. cbn [snd] in *.
  destruct (IH (n - 8192) s1 Hok' ltac:(lia) ltac:(lia))
    as (s' & Hrun & Hok2 & Hp2).
  exists s'. split; [exact Hrun|]. split; [exact Hok2|lia].
Qed.

(** The two completion loops end when the source file is as long as the
    header says. *)
Lemma _patch_complete_ends (ss ts : Z) (m : Streams) :
  cursors_ok file src m ->
  ss <= len src ->
  exists fuel m', _patch_complete fuel ss ts m = Ok m'.
Proof.
  intros (Hp & Hs & Ht) Hss.
  set (fuel := S (Z.to_nat ss
                  + Z.to_nat (ts - position (target (state m))))).
  exists fuel. unfold _patch_complete.
  assert (Hd : exists s, drain_source fuel fuel ss (source (state m)) = Ok s).
  { unfold fuel at 2. cbn [drain_source].
    destruct (Z.ltb_spec (position (source (state m))) ss) as [Hlt|Hge];
      [|eauto].
    destruct (drain_chunks_full fuel (ss - position (source (state m)))
                (source (state m)) Hs)
      as (s' & Hrun & Hok' & Hpos').
    { lia. }
    { destruct Hs as (_ & _ & Hr). unfold _BUFFER_SIZE, fuel. lia. }
    rewrite Hrun. cbn [bind]. exists s'.
    destruct (Z.to_nat ss + _)%nat; cbn [drain_source];
      destruct (Z.ltb_spec (position s') ss); try lia; reflexivity. }
  destruct Hd as [s ->]. cbn [bind].
  destruct (pad_target_pads fuel fuel ts
              (target (state (with_source m s))) Ht)
    as (t' & Hrun & _).
  { cbn [with_source state target]. unfold _BUFFER_SIZE, fuel. lia. }
  { unfold fuel. lia. }
  rewrite Hrun. cbn [bind]. eauto.
Qed.

Lemma _patch_header_ends (fuel : nat) :
  (length file < fuel)%nat ->
  ends_with (fun r => cursors_ok file src (snd r))
            (_patch_header fuel (mkIO src 0) (mkIO src 0) (mkIO file 0)
                           (mkIO [] 0) 0).
Proof.
  intros Hfuel. unfold _patch_header. cbn [state patch].
  assert (H0 : forall l, cursor_ok l (new_ReadState (mkIO l 0)))
    by (intros l; unfold cursor_ok, len; cbn; repeat split; lia).
  destruct (cursor_ok_read file _ 4 (H0 file)) as [H1 _].
  destruct (read (new_ReadState (mkIO file 0)) 4) as [magic p0].
  cbn [snd] in H1. destruct (negb _); [exact I|].
  cbn [with_patch state patch source target source_rel target_rel].
  pose proof (_decode_number_ends file fuel p0 H1 Hfuel) as D1.
  destruct (_decode_number fuel p0) as [[ss p1]|e|]; cbn [bind];
    [|exact I|contradiction].
  destruct D1 as [H2 _].
  pose proof (_decode_number_ends file fuel p1 H2 Hfuel) as D2.
  destruct (_decode_number fuel p1) as [[ts p2]|e|]; cbn [bind];
    [|exact I|contradiction].
  destruct D2 as [H3 _].
  pose proof (_decode_number_ends file fuel p2 H3 Hfuel) as D3.
  destruct (_decode_number fuel p2) as [[ms p3]|e|]; cbn [bind];
    [|exact I|contradiction].
  destruct D3 as [H4 _].
  destruct (cursor_ok_read file p3 ms H4) as [H5 _].
  unfold read_checked. destruct (_ <? ms); [exact I|]. cbn [bind].
  destruct (read p3 ms) as [md p4]. cbn [snd] in H5.
  exact (conj H5 (conj (H0 src) eq_refl)).
Qed.

End Termination.

Lemma _patch_trailer_ends (skip : bool) (ss ts : Z) (md : list Z)
    (m : Streams) :
  _patch_trailer skip ss ts md m <> OutOfFuel.
Proof.
  unfold _patch_trailer.
  repeat match goal with
         | |- (let (_, _) := ?x in _) <> _ => destruct x
         | |- (if ?c then _ else _) <> _ => destruct c
         end; discriminate.
Qed.

(** X15: [patch] ends whenever the source file is at least as long as
    the header of the patch says: there is an amount of fuel from which
    on the run gives one and the same answer, a result or an exception.
    (The one way not to end is the source drain on a source that is too
    short.) *)
Theorem patch_ends
    (source_file patch_bytes : list Z) (patch_size : option Z)
    (skip_checksum : bool) :
  (forall fuel ss ts md m,
      _patch_header fuel (mkIO source_file 0) (mkIO source_file 0)
                    (mkIO patch_bytes 0) (mkIO [] 0) 0
      = Ok (ss, ts, md, m) ->
      ss <= len source_file) ->
  exists fuel r,
    r <> OutOfFuel
    /\ forall fuel',
         (fuel <= fuel')%nat ->
         Api.patch fuel' source_file patch_bytes patch_size skip_checksum = r.
Proof.
  intros Hsize.
  assert (Hone : exists fuel,
             Api.patch fuel source_file patch_bytes patch_size skip_checksum
             <> OutOfFuel).
  { set (ps := match patch_size with
               | Some n => n
               | None => len patch_bytes
               end).
    assert (Hbody : exists fuel,
               _patch_body fuel (mkIO source_file 0) (mkIO source_file 0)
                           (mkIO patch_bytes 0) ps (mkIO [] 0) 0
               <> OutOfFuel).
    { set (f1 := S (length patch_bytes)).
      pose proof (_patch_header_ends patch_bytes source_file f1
                    ltac:(unfold f1; lia)) as Hh.
      destruct (_patch_header f1 _ _ _ _ _) as [[[[ss ts] md] m0]|e|] eqn:E1;
        cbn [ends_with snd] in Hh; [| |contradiction].
      2:{ exists f1. unfold _patch_body. rewrite E1. discriminate. }
      pose proof (Hsize _ _ _ _ _ E1) as Hss.
      destruct (_patch_loop_ends patch_bytes source_file (ps - 12)
                  (io_tell (target_rel_io m0))
                  (S (Z.to_nat (len patch_bytes))) m0 Hh)
        as [f2 Hl].
      { destruct Hh as ((_ & _ & Hr) & _). lia. }
      destruct (_patch_loop f2 f2 _ _ m0) as [m1|e|] eqn:E2;
        cbn [ends_with] in Hl; [| |contradiction].
      - destruct (_patch_complete_ends patch_bytes source_file ss ts m1 Hl Hss)
          as (f3 & m2 & E3).
        set (F := Nat.max f1 (Nat.max f2 f3)).
        exists F. unfold _patch_body.
        rewrite (approx_value _ _ _
                   (_patch_header_mono f1 F _ _ _ _ _
                      ltac:(unfold F; lia)) E1 ltac:(discriminate)).
        cbn [bind].
        rewrite (approx_value _ _ _
                   (_patch_loop_mono f2 F f2 F _ _ m0
                      ltac:(unfold F; lia) ltac:(unfold F; lia))
                   E2 ltac:(discriminate)).
        cbn [bind].
        rewrite (approx_value _ _ _
                   (_patch_complete_mono f3 F ss ts m1
                      ltac:(unfold F; lia)) E3 ltac:(discriminate)).
        discriminate.
      - set (F := Nat.max f1 f2).
        exists F. unfold _patch_body.
        rewrite (approx_value _ _ _
                   (_patch_header_mono f1 F _ _ _ _ _
                      ltac:(unfold F; lia)) E1 ltac:(discriminate)).
        cbn [bind].
        rewrite (approx_value _ _ _
                   (_patch_loop_mono f2 F f2 F _ _ m0
                      ltac:(unfold F; lia) ltac:(unfold F; lia))
                   E2 ltac:(discriminate)).
        discriminate. }
    destruct Hbody as [fuel Hb]. exists fuel. unfold Api.patch.
    rewrite _patch_body_trailer. cbn [content]. fold ps.
    destruct (_patch_body fuel _ _ _ ps _ _) as [[[[ss ts] md] m]|e|];
      cbn [bind]; [apply _patch_trailer_ends|discriminate|contradiction]. }
  destruct Hone as [fuel H]. exists fuel. eexists. split; [exact H|].
  intros fuel' Hle. eapply patch_more_fuel; eauto.
Qed.

Lemma patch_ends_witness :
  exists fuel r,
    r <> OutOfFuel
    /\ forall fuel',
         (fuel <= fuel')%nat ->
         Api.patch fuel' [] hello_patch None false = r.
Proof.
  apply (patch_ends [] hello_patch None false).
  intros fuel ss ts md m H.
  destruct fuel as [|fuel]; [discriminate H|].
  assert (E : _patch_header 1 (mkIO [] 0) (mkIO [] 0) (mkIO hello_patch 0)
                            (mkIO [] 0) 0 = Ok (ss, ts, md, m)).
  { destruct fuel as [|fuel]; [exact H|].
    assert (A := _patch_header_mono 1 (S (S fuel)) (mkIO [] 0) (mkIO [] 0)
                   (mkIO hello_patch 0) (mkIO [] 0) 0 ltac:(lia)).
    destruct A as [A|A]; [vm_compute in A; discriminate A|].
    now rewrite A. }
  vm_compute in E. inversion E. vm_compute. discriminate.
Defined.

(** ** [dis] reads the patch as [patch] does *)

Lemma reads_prefix_unique (file : list Z) (p q : _ReadState) :
  reads_prefix file p -> reads_prefix file q ->
  position p = position q -> p = q.
Proof.
  intros (Hc & Hp & _ & Hk) (Hc' & Hp' & _ & Hk') E.
  destruct p as [[c n] k x], q as [[c' n'] k' x']. cbn in *. subst.
  reflexivity.
Qed.

Lemma _decode_number_loop_nonneg (fuel : nat) :
  forall input data shift v p,
    Forall is_byte (content (buffer input)) ->
    0 <= data -> 0 < shift ->
    _decode_number_loop fuel input data shift = Ok (v, p) ->
    0 <= v.
Proof.
  induction fuel as [|fuel IH]; intros input data shift v p Hb Hd Hs H;
    [discriminate H|].
  cbn [_decode_number_loop] in H.
  destruct (read_bytes input 1 Hb) as [Hx Hc].
  destruct (read input 1) as [[|x bytes] input']; [discriminate H|].
  cbn [fst snd] in *. inversion Hx as [|? ? Hx0 _]; subst.
  assert (H127 : 0 <= Z.land x 127)
    by (apply Z.land_nonneg; right; lia).
  assert (Hsh : 0 < Z.shiftl shift 7)
    by (rewrite Z.shiftl_mul_pow2 by lia; lia).
  destruct (Z.land x 128 =? 0).
  - eapply IH; [rewrite Hc; exact Hb| | |exact H]; nia.
  - inversion H; subst. nia.
Qed.

Lemma _buffered_copy_patch_same (fuel : nat) :
  forall r length buffer_size m m',
    r <> state_patch ->
    _buffered_copy fuel r length buffer_size m = Ok m' ->
    patch (state m') = patch (state m).
Proof.
  induction fuel as [|fuel IH]; intros r length bs m m' Hr;
    cbn [_buffered_copy]; destruct (0 <? length); intros H;
    try discriminate H; try (now inversion H).
  assert (Hs : patch (state (snd (read_from r (Z.min length bs) m)))
               = patch (state m)).
  { destruct r; try contradiction; cbn [read_from];
      [destruct (read _ _)|destruct (io_read _ _)|destruct (io_read _ _)];
      reflexivity. }
  destruct (read_from r (Z.min length bs) m) as [b m1]. cbn [snd] in Hs.
  apply IH in H; [|assumption]. rewrite H. exact Hs.
Qed.

Lemma target_copy_bytewise_patch_same (n : nat) :
  forall m, patch (state (target_copy_bytewise n m)) = patch (state m).
Proof.
  induction n as [|n IH]; intros m; cbn [target_copy_bytewise];
    [reflexivity|].
  cbn [read_from]. destruct (io_read 1 (target_rel_io m)) as [b f].
  now rewrite IH.
Qed.

Lemma _patch_complete_patch_same (fuel : nat) (ss ts : Z) (m m' : Streams) :
  _patch_complete fuel ss ts m = Ok m' ->
  patch (state m') = patch (state m).
Proof.
  unfold _patch_complete. intros H.
  destruct (drain_source _ _ _ _); cbn [bind] in H; try discriminate H.
  destruct (pad_target _ _ _ _); cbn [bind] in H; try discriminate H.
  now inversion H.
Qed.

Section DisAgrees.

Variable file src : list Z.
Hypothesis file_bytes : Forall is_byte file.
Hypothesis src_bytes : Forall is_byte src.

(** After a TargetRead the patch cursor is where one read of [length]
    bytes leaves it. *)
Lemma target_read_cursor (fuel : nat) (length : Z) (m m' : Streams) :
  patch_ok file m -> run_ok src m ->
  0 <= length ->
  _buffered_copy fuel state_patch length _BUFFER_SIZE m = Ok m' ->
  patch (state m') = snd (read (patch (state m)) length).
Proof.
  intros Hp Hr Hlen Hrun.
  pose proof (_buffered_copy_patch_ok file file_bytes fuel state_patch
                length _BUFFER_SIZE m Hp) as Hp'.
  rewrite Hrun in Hp'. cbn [ensures] in Hp'.
  pose proof (reads_prefix_read file file_bytes _ length Hp) as Hq.
  apply (reads_prefix_unique file); [assumption|assumption|].
  set (G := Nat.max fuel (Z.to_nat length)).
  destruct (_buffered_copy_from_reader G state_patch length _BUFFER_SIZE m)
    as (m2 & Hrun2 & _ & _ & _ & Hpos & _).
  - discriminate.
  - destruct Hr as (_ & _ & _ & (H1 & H2 & _)). now split.
  - destruct Hp as (_ & Hpp & Hrr & _). cbn [reader_io]. lia.
  - unfold _BUFFER_SIZE. lia.
  - unfold _BUFFER_SIZE, G. lia.
  - assert (E : m2 = m').
    { assert (A : _buffered_copy G state_patch length _BUFFER_SIZE m = Ok m')
        by (eapply approx_value;
            [apply (_buffered_copy_mono fuel G); unfold G; lia
            |exact Hrun|discriminate]).
      rewrite Hrun2 in A. now inversion A. }
    subst m2. cbn [reader_io] in Hpos.
    destruct Hp' as (_ & Hpp' & _). destruct Hp as (Hc & Hpp & Hrr & _).
    assert (Hck : cursor_ok file (patch (state m)))
      by (repeat split; assumption || lia).
    destruct (cursor_ok_read file _ length Hck) as [_ Hpos2].
    destruct (io_read_next length (buffer (patch (state m))) Hlen
                ltac:(lia)) as (Hdata & _).
    assert (Hfst : fst (read (patch (state m)) length)
                   = fst (io_read length (buffer (patch (state m)))))
      by (unfold read; now destruct (io_read length _)).
    rewrite Hfst, Hdata in Hpos2. lia.
Qed.

Lemma instructions_agree (fuel : nat) (base : Z) (m m' : Streams)
    (line : dis_line) (r' : _ReadState) :
  patch_ok file m -> run_ok src m ->
  _patch_instruction fuel base m = Ok m' ->
  dis_instruction fuel (patch (state m)) = Ok (line, r') ->
  r' = patch (state m').
Proof.
  intros Hp Hr. unfold _patch_instruction, dis_instruction.
  pose proof (_decode_number_prefix file file_bytes fuel _ Hp) as Hp1.
  pose proof (decode_run_ok src fuel m Hr) as Hr1.
  assert (Hnn : forall v p, _decode_number fuel (patch (state m)) = Ok (v, p)
                            -> 0 <= v).
  { intros v p E. unfold _decode_number in E.
    eapply _decode_number_loop_nonneg; [| | |exact E]; try lia.
    destruct Hp as (-> & _). exact file_bytes. }
  destruct (_decode_number fuel (patch (state m))) as [[data p]| |];
    cbn [bind]; try discriminate.
  cbn [ensures snd] in Hp1, Hr1. specialize (Hnn data p eq_refl).
  destruct (Z.land data 3 =? 0).
  { intros H1 H2. inversion H2; subst.
    apply _buffered_copy_patch_same in H1; [|discriminate].
    now rewrite H1. }
  destruct (Z.land data 3 =? 1).
  { intros H1 H2.
    apply (target_read_cursor _ _ (with_patch m p) _ Hp1 Hr1) in H1.
    - rewrite H1. cbn [with_patch state patch].
      unfold read_checked in H2.
      destruct (_ <? _); [discriminate H2|]. cbn [bind] in H2.
      destruct (read p _). now inversion H2.
    - pose proof (Z.shiftr_nonneg data 2). lia. }
  destruct (Z.land data 3 =? 2).
  { change (patch (state (with_patch m p))) with p.
    destruct (_decode_number fuel p) as [[d p2]| |]; cbn [bind];
      try discriminate.
    destruct (io_seek_cur _ _) as [g| |]; cbn [bind]; try discriminate.
    intros H1 H2. inversion H2; subst.
    apply _buffered_copy_patch_same in H1; [|discriminate].
    now rewrite H1. }
  destruct (Z.land data 3 =? 3); [|discriminate].
  change (patch (state (with_patch m p))) with p.
  destruct (_decode_number fuel p) as [[d p2]| |]; cbn [bind];
    try discriminate.
  destruct (io_seek_cur _ _) as [g| |]; cbn [bind]; try discriminate.
  destruct (_ >? _); intros H1 H2; inversion H2; subst.
  - apply _buffered_copy_patch_same in H1; [|discriminate].
    now rewrite H1.
  - inversion H1. now rewrite target_copy_bytewise_patch_same.
Qed.

Lemma _buffered_copy_returned (fuel : nat) (r : Readable)
    (length : Z) (m m' : Streams) :
  r <> the_target_rel ->
  target_at_end m ->
  0 <= pos (reader_io r m) ->
  _buffered_copy fuel r length _BUFFER_SIZE m = Ok m' ->
  let copied := firstn (Z.to_nat length) (remaining (reader_io r m)) in
  target_file m' = target_file m ++ copied
  /\ pos (reader_io r m') = pos (reader_io r m) + len copied.
Proof.
  intros Hr Hend Hpos Hrun.
  pose proof (_buffered_copy_ok_fuel fuel r length _BUFFER_SIZE m m'
                ltac:(unfold _BUFFER_SIZE; lia) Hrun) as Hfuel.
  destruct (_buffered_copy_from_reader fuel r length _BUFFER_SIZE m Hr Hend
              Hpos ltac:(unfold _BUFFER_SIZE; lia) Hfuel)
    as (m2 & Hrun2 & Hfile & _ & _ & Hp & _).
  rewrite Hrun in Hrun2. inversion Hrun2; subst m2. now split.
Qed.

Lemma run_ok_target_at_end (m : Streams) :
  run_ok src m -> target_at_end m.
Proof. intros (_ & _ & _ & (H1 & H2 & _)). now split. Qed.

Lemma len_repeating_run (out : list Z) (off n : nat) :
  len (repeating_run out off n) = Z.of_nat n.
Proof. unfold len, repeating_run. now rewrite length_map, length_seq. Qed.

(** A TargetCopy that returns appended what it copied and left its
    cursor after what it read. *)
Lemma target_copy_returned (fuel : nat) (length off : Z) (m m' : Streams) :
  target_at_end m ->
  target_rel m = off ->
  0 <= off ->
  1 <= length ->
  (if position (target (state m)) - 8 >? io_tell (target_rel_io m) - 0
   then _buffered_copy fuel the_target_rel length
          (Z.min (position (target (state m)) - (io_tell (target_rel_io m) - 0))
                 _BUFFER_SIZE) m
   else Ok (target_copy_bytewise (Z.to_nat length) m)) = Ok m' ->
  exists copied,
    target_file m' = target_file m ++ copied
    /\ target_rel m' = off + len copied.
Proof.
  intros Hend Hrel Hoff Hlen.
  assert (Hposition : position (target (state m)) = len (target_file m))
    by apply Hend.
  unfold io_tell, target_rel_io. cbn [pos]. rewrite Hposition, Hrel, Z.sub_0_r.
  destruct (Z.gtb_spec (len (target_file m) - 8) off) as [Hbulk|Hbyte].
  - intros Hrun.
    set (G := Nat.max fuel (Z.to_nat length)).
    destruct (_buffered_copy_target_rel G length
                (Z.min (len (target_file m) - off) _BUFFER_SIZE) m Hend)
      as (m2 & Hrun2 & Hfile & _ & Hrel2).
    + lia.
    + rewrite Hrel. unfold _BUFFER_SIZE. lia.
    + unfold G. lia.
    + assert (E : m2 = m').
      { assert (A : _buffered_copy G the_target_rel length
                      (Z.min (len (target_file m) - off) _BUFFER_SIZE) m
                    = Ok m')
          by (eapply approx_value;
              [apply (_buffered_copy_mono fuel G); unfold G; lia
              |exact Hrun|discriminate]).
        rewrite Hrun2 in A. now inversion A. }
      subst m2. rewrite Hrel in Hfile, Hrel2.
      rewrite lz_copy_repeats in Hfile by (unfold len in *; lia).
      eexists. split; [exact Hfile|].
      rewrite Hrel2, len_repeating_run. lia.
  - intros Hrun. inversion Hrun; subst m'. clear Hrun.
    destruct (Z.lt_ge_cases off (len (target_file m))) as [Hin|Hout].
    + pose proof (target_copy_bytewise_spec (Z.to_nat length) m Hend
                    ltac:(lia)) as Hb.
      cbn zeta in Hb. destruct Hb as (Hfile & _ & Hrel2).
      rewrite Hrel in Hfile, Hrel2.
      rewrite lz_copy_repeats in Hfile by (unfold len in *; lia).
      eexists. split; [exact Hfile|].
      rewrite Hrel2, len_repeating_run. lia.
    + destruct (target_copy_bytewise_past_end (Z.to_nat length) m Hend
                  ltac:(lia)) as (Hfile & _ & Hrel2).
      exists []. rewrite app_nil_r. split; [exact Hfile|].
      rewrite Hrel2, Hrel. unfold len. cbn. lia.
Qed.

(** The line of an instruction shows what the instruction does. *)
Lemma instruction_shows (fuel : nat) (m m' : Streams)
    (line : dis_line) (r' : _ReadState) :
  patch_ok file m -> run_ok src m ->
  _patch_instruction fuel 0 m = Ok m' ->
  dis_instruction fuel (patch (state m)) = Ok (line, r') ->
  shows line m m'.
Proof.
  intros Hp Hr. unfold _patch_instruction, dis_instruction.
  pose proof (_decode_number_prefix file file_bytes fuel _ Hp) as Hp1.
  pose proof (decode_run_ok src fuel m Hr) as Hr1.
  assert (Hnn : forall v p, _decode_number fuel (patch (state m)) = Ok (v, p)
                            -> 0 <= v).
  { intros v p E. unfold _decode_number in E.
    eapply _decode_number_loop_nonneg; [| | |exact E]; try lia.
    destruct Hp as (-> & _). exact file_bytes. }
  destruct (_decode_number fuel (patch (state m))) as [[data p]| |];
    cbn [bind]; try discriminate.
  cbn [ensures snd] in Hp1, Hr1. specialize (Hnn data p eq_refl).
  assert (Hlen : 1 <= Z.shiftr data 2 + 1)
    by (pose proof (Z.shiftr_nonneg data 2); lia).
  set (length := Z.shiftr data 2 + 1) in *.
  set (m1 := with_patch m p) in *.
  pose proof (run_ok_target_at_end _ Hr1) as Hend1.
  destruct (Z.land data 3 =? 0).
  { intros H1 H2. inversion H2; subst. cbn [shows].
    apply (_buffered_copy_returned fuel state_source length m1 m').
    - discriminate.
    - exact Hend1.
    - destruct Hr1 as ((_ & Hq & Hrg & _) & _). cbn [reader_io]. lia.
    - exact H1. }
  destruct (Z.land data 3 =? 1).
  { intros H1 H2. unfold read_checked in H2.
    destruct (_ <? _); [discriminate H2|]. cbn [bind] in H2.
    assert (Hpos : 0 <= pos (buffer p))
      by (destruct Hp1 as (_ & Hq & Hrg & _); lia).
    destruct (read_next p length ltac:(lia) Hpos) as (Hd & _).
    destruct (read p length) as [literal r2]. cbn [fst] in Hd.
    inversion H2; subst line r'. cbn [shows].
    destruct (_buffered_copy_returned fuel state_patch length m1 m')
      as (Hfile & _).
    - discriminate.
    - exact Hend1.
    - exact Hpos.
    - exact H1.
    - split; [rewrite Hd; exact Hfile|].
      rewrite Hd. unfold len. rewrite length_firstn. lia. }
  destruct (Z.land data 3 =? 2).
  { change (patch (state m1)) with p.
    pose proof (decode_run_ok src fuel m1 Hr1) as Hr2.
    change (patch (state m1)) with p in Hr2.
    destruct (_decode_number fuel p) as [[d p2]| |]; cbn [bind];
      try discriminate.
    cbn [ensures snd] in Hr2.
    destruct (io_seek_cur _ _) as [g| |] eqn:Eg; cbn [bind];
      try discriminate.
    apply io_seek_cur_value in Eg. destruct Eg as [-> Hrange].
    intros H1 H2. inversion H2; subst line r'. cbn [shows].
    set (m3 := with_source_rel _ _) in H1.
    destruct (_buffered_copy_returned fuel the_source_rel length m3 m')
      as (Hfile & Hpos).
    - discriminate.
    - exact (run_ok_target_at_end _ Hr2).
    - cbn. apply Hrange.
    - exact H1.
    - exists (Z.to_nat length). cbn zeta. split; [exact Hfile|].
      cbn [reader_io] in Hpos. rewrite Hpos. reflexivity. }
  destruct (Z.land data 3 =? 3); [|discriminate].
  change (patch (state m1)) with p.
  pose proof (decode_run_ok src fuel m1 Hr1) as Hr2.
  change (patch (state m1)) with p in Hr2.
  destruct (_decode_number fuel p) as [[d p2]| |]; cbn [bind];
    try discriminate.
  cbn [ensures snd] in Hr2.
  destruct (io_seek_cur _ _) as [g| |] eqn:Eg; cbn [bind];
    try discriminate.
  apply io_seek_cur_value in Eg. destruct Eg as [-> Hrange].
  cbn [pos].
  intros H1 H2. inversion H2; subst line r'. cbn [shows].
  set (m3 := with_target_rel _ _) in H1.
  destruct (target_copy_returned fuel length
              (target_rel m + signed_offset d) m3 m')
    as (copied & Hfile & Hrel).
  - exact (run_ok_target_at_end _ Hr2).
  - reflexivity.
  - apply Hrange.
  - exact Hlen.
  - exact H1.
  - exists copied. split; [exact Hfile|]. rewrite Hrel. lia.
Qed.

Lemma loops_agree (gas : nat) :
  forall fuel patch_end m m' lines r',
    patch_ok file m -> run_ok src m ->
    _patch_loop fuel gas patch_end 0 m = Ok m' ->
    dis_loop fuel gas patch_end (patch (state m)) = Ok (lines, r') ->
    r' = patch (state m')
    /\ disassembles fuel patch_end lines m m'.
Proof.
  induction gas as [|gas IH]; intros fuel patch_end m m' lines r' Hp Hr;
    cbn [_patch_loop dis_loop];
    destruct (Z.ltb_spec (position (patch (state m))) patch_end)
      as [Hlt|Hge];
    intros H1 H2; try discriminate;
    try (inversion H1; inversion H2; subst; split; [reflexivity|];
         split; [assumption|reflexivity]).
  pose proof (_patch_instruction_patch_ok file file_bytes fuel 0 m Hp)
    as Hp1.
  pose proof (_patch_instruction_run_ok src src_bytes fuel 0 m Hr) as Hr1.
  destruct (_patch_instruction fuel 0 m) as [m1| |] eqn:E1;
    cbn [bind] in H1; try discriminate H1.
  destruct (dis_instruction fuel (patch (state m))) as [[line r1]| |] eqn:E2;
    cbn [bind] in H2; try discriminate H2.
  pose proof (instruction_shows _ _ _ _ _ Hp Hr E1 E2) as Hshows.
  pose proof (instructions_agree _ _ _ _ _ _ Hp Hr E1 E2) as ->.
  destruct (dis_loop fuel gas patch_end (patch (state m1)))
    as [[lines1 r2]| |] eqn:E3; cbn [bind] in H2; try discriminate H2.
  inversion H2; subst.
  destruct (IH _ _ _ _ _ _ Hp1 Hr1 H1 E3) as [E Hd].
  split; [exact E|]. cbn [disassembles]. split; [assumption|].
  exists m1. auto.
Qed.

End DisAgrees.

(** A number that [_decode_number] returns is the one of the VarInt at
    the cursor, in the words of the specification. *)
Lemma _decode_number_returned (fuel : nat) (input p : _ReadState) (v : Z) :
  0 <= pos (buffer input) ->
  _decode_number fuel input = Ok (v, p) ->
  varint_spec (remaining (buffer input)) 0 1
  = Some (v, remaining (buffer p)).
Proof.
  intros Hpos Hrun.
  set (stream := remaining (buffer input)).
  set (G := Nat.max fuel (S (length stream))).
  assert (HG : _decode_number G input = Ok (v, p))
    by (eapply approx_value;
        [apply (_decode_number_mono fuel G); unfold G; lia
        |exact Hrun|discriminate]).
  pose proof (decode_loop_follows_spec stream G input 0 1 eq_refl Hpos
                ltac:(unfold G; lia)) as Hspec.
  destruct (varint_spec stream 0 1) as [[v' rest]|].
  - destruct Hspec as (input' & Hrun' & Hrest & _).
    unfold _decode_number in HG. rewrite Hrun' in HG.
    inversion HG; subst. reflexivity.
  - unfold _decode_number in HG. rewrite Hspec in HG. discriminate HG.
Qed.

(** X16: [dis] walks the patch file as [patch] does.  When a run of
    [patch] returns and [dis], given the same size, returns too, the
    lines of [dis] are: the magic "BPS1"; the three numbers that follow
    it in the patch file, which are the two sizes of the result of
    [patch] and the size of the metadata; the metadata of the result,
    which are that many bytes after the numbers (fewer when the file
    ends before); one line for each instruction that [patch] runs, in
    the order of the run, each showing what its instruction does (the
    bytes that a read appends to the target, the move of the cursor of a
    copy); and the three checksums of the result of [patch]. *)
Theorem dis_agrees_with_patch
    (fuel fuel' : nat) (source_file patch_bytes : list Z)
    (patch_size : option Z) (skip_checksum : bool)
    (r : PatchResult) (m : Streams) (lines : list dis_line) :
  Forall is_byte source_file ->
  Forall is_byte patch_bytes ->
  Api.patch fuel source_file patch_bytes patch_size skip_checksum
  = Ok (r, m) ->
  dis fuel' (mkIO patch_bytes 0)
      (match patch_size with
       | Some n => n
       | None => len patch_bytes
       end) = Ok lines ->
  exists metadata_size instructions rest1 rest2 rest3 m0 m1,
    lines
    = [line_string MAGIC; line_source_size (source_size r);
       line_target_size (target_size r); line_metadata_size metadata_size;
       line_metadata (metadata r); line_repeat]
      ++ instructions
      ++ [line_source_checksum (source_checksum r);
          line_target_checksum (target_checksum r);
          line_patch_checksum (patch_checksum r)]
    /\ varint_spec (skipn 4 patch_bytes) 0 1 = Some (source_size r, rest1)
    /\ varint_spec rest1 0 1 = Some (target_size r, rest2)
    /\ varint_spec rest2 0 1 = Some (metadata_size, rest3)
    /\ metadata r = firstn (Z.to_nat metadata_size) rest3
    /\ _patch_header (Nat.max fuel fuel') (mkIO source_file 0)
                     (mkIO source_file 0) (mkIO patch_bytes 0) (mkIO [] 0) 0
       = Ok (source_size r, target_size r, metadata r, m0)
    /\ _patch_loop (Nat.max fuel fuel') (Nat.max fuel fuel')
                   (match patch_size with
                    | Some n => n
                    | None => len patch_bytes
                    end - 12) 0 m0 = Ok m1
    /\ disassembles (Nat.max fuel fuel')
                    (match patch_size with
                     | Some n => n
                     | None => len patch_bytes
                     end - 12) instructions m0 m1.
Proof.
  intros Hsb Hpb Hp Hd.
  set (ps := match patch_size with
             | Some n => n
             | None => len patch_bytes
             end) in *.
  set (F := Nat.max fuel fuel').
  apply (patch_more_fuel _ F) in Hp; [|discriminate|unfold F; lia].
  assert (Hd' : dis F (mkIO patch_bytes 0) ps = Ok lines)
    by (eapply approx_value;
        [apply (dis_mono fuel' F); unfold F; lia|exact Hd|discriminate]).
  clear Hd. unfold Api.patch, _patch in Hp. cbn [content] in Hp. fold ps in Hp.
  pose proof (_patch_header_patch_ok patch_bytes Hpb F (mkIO source_file 0)
                (mkIO source_file 0) (mkIO [] 0) 0) as Hpok.
  pose proof (_patch_header_run_ok source_file Hsb F patch_bytes Hpb) as Hrok.
  destruct (_patch_header F _ _ _ _ _) as [[[[ss ts] md] m0]| |] eqn:Eh;
    cbn [bind] in Hp; try discriminate Hp.
  cbn [ensures snd] in Hpok, Hrok.
  destruct (_patch_loop F F _ _ m0) as [m1| |] eqn:El;
    cbn [bind] in Hp; try discriminate Hp.
  destruct (_patch_complete F ss ts m1) as [m2| |] eqn:Ec;
    cbn [bind] in Hp; try discriminate Hp.
  apply _patch_complete_patch_same in Ec.
  unfold _patch_header in Eh. cbn [state patch] in Eh.
  unfold dis in Hd'.
  assert (Hnonneg : forall (q q' : _ReadState) v,
             reads_prefix patch_bytes q ->
             _decode_number F q = Ok (v, q') ->
             0 <= v
             /\ varint_spec (remaining (buffer q)) 0 1
                = Some (v, remaining (buffer q'))).
  { intros q q' v (Hc & Hq & Hrg & _) E. split.
    - unfold _decode_number in E.
      eapply _decode_number_loop_nonneg; [| | |exact E]; try lia.
      now rewrite Hc.
    - apply (_decode_number_returned F); [lia|exact E]. }
  pose proof (reads_prefix_read patch_bytes Hpb _ 4
                (reads_prefix_new patch_bytes)) as Q0.
  destruct (read_next (new_ReadState (mkIO patch_bytes 0)) 4 ltac:(lia)
              ltac:(cbn; lia)) as (_ & R0 & _).
  rewrite skipn_length_firstn in R0.
  change (remaining (buffer (new_ReadState (mkIO patch_bytes 0))))
    with patch_bytes in R0.
  change (Z.to_nat 4) with 4%nat in R0.
  destruct (read (new_ReadState (mkIO patch_bytes 0)) 4) as [magic p0].
  cbn [snd] in Q0, R0.
  destruct (list_eq_dec Z.eq_dec magic MAGIC) as [->|]; cbn [negb] in Eh;
    [|discriminate Eh].
  cbn [with_patch state patch] in Eh.
  pose proof (_decode_number_prefix patch_bytes Hpb F p0 Q0) as Q1.
  destruct (_decode_number F p0) as [[ss' p1]| |] eqn:D1;
    cbn [bind] in Eh, Hd'; try discriminate Eh.
  cbn [ensures snd with_patch state patch] in Q1, Eh.
  destruct (Hnonneg _ _ _ Q0 D1) as [_ V1].
  pose proof (_decode_number_prefix patch_bytes Hpb F p1 Q1) as Q2.
  destruct (_decode_number F p1) as [[ts' p2]| |] eqn:D2;
    cbn [bind] in Eh, Hd'; try discriminate Eh.
  cbn [ensures snd with_patch state patch] in Q2, Eh.
  destruct (Hnonneg _ _ _ Q1 D2) as [_ V2].
  pose proof (_decode_number_prefix patch_bytes Hpb F p2 Q2) as Q3.
  destruct (_decode_number F p2) as [[ms p3]| |] eqn:D3;
    cbn [bind] in Eh, Hd'; try discriminate Eh.
  cbn [ensures snd with_patch state patch] in Q3, Eh.
  destruct (Hnonneg _ _ _ Q2 D3) as [Hms V3].
  unfold read_checked in Eh, Hd'.
  destruct (_ <? ms); [discriminate Eh|]. cbn [bind] in Eh, Hd'.
  assert (Hpos3 : 0 <= pos (buffer p3))
    by (destruct Q3 as (_ & Hq & Hrg & _); lia).
  destruct (read_next p3 ms Hms Hpos3) as (M & _).
  destruct (read p3 ms) as [md' p4]. cbn [fst] in M.
  inversion Eh as [[E1 E2 E3 E4]]. subst ss' ts' md'. clear Eh.
  assert (E0 : patch (state m0) = p4) by (rewrite <- E4; reflexivity).
  assert (Eb : io_tell (target_rel_io m0) = 0)
    by (rewrite <- E4; reflexivity).
  rewrite Eb in El. clear Eb.
  destruct (dis_loop F F (ps - 12) p4) as [[instructions r5]| |] eqn:Ed;
    cbn [bind] in Hd'; try discriminate Hd'.
  rewrite <- E0 in Ed.
  destruct (loops_agree patch_bytes source_file Hpb Hsb F F (ps - 12)
              m0 m1 instructions r5 Hpok Hrok El Ed) as [E5 Hdis].
  rewrite <- Ec in E5.
  unfold _patch_trailer in Hp. rewrite <- E5 in Hp.
  destruct (read r5 4) as [b1 r6].
  cbn [with_patch state patch source target] in Hp.
  destruct (negb skip_checksum && _); [discriminate Hp|].
  destruct (read r6 4) as [b2 r7].
  cbn [with_patch state patch source target] in Hp.
  destruct (negb skip_checksum && _); [discriminate Hp|].
  destruct (io_read 4 (buffer r7)) as [b3 f].
  cbn [with_patch state patch position checksum] in Hp.
  destruct (negb skip_checksum && _); [discriminate Hp|].
  inversion Hp; subst r. inversion Hd'; subst lines.
  cbn [source_size target_size metadata source_checksum target_checksum
       patch_checksum].
  exists ms, instructions, (remaining (buffer p1)), (remaining (buffer p2)),
         (remaining (buffer p3)), m0, m1.
  rewrite R0 in V1. subst md.
  split; [reflexivity|]. split; [exact V1|]. split; [exact V2|].
  split; [exact V3|]. split; [reflexivity|]. split; [congruence|].
  split; [exact El|exact Hdis].
Qed.

Lemma dis_agrees_with_patch_witness :
  exists lines instructions m0 m1,
    dis 2 (mkIO hello_patch 0) 25 = Ok lines
    /\ lines
       = [line_string MAGIC; line_source_size 0; line_target_size 5;
          line_metadata_size 0; line_metadata []; line_repeat]
         ++ instructions
         ++ [line_source_checksum 0; line_target_checksum 0x3610a686;
             line_patch_checksum 0x29a44b9d]
    /\ length instructions = 1%nat
    /\ disassembles 2 13 instructions m0 m1.
Proof.
  assert (Hp : exists r m,
             Api.patch 1 [] hello_patch None false = Ok (r, m)
             /\ source_size r = 0 /\ target_size r = 5 /\ metadata r = []
             /\ source_checksum r = 0 /\ target_checksum r = 0x3610a686
             /\ patch_checksum r = 0x29a44b9d)
    by (do 2 eexists; split; [vm_compute; reflexivity|];
        vm_compute; repeat split; reflexivity).
  destruct Hp as (r & m & Hp & E1 & E2 & E3 & E4 & E5 & E6).
  assert (Hd : exists lines,
             dis 2 (mkIO hello_patch 0) 25 = Ok lines
             /\ length lines = 10%nat)
    by (eexists; split; vm_compute; reflexivity).
  destruct Hd as (lines & Hd & Hn).
  destruct (dis_agrees_with_patch 1 2 [] hello_patch None false r m lines
              (Forall_nil _) hello_patch_bytes Hp Hd)
    as (ms & instructions & rest1 & rest2 & rest3 & m0 & m1
        & H & V1 & V2 & V3 & _ & _ & _ & Hdis).
  assert (Ems : ms = 0)
    by (vm_compute in V1; inversion V1; subst rest1;
        vm_compute in V2; inversion V2; subst rest2;
        vm_compute in V3; now inversion V3).
  rewrite E1, E2, E3, E4, E5, E6, Ems in H.
  exists lines, instructions, m0, m1.
  split; [exact Hd|]. split; [exact H|]. split; [|exact Hdis].
  rewrite H in Hn. rewrite !length_app in Hn. cbn [length] in Hn. lia.
Defined.

(** ** The checksum cursor *)

Lemma firstn_then (n k : nat) (l : list Z) :
  firstn n l ++ firstn k (skipn (length (firstn n l)) l) = firstn (n + k) l.
Proof.
  destruct (Nat.le_gt_cases n (length l)) as [H|H].
  - rewrite length_firstn, Nat.min_l by lia. apply firstn_firstn_skipn.
  - replace (firstn n l) with l by (symmetry; apply firstn_all2; lia).
    replace (firstn (n + k) l) with l by (symmetry; apply firstn_all2; lia).
    rewrite skipn_all, firstn_nil. apply app_nil_r.
Qed.

(** X17: two reads through a cursor are one read: reading [n] bytes and
    then [k] bytes returns, piece after piece, what reading [n + k] bytes
    returns, and leaves the cursor in the same state, position and
    checksum included. *)
Theorem read_then_read
    (file : list Z) (s : _ReadState) (n k : Z) :
  Forall is_byte file ->
  reads_prefix file s ->
  0 <= n -> 0 <= k ->
  read s (n + k)
  = (fst (read s n) ++ fst (read (snd (read s n)) k),
     snd (read (snd (read s n)) k)).
Proof.
  intros Hb Hs Hn Hk.
  pose proof (reads_prefix_read file Hb s n Hs) as Hs1.
  pose proof (reads_prefix_read file Hb _ k Hs1) as Hs2.
  pose proof (reads_prefix_read file Hb s (n + k) Hs) as Hs12.
  assert (Hp : 0 <= pos (buffer s)) by (destruct Hs as (_ & -> & ? & _); lia).
  assert (Hp1 : 0 <= pos (buffer (snd (read s n))))
    by (destruct Hs1 as (_ & -> & ? & _); lia).
  destruct (read_next s n Hn Hp) as (Hd1 & Hr1 & Hq1).
  destruct (read_next _ k Hk Hp1) as (Hd2 & _ & Hq2).
  destruct (read_next s (n + k) ltac:(lia) Hp) as (Hd12 & _ & Hq12).
  assert (Hlist : fst (read s n) ++ fst (read (snd (read s n)) k)
                  = fst (read s (n + k))).
  { rewrite Hd1, Hd2, Hd12, Hr1, firstn_then. f_equal. lia. }
  rewrite (surjective_pairing (read s (n + k))). f_equal.
  - now symmetry.
  - apply (reads_prefix_unique file); try assumption.
    rewrite Hq12, Hq2, Hq1, <- Hd12, <- Hlist, len_app, Hd1, Hd2, Hr1. lia.
Qed.

Lemma read_then_read_witness :
  read (new_ReadState (mkIO [1; 2; 3; 4] 0)) (1 + 2)
  = (fst (read (new_ReadState (mkIO [1; 2; 3; 4] 0)) 1)
     ++ fst (read (snd (read (new_ReadState (mkIO [1; 2; 3; 4] 0)) 1)) 2),
     snd (read (snd (read (new_ReadState (mkIO [1; 2; 3; 4] 0)) 1)) 2)).
Proof.
  apply (read_then_read [1; 2; 3; 4]).
  - repeat (constructor; [unfold is_byte; lia|]). constructor.
  - apply reads_prefix_new.
  - lia.
  - lia.
Defined.

(** X18: two writes through a cursor that stands at the end of its file
    are one write of the two pieces put together: the same file, the same
    position and the same checksum. *)
Theorem write_then_write (t : _ReadState) (a b : list Z) :
  pos (buffer t) = len (content (buffer t)) ->
  Forall is_byte a ->
  write (write t a) b = write t (a ++ b).
Proof.
  intros Hp Ha.
  destruct (write_at_end t a Hp) as (Hc & Hp' & _).
  unfold write at 1 3. cbn [buffer position checksum].
  rewrite (io_write_at_end b _ Hp'), (io_write_at_end (a ++ b) _ Hp).
  rewrite Hc. unfold write. cbn [buffer position checksum].
  rewrite (u32_mask _ (u32_crc32 a (checksum t) Ha)).
  rewrite crc32_app by assumption.
  rewrite <- !app_assoc, !len_app. f_equal; lia.
Qed.

Lemma write_then_write_witness :
  write (write (new_ReadState (mkIO [] 0)) [1; 2]) [3]
  = write (new_ReadState (mkIO [] 0)) ([1; 2] ++ [3]).
Proof.
  apply write_then_write.
  - reflexivity.
  - repeat (constructor; [unfold is_byte; lia|]). constructor.
Defined.

(** ** The skip flag *)

Lemma _patch_trailer_skip_same (ss ts : Z) (md : list Z) (m : Streams)
    (x : PatchResult * Streams) :
  _patch_trailer false ss ts md m = Ok x ->
  _patch_trailer true ss ts md m = Ok x.
Proof.
  unfold _patch_trailer. cbn [negb andb].
  destruct (read (patch (state m)) 4) as [b1 p1].
  destruct (negb _); [discriminate|].
  destruct (read _ 4) as [b2 p2].
  destruct (negb _); [discriminate|].
  destruct (io_read 4 _) as [b3 f].
  destruct (negb _); [discriminate|].
  auto.
Qed.

(** X19: the skip flag only takes errors away: a run of [_patch] that
    returns while verifying returns the same result, with the same
    streams, when it skips the verification. *)
Theorem skip_checksum_same_result
    (fuel : nat) (source_abs source_rel patch_io : BinaryIO)
    (patch_size : Z) (target_abs : BinaryIO) (target_rel : Z)
    (x : PatchResult * Streams) :
  _patch fuel source_abs source_rel patch_io patch_size target_abs
         target_rel false = Ok x ->
  _patch fuel source_abs source_rel patch_io patch_size target_abs
         target_rel true = Ok x.
Proof.
  rewrite !_patch_body_trailer.
  destruct (_patch_body _ _ _ _ _ _ _) as [[[[ss ts] md] m]| |];
    cbn [bind]; try discriminate.
  apply _patch_trailer_skip_same.
Qed.

Lemma skip_checksum_same_result_witness :
  Api.patch 1 [] hello_patch None true
  = Api.patch 1 [] hello_patch None false.
Proof.
  assert (H : exists x, Api.patch 1 [] hello_patch None false = Ok x)
    by (eexists; vm_compute; reflexivity).
  destruct H as [x H]. rewrite H.
  exact (skip_checksum_same_result 1 (mkIO [] 0) (mkIO [] 0)
           (mkIO hello_patch 0) 25 (mkIO [] 0) 0 x H).
Defined.
